(** * WalletModel: the send pipeline of src/qt/walletmodel.cpp

    A shallow embedding of [WalletModel::validateAddress] and
    [WalletModel::sendCoins].  The wallet, the key-agreement and encryption
    helpers, the base58 parsers and the fee dialog live in other translation
    units; they are taken as an interface ([Externals]) whose members are
    called exactly where the source calls them.  Effects are explicit: the
    wallet state is threaded, calls that acquire locks or reach the wallet
    are logged in a chronological trace, and an early [return] of the C++
    function is an [Exit] outcome of the monad. *)

From Stdlib Require Import ZArith String Ascii List Lia.
From stdpp Require Import base gmap strings list pretty.

Local Open Scope Z_scope.

(** ** Fixed-width integers *)

Module Int.

(** Two's-complement reduction to a signed [w]-bit value. *)
Definition wrap (w : Z) (z : Z) : Z :=
  (z + 2 ^ (w - 1)) mod 2 ^ w - 2 ^ (w - 1).

Definition wrap32 : Z -> Z := wrap 32.
Definition wrap64 : Z -> Z := wrap 64.

(** [qint64]/[int64_t] addition. *)
Definition add64 (a b : Z) : Z := wrap64 (a + b).

(** Reinterpretation of an [int] as [unsigned], as [%u] does. *)
Definition to_unsigned32 (z : Z) : Z := z mod 2 ^ 32.

End Int.

(** ** Data *)

(** [std::vector<unsigned char>], [ec_point], [ec_secret], [CKeyID]. *)
Definition bytes : Type := list Byte.byte.
Definition ec_point : Type := bytes.
Definition ec_secret : Type := bytes.
Definition CKeyID : Type := bytes.

(** A script is the sequence of items streamed into it with [<<]:
    an opcode, or a data push of a byte vector. *)
Inductive ScriptItem : Type :=
| OP_RETURN
| OP_CODE (code : Byte.byte)
| PUSH (data : bytes).

Definition CScript : Type := list ScriptItem.

(** An element of [vecSend]: [std::pair<CScript, int64_t>]. *)
Definition Output : Type := (CScript * Z)%type.

Inductive CTxDestination : Type :=
| CNoDestination
| DestKeyID (id : CKeyID)
| DestScriptID (id : bytes).

Record CStealthAddress : Type := mkStealthAddress {
  scan_pubkey : ec_point;
  spend_pubkey : ec_point
}.

(** [SendCoinsRecipient].  [QString] fields are represented by the
    [std::string] that [toStdString] yields, so that [String.length] is the
    raw byte length the source compares against 24 and 75. *)
Record SendCoinsRecipient : Type := mkRecipient {
  address : string;
  label : string;
  narration : string;
  typeInd : Z;
  amount : Z
}.

Inductive StatusCode : Type :=
| OK
| InvalidAmount
| InvalidAddress
| AmountExceedsBalance
| AmountWithFeeExceedsBalance
| DuplicateAddress
| TransactionCreationFailed
| TransactionCommitFailed
| NarrationTooLong
| Aborted.

(** [SendCoinsReturn(status, fee = 0, hex = QString())]. *)
Record SendCoinsReturn : Type := mkSendCoinsReturn {
  status : StatusCode;
  fee : Z;
  hex : string
}.

Definition SendCoinsReturn1 (s : StatusCode) : SendCoinsReturn :=
  mkSendCoinsReturn s 0 "".
Definition SendCoinsReturn2 (s : StatusCode) (f : Z) : SendCoinsReturn :=
  mkSendCoinsReturn s f "".

(** What [sendCoins] sees of a [CWalletTx]: the outputs chosen by the
    wallet and the auxiliary key/value metadata. *)
Record CWalletTx : Type := mkWalletTx {
  vout : list Output;
  mapValue : gmap string string
}.

(** The out-parameters of [CWallet::CreateTransaction]. *)
Record CreateResult : Type := mkCreateResult {
  fCreated : bool;
  wtxNew : CWalletTx;
  nFeeRequired : Z;
  nChangePos : Z
}.

(** Calls that leave [sendCoins]: lock acquisitions and releases, and every
    call into the wallet or the user interface. *)
Inductive Event : Type :=
| EvAvailableCoins
| EvLock2
| EvUnlock2
| EvCreateTransaction (vecSend : list Output)
| EvAskFee (nFee : Z)
| EvCommitTransaction (wtx : CWalletTx)
| EvLockWallet
| EvUnlockWallet
| EvUpdateStealthAddress (addr lbl : string)
| EvSetAddressBookName (dest : CTxDestination) (lbl : string).

Global Instance StatusCode_eq_dec : EqDecision StatusCode.
Proof. solve_decision. Defined.

Global Instance byte_eq_dec : EqDecision Byte.byte := Byte.byte_eq_dec.

(** ** [std::map<int, std::string>] *)

(** An ordered association list: iteration is by ascending key, and
    [m[k] = v] overwrites or inserts in order. *)
Fixpoint map_assign (k : Z) (v : string) (m : list (Z * string)) : list (Z * string) :=
  match m with
  | [] => [(k, v)]
  | (k', v') :: m' =>
      if k <? k' then (k, v) :: m
      else if k =? k' then (k, v) :: m'
      else (k', v') :: map_assign k v m'
  end.

(** ** External collaborators *)

(** Everything [sendCoins] calls outside its own translation unit.  [W] is
    the wallet-side state (coin set, key pool with the change key that
    [keyChange] may hold, address book); [CC] is [CCoinControl].

    - [CBitcoinAddress_IsValid s] and [CBitcoinAddress_Get s] stand for
      [CBitcoinAddress(s).IsValid()] and [CBitcoinAddress(s).Get()];
      [CBitcoinAddress_KeyID_Get id] for [CBitcoinAddress(id).Get()].
    - [SetEncoded s] is [Some sxAddr] when [sxAddr.SetEncoded(s)] succeeds.
    - [GenerateRandomSecret n] is the [n]-th draw; [None] is a non-zero
      return, as for [StealthSecret] and [SecretToPublicKey].
    - [SecMsgCrypter_Encrypt key iv text] is [SetKey(key, iv)] followed by
      [Encrypt]; [None] is a [false] return.
    - [AvailableCoins w cc] lists the [nValue] of each spendable coin.
    - [CreateTransaction] yields its out-parameters and the wallet state
      with the change key reserved, when it reserved one.
    - [CReserveKey_ReturnKey] is the destructor of [keyChange]: the key goes
      back to the pool unless [CommitTransaction] has kept it. *)
Class Externals (W CC : Type) : Type := {
  (* stealth.h, base58.h, key.h, script.h *)
  IsStealthAddress : string -> bool;
  CBitcoinAddress_IsValid : string -> bool;
  CBitcoinAddress_Get : string -> CTxDestination;
  CBitcoinAddress_KeyID_Get : CKeyID -> CTxDestination;
  SetEncoded : string -> option CStealthAddress;
  GenerateRandomSecret : nat -> option ec_secret;
  StealthSecret : ec_secret -> ec_point -> ec_point -> option (ec_secret * ec_point);
  CPubKey_IsValid : ec_point -> bool;
  CPubKey_GetID : ec_point -> CKeyID;
  SecretToPublicKey : ec_secret -> option ec_point;
  SetDestination : CTxDestination -> CScript;
  (* smessage.h *)
  SecMsgCrypter_Encrypt : ec_secret -> ec_point -> string -> option bytes;
  (* globals and enumerators *)
  nTransactionFee : Z;
  AT_Stealth : Z;
  (* wallet.h *)
  AvailableCoins : W -> option CC -> list Z;
  CreateTransaction : W -> list Output -> option CC -> CreateResult * W;
  CReserveKey_ReturnKey : W -> W;
  CommitTransaction : W -> CWalletTx -> bool * W;
  GetHashHex : CWalletTx -> string;
  UpdateStealthAddress : W -> string -> string -> W;
  mapAddressBook_find : W -> CTxDestination -> option string;
  SetAddressBookName : W -> CTxDestination -> string -> W;
  (* ui_interface.h *)
  ThreadSafeAskFee : Z -> bool
}.

(** ** The monad of [sendCoins] *)

Record St (W : Type) : Type := mkSt {
  wallet : W;
  draws : nat;
  trace : list Event
}.
Arguments mkSt {W} _ _ _.
Arguments wallet {W} _.
Arguments draws {W} _.
Arguments trace {W} _.

(** Either the block runs to its end with a value, or the function has
    executed a [return]. *)
Inductive Outcome (A : Type) : Type :=
| Continue (a : A)
| Exit (r : SendCoinsReturn).
Arguments Continue {A} _.
Arguments Exit {A} _.

Definition M (W A : Type) : Type := St W -> Outcome A * St W.

Global Instance M_ret {W} : MRet (M W) := fun A a s => (Continue a, s).
Global Instance M_bind {W} : MBind (M W) := fun A B f m s =>
  match m s with
  | (Continue a, s') => f a s'
  | (Exit r, s') => (Exit r, s')
  end.

Definition exit {W A} (r : SendCoinsReturn) : M W A := fun s => (Exit r, s).

Definition emit {W} (e : Event) : M W unit := fun s =>
  (Continue tt, mkSt (wallet s) (draws s) (trace s ++ [e])).

Definition get_wallet {W} : M W W := fun s => (Continue (wallet s), s).

Definition put_wallet {W} (w : W) : M W unit := fun s =>
  (Continue tt, mkSt w (draws s) (trace s)).

Definition next_draw {W} : M W nat := fun s =>
  (Continue (draws s), mkSt (wallet s) (S (draws s)) (trace s)).

(** A scope: [cleanup] runs when control leaves [body], also by [return]. *)
Definition scoped {W A} (body : M W A) (cleanup : M W unit) : M W A := fun s =>
  match body s with
  | (o, s') =>
      match cleanup s' with
      | (_, s'') => (o, s'')
      end
  end.

(** Collapse to the value the C++ function returns. *)
Definition run {W} (m : M W SendCoinsReturn) (s : St W) : SendCoinsReturn * St W :=
  match m s with
  | (Continue r, s') => (r, s')
  | (Exit r, s') => (r, s')
  end.

(** ** The embedded functions *)

Section WalletModel.

Context {W CC : Type} `{Ext : Externals W CC}.

Abbreviation Mw := (M W).

(** [WalletModel::validateAddress] *)
Definition validateAddress (address : string) : bool :=
  let sAddr := address in
  if (75 <? String.length sAddr)%nat then
    if IsStealthAddress sAddr then true
    else CBitcoinAddress_IsValid sAddr
  else CBitcoinAddress_IsValid sAddr.

(** The validation loop of [sendCoins]: [setAddress] and [total] are the
    locals it updates; [inr] is the status of an early [return]. *)
Fixpoint precheck (recipients : list SendCoinsRecipient)
    (setAddress : gset string) (total : Z) : gset string * Z + StatusCode :=
  match recipients with
  | [] => inl (setAddress, total)
  | rcp :: rest =>
      if negb (validateAddress (address rcp)) then inr InvalidAddress
      else
        let setAddress := {[ address rcp ]} ∪ setAddress in
        if amount rcp <=? 0 then inr InvalidAmount
        else precheck rest setAddress (Int.add64 total (amount rcp))
  end.

(** [nBalance += out.tx->vout[out.i].nValue] over [vCoins]. *)
Definition sum_coins (vCoins : list Z) : Z :=
  fold_left Int.add64 vCoins 0.

(** [GenerateRandomSecret(ephem_secret)]. *)
Definition draw_secret : Mw (option ec_secret) :=
  n ← next_draw; mret (GenerateRandomSecret n).

(** The locals of the output-building loop. *)
Definition BuildState : Type := (list Output * list (Z * string))%type.

(** The unencrypted narration script of a standard payment. *)
Definition vNDesc : bytes := [Byte.x6e; Byte.x70].
Definition scriptN (sNarr : string) : CScript :=
  [OP_RETURN; PUSH vNDesc; OP_RETURN; PUSH (list_byte_of_string sNarr)].

(** The part of the loop body after the stealth branch. *)
Definition buildStandard (rcp : SendCoinsRecipient) (b : BuildState) : Mw BuildState :=
  let '(vecSend, mapStealthNarr) := b in
  let sAddr := address rcp in
  let scriptPubKey := SetDestination (CBitcoinAddress_Get sAddr) in
  let vecSend := vecSend ++ [(scriptPubKey, amount rcp)] in
  if (0 <? String.length (narration rcp))%nat then
    let sNarr := narration rcp in
    if (24 <? String.length sNarr)%nat then exit (SendCoinsReturn1 NarrationTooLong)
    else mret (vecSend ++ [(scriptN sNarr, 0)], mapStealthNarr)
  else mret (vecSend, mapStealthNarr).

(** The stealth branch, entered once [sxAddr.SetEncoded(sAddr)] succeeded. *)
Definition buildStealth (rcp : SendCoinsRecipient) (sxAddr : CStealthAddress)
    (b : BuildState) : Mw BuildState :=
  let '(vecSend, mapStealthNarr) := b in
  r ← draw_secret;
  match r with
  | None => exit (SendCoinsReturn1 Aborted)
  | Some ephem_secret =>
  match StealthSecret ephem_secret (scan_pubkey sxAddr) (spend_pubkey sxAddr) with
  | None => exit (SendCoinsReturn1 Aborted)
  | Some (secretShared, pkSendTo) =>
  if negb (CPubKey_IsValid pkSendTo) then exit (SendCoinsReturn1 Aborted)
  else
  let ckidTo := CPubKey_GetID pkSendTo in
  match SecretToPublicKey ephem_secret with
  | None => exit (SendCoinsReturn1 Aborted)
  | Some ephem_pubkey =>
  let scriptPubKey := SetDestination (CBitcoinAddress_KeyID_Get ckidTo) in
  let vecSend := vecSend ++ [(scriptPubKey, amount rcp)] in
  let scriptP := [OP_RETURN; PUSH ephem_pubkey] in
  if (0 <? String.length (narration rcp))%nat then
    let sNarr := narration rcp in
    if (24 <? String.length sNarr)%nat then exit (SendCoinsReturn1 NarrationTooLong)
    else
    match SecMsgCrypter_Encrypt secretShared ephem_pubkey sNarr with
    | None => exit (SendCoinsReturn1 Aborted)
    | Some vchNarr =>
    if (48 <? length vchNarr)%nat then exit (SendCoinsReturn1 Aborted)
    else
    let scriptP :=
      if (0 <? length vchNarr)%nat then scriptP ++ [OP_RETURN; PUSH vchNarr]
      else scriptP in
    let pos := Int.wrap32 (Z.of_nat (length vecSend) - 1) in
    let mapStealthNarr := map_assign pos sNarr mapStealthNarr in
    mret (vecSend ++ [(scriptP, 0)], mapStealthNarr)
    end
  else mret (vecSend ++ [(scriptP, 0)], mapStealthNarr)
  end end end.

(** One iteration of the output-building loop. *)
Definition buildRecipient (rcp : SendCoinsRecipient) (b : BuildState) : Mw BuildState :=
  if typeInd rcp =? AT_Stealth then
    match SetEncoded (address rcp) with
    | Some sxAddr => buildStealth rcp sxAddr b
    | None => buildStandard rcp b
    end
  else buildStandard rcp b.

Fixpoint buildOutputs (recipients : list SendCoinsRecipient) (b : BuildState) : Mw BuildState :=
  match recipients with
  | [] => mret b
  | rcp :: rest => b' ← buildRecipient rcp b; buildOutputs rest b'
  end.

(** The position the narration of a collected record ends at:
    [if (nChangePos > -1 && it->first >= nChangePos) pos++]. *)
Definition shiftPos (nChangePos : Z) (first : Z) : Z :=
  let pos := first in
  if (-1 <? nChangePos) && (nChangePos <=? first) then Int.wrap32 (pos + 1)
  else pos.

(** [snprintf(key, sizeof(key), "n_%u", pos)]: the text written (it always
    fits the 64 bytes of [key]). *)
Definition narrKey (pos : Z) : string :=
  "n_" +:+ pretty (Int.to_unsigned32 pos).

(** The loop over [mapStealthNarr] that fills [wtx.mapValue]. *)
Definition attachNarrations (nChangePos : Z) (mapStealthNarr : list (Z * string))
    (mv : gmap string string) : gmap string string :=
  fold_left
    (fun mv it =>
       let pos := shiftPos nChangePos (fst it) in
       let key := narrKey pos in
       if (String.length key <? 1)%nat then mv
       else <[ key := snd it ]> mv)
    mapStealthNarr mv.

(** The address-book loop after the critical section. *)
Definition updateAddressBook1 (rcp : SendCoinsRecipient) : Mw unit :=
  let strAddress := address rcp in
  let dest := CBitcoinAddress_Get strAddress in
  let strLabel := label rcp in
  scoped
    (_ ← emit EvLockWallet;
     w ← get_wallet;
     if typeInd rcp =? AT_Stealth then
       _ ← emit (EvUpdateStealthAddress strAddress strLabel);
       put_wallet (UpdateStealthAddress w strAddress strLabel)
     else
       match mapAddressBook_find w dest with
       | Some l =>
           if decide (l = strLabel) then mret tt
           else
             _ ← emit (EvSetAddressBookName dest strLabel);
             put_wallet (SetAddressBookName w dest strLabel)
       | None =>
           _ ← emit (EvSetAddressBookName dest strLabel);
           put_wallet (SetAddressBookName w dest strLabel)
       end)
    (emit EvUnlockWallet).

Fixpoint updateAddressBook (recipients : list SendCoinsRecipient) : Mw unit :=
  match recipients with
  | [] => mret tt
  | rcp :: rest => _ ← updateAddressBook1 rcp; updateAddressBook rest
  end.

(** The scope of [keyChange]: from its construction to the end of the
    critical section.  Its value is [hex]. *)
Definition createAndCommit (coinControl : option CC) (total nBalance : Z)
    (b : BuildState) : Mw string :=
  let '(vecSend, mapStealthNarr) := b in
  scoped
    (_ ← emit (EvCreateTransaction vecSend);
     w ← get_wallet;
     let '(cr, w') := CreateTransaction w vecSend coinControl in
     _ ← put_wallet w';
     let wtx :=
       mkWalletTx (vout (wtxNew cr))
         (attachNarrations (nChangePos cr) mapStealthNarr (mapValue (wtxNew cr))) in
     if negb (fCreated cr) then
       if nBalance <? Int.add64 total (nFeeRequired cr)
       then exit (SendCoinsReturn2 AmountWithFeeExceedsBalance (nFeeRequired cr))
       else exit (SendCoinsReturn1 TransactionCreationFailed)
     else
       _ ← emit (EvAskFee (nFeeRequired cr));
       if negb (ThreadSafeAskFee (nFeeRequired cr)) then exit (SendCoinsReturn1 Aborted)
       else
         _ ← emit (EvCommitTransaction wtx);
         w ← get_wallet;
         let '(ok, w') := CommitTransaction w wtx in
         _ ← put_wallet w';
         if negb ok then exit (SendCoinsReturn1 TransactionCommitFailed)
         else mret (GetHashHex wtx))
    (w ← get_wallet; put_wallet (CReserveKey_ReturnKey w)).

(** The block under [LOCK2(cs_main, wallet->cs_wallet)]. *)
Definition lockedSection (recipients : list SendCoinsRecipient)
    (coinControl : option CC) (total nBalance : Z) : Mw string :=
  scoped
    (_ ← emit EvLock2;
     b ← buildOutputs recipients ([], []);
     createAndCommit coinControl total nBalance b)
    (emit EvUnlock2).

Definition sendCoinsM (recipients : list SendCoinsRecipient)
    (coinControl : option CC) : Mw SendCoinsReturn :=
  match recipients with
  | [] => exit (SendCoinsReturn1 OK)
  | _ :: _ =>
  match precheck recipients ∅ 0 with
  | inr err => exit (SendCoinsReturn1 err)
  | inl (setAddress, total) =>
  if (size setAddress <? length recipients)%nat then exit (SendCoinsReturn1 DuplicateAddress)
  else
    _ ← emit EvAvailableCoins;
    w ← get_wallet;
    let vCoins := AvailableCoins w coinControl in
    let nBalance := sum_coins vCoins in
    if nBalance <? total then exit (SendCoinsReturn1 AmountExceedsBalance)
    else if nBalance <? Int.add64 total nTransactionFee
    then exit (SendCoinsReturn2 AmountWithFeeExceedsBalance nTransactionFee)
    else
      hex ← lockedSection recipients coinControl total nBalance;
      _ ← updateAddressBook recipients;
      mret (mkSendCoinsReturn OK 0 hex)
  end
  end.

(** [WalletModel::sendCoins]: the value returned and the state left. *)
Definition sendCoins (recipients : list SendCoinsRecipient)
    (coinControl : option CC) (s : St W) : SendCoinsReturn * St W :=
  run (sendCoinsM recipients coinControl) s.

(** ** Vocabulary of the statements *)

(** The requested total, as the validation loop accumulates it. *)
Definition requestTotal (recipients : list SendCoinsRecipient) (total : Z) : Z :=
  fold_left (fun t rcp => Int.add64 t (amount rcp)) recipients total.

(** A recipient the validation loop lets through. *)
Definition admissible (rcp : SendCoinsRecipient) : Prop :=
  validateAddress (address rcp) = true /\ 0 < amount rcp.

(** The branch a recipient takes in the output-building loop: [Some sxAddr]
    when it is marked stealth and its address decodes, [None] when control
    reaches the standard code. *)
Definition routeOf (rcp : SendCoinsRecipient) : option CStealthAddress :=
  if typeInd rcp =? AT_Stealth then SetEncoded (address rcp) else None.

(** The four steps of the stealth branch that precede the outputs, on the
    [n]-th random draw: shared secret, one-time public key, ephemeral
    public key. *)
Definition deriveKeys (sxAddr : CStealthAddress) (n : nat)
    : option (ec_secret * ec_point * ec_point) :=
  match GenerateRandomSecret n with
  | None => None
  | Some ephem_secret =>
      match StealthSecret ephem_secret (scan_pubkey sxAddr) (spend_pubkey sxAddr) with
      | None => None
      | Some (secretShared, pkSendTo) =>
          if CPubKey_IsValid pkSendTo then
            match SecretToPublicKey ephem_secret with
            | None => None
            | Some ephem_pubkey => Some (secretShared, pkSendTo, ephem_pubkey)
            end
          else None
      end
  end.

(** The payment output of the standard code and of the stealth branch. *)
Definition payStandard (rcp : SendCoinsRecipient) : Output :=
  (SetDestination (CBitcoinAddress_Get (address rcp)), amount rcp).

Definition payStealth (rcp : SendCoinsRecipient) (pkSendTo : ec_point) : Output :=
  (SetDestination (CBitcoinAddress_KeyID_Get (CPubKey_GetID pkSendTo)), amount rcp).

(** The request passes validation, the duplicate test and both balance
    tests, so [sendCoins] enters the critical section. *)
Definition reachesBuild (recipients : list SendCoinsRecipient)
    (coinControl : option CC) (w : W) : Prop :=
  recipients <> []
  /\ Forall admissible recipients
  /\ NoDup (map address recipients)
  /\ requestTotal recipients 0 <= sum_coins (AvailableCoins w coinControl)
  /\ Int.add64 (requestTotal recipients 0) nTransactionFee
     <= sum_coins (AvailableCoins w coinControl).

(** The state after one more random draw. *)
Definition drawn (s : St W) : St W := mkSt (wallet s) (S (draws s)) (trace s).

(** The stealth branch once the keys are derived: the narration tests and
    the two outputs. *)
Definition stealthOutcome (rcp : SendCoinsRecipient) (sh : ec_secret) (pk ep : ec_point)
    (v : list Output) (m : list (Z * string)) : Outcome BuildState :=
  if (0 <? String.length (narration rcp))%nat then
    if (24 <? String.length (narration rcp))%nat
    then Exit (SendCoinsReturn1 NarrationTooLong)
    else
      match SecMsgCrypter_Encrypt sh ep (narration rcp) with
      | None => Exit (SendCoinsReturn1 Aborted)
      | Some vchNarr =>
          if (48 <? length vchNarr)%nat then Exit (SendCoinsReturn1 Aborted)
          else
            Continue
              (v ++ [payStealth rcp pk;
                     ([OP_RETURN; PUSH ep]
                        ++ (if (0 <? length vchNarr)%nat then [OP_RETURN; PUSH vchNarr] else []),
                      0)],
               map_assign (Int.wrap32 (Z.of_nat (length (v ++ [payStealth rcp pk])) - 1))
                 (narration rcp) m)
      end
  else Continue (v ++ [payStealth rcp pk; ([OP_RETURN; PUSH ep], 0)], m).

(** The state after further calls have been logged. *)
Definition logged (s : St W) (evs : list Event) : St W :=
  mkSt (wallet s) (draws s) (trace s ++ evs).

End WalletModel.

(** The output list handed to [CreateTransaction], read off a trace. *)
Fixpoint createdOutputs (t : list Event) : option (list Output) :=
  match t with
  | [] => None
  | EvCreateTransaction vecSend :: _ => Some vecSend
  | _ :: t' => createdOutputs t'
  end.

(** Placing an output at a position of the list; the outputs at or after
    it move up by one. *)
Definition placeAt (pos : nat) (change : Output) (vecSend : list Output) : list Output :=
  firstn pos vecSend ++ change :: skipn pos vecSend.

(** Modelled from the spec: the wallet's transaction builder
    ([CWallet::CreateTransaction], wallet.cpp) is not among the sources.
    The spec has the wallet compute the change output and its position, and
    requires that change insertion never split a payment output from the
    zero-value data carrier that follows it, whatever position is chosen
    (before, inside or after the pair).  So the position chosen is moved
    towards the front for as long as the output there carries no value. *)
Fixpoint changeSlot (vecSend : list Output) (pos : nat) : nat :=
  match pos with
  | O => O
  | S pos' =>
      match vecSend !! pos with
      | Some (_, nValue) => if nValue =? 0 then changeSlot vecSend pos' else pos
      | None => pos
      end
  end.

(** Modelled from the spec: the change position the builder reports for a
    chosen position; a chosen position that is not above -1 means there is
    no change output, and a position beyond the end is the end. *)
Definition changePosition (nChosen : Z) (vecSend : list Output) : Z :=
  if -1 <? nChosen
  then Z.of_nat (changeSlot vecSend (Nat.min (Z.to_nat nChosen) (length vecSend)))
  else -1.

(** Modelled from the spec: the outputs of the built transaction.  The
    change output is placed at the change position reported, and the outputs
    at or after that position move up by one. *)
Definition insertChange (nChosen : Z) (change : Output) (vecSend : list Output)
    : list Output :=
  let nChangePos := changePosition nChosen vecSend in
  if -1 <? nChangePos then placeAt (Z.to_nat nChangePos) change vecSend
  else vecSend.

(** The index an output of [vecSend] has in the built transaction, given
    the change position reported. *)
Definition finalIndex (nChangePos : Z) (i : nat) : nat :=
  if (-1 <? nChangePos) && (nChangePos <=? Z.of_nat i) then S i else i.

(** ** A concrete wallet to run the embedding on *)

Module Demo.

(** Coins listed by [AvailableCoins]; coins that arrive between the
    unlocked listing and the critical section; whether the change key is
    reserved; committed transactions; the two address books. *)
Record Wallet : Type := mkWallet {
  coins : list Z;
  incoming : list Z;
  changeAt : nat;
  keyReserved : bool;
  committed : list CWalletTx;
  book : list (CTxDestination * string);
  stealthBook : list (string * string)
}.

Fixpoint skipSpaces (s : string) : string :=
  match s with
  | String " " s' => skipSpaces s'
  | _ => s
  end.

Fixpoint allSpaces (s : string) : bool :=
  match s with
  | EmptyString => true
  | String " " s' => allSpaces s'
  | String _ _ => false
  end.

(** The characters up to the first space, and the rest. *)
Fixpoint word (s : string) : string * string :=
  match s with
  | EmptyString => (EmptyString, EmptyString)
  | String " " _ => (EmptyString, s)
  | String c s' => let '(w, r) := word s' in (String c w, r)
  end.

(** A base58 reader in the manner of [DecodeBase58]: blanks around the
    text are skipped; the text is 34 characters and starts with [A]. *)
Definition decodeAddress (s : string) : option string :=
  let '(w, r) := word (skipSpaces s) in
  if allSpaces r && (String.length w =? 34)%nat && String.prefix "A" w
  then Some w else None.

(** A stealth address: [sx], then the scan key (first 33 characters) and
    the spend key (the rest); at least 76 characters in all. *)
Definition decodeStealth (s : string) : option CStealthAddress :=
  if String.prefix "sx" s && (75 <? String.length s)%nat
  then Some (mkStealthAddress
               (list_byte_of_string (String.substring 2 33 s))
               (list_byte_of_string (String.substring 35 (String.length s - 35) s)))
  else None.

(** Key agreement fails on a scan key that starts with [0]. *)
Definition stealthSecret (secret : ec_secret) (scan spend : ec_point)
    : option (ec_secret * ec_point) :=
  match scan with
  | Byte.x30 :: _ => None
  | _ => Some (secret ++ scan, Byte.x02 :: firstn 32 spend)
  end.

(** Block padding to a multiple of 16; ["!"] cannot be encrypted and a
    narration starting with [#] yields an over-long ciphertext. *)
Definition encrypt (key : ec_secret) (iv : ec_point) (s : string) : option bytes :=
  if String.eqb s "!" then None
  else if String.prefix "#" s then Some (repeat Byte.x00 64)
  else Some (list_byte_of_string s
             ++ repeat Byte.x10 (16 - Nat.modulo (String.length s) 16)).

Definition setDestination (d : CTxDestination) : CScript :=
  match d with
  | CNoDestination => []
  | DestKeyID id =>
      [OP_CODE Byte.x76; OP_CODE Byte.xa9; PUSH id; OP_CODE Byte.x88; OP_CODE Byte.xac]
  | DestScriptID id => [OP_CODE Byte.xa9; PUSH id; OP_CODE Byte.x87]
  end.

Definition sumZ (l : list Z) : Z := fold_left Z.add l 0.

(** Fee 10 per output; the change, when there is one, is inserted as
    [insertChange] has it, [changeAt] being the position chosen. *)
Definition createTransaction (w : Wallet) (vecSend : list Output) (cc : option unit)
    : CreateResult * Wallet :=
  let avail := sumZ (coins w ++ incoming w) in
  let value := sumZ (map snd vecSend) in
  let fee := 10 * Z.of_nat (length vecSend) in
  let change := avail - value - fee in
  if change <? 0 then
    (mkCreateResult false (mkWalletTx [] ∅) fee (-1), w)
  else if change =? 0 then
    (mkCreateResult true (mkWalletTx vecSend ∅) fee (-1), w)
  else
    let nChosen := Z.of_nat (changeAt w) in
    (mkCreateResult true
       (mkWalletTx (insertChange nChosen ([OP_CODE Byte.x51], change) vecSend) ∅)
       fee (changePosition nChosen vecSend),
     mkWallet (coins w) (incoming w) (changeAt w) true (committed w) (book w) (stealthBook w)).

Definition commitTransaction (w : Wallet) (wtx : CWalletTx) : bool * Wallet :=
  (true, mkWallet [] [] (changeAt w) false (wtx :: committed w) (book w) (stealthBook w)).

Definition returnKey (w : Wallet) : Wallet :=
  mkWallet (coins w) (incoming w) (changeAt w) false (committed w) (book w) (stealthBook w).

Fixpoint findBook (d : CTxDestination) (b : list (CTxDestination * string)) : option string :=
  match b with
  | [] => None
  | (d', l) :: b' =>
      match d, d' with
      | DestKeyID i, DestKeyID i' => if decide (i = i') then Some l else findBook d b'
      | _, _ => findBook d b'
      end
  end.

#[global] Instance ext : Externals Wallet unit := {|
  IsStealthAddress s := match decodeStealth s with Some _ => true | None => false end;
  CBitcoinAddress_IsValid s := match decodeAddress s with Some _ => true | None => false end;
  CBitcoinAddress_Get s :=
    match decodeAddress s with
    | Some w => DestKeyID (list_byte_of_string w)
    | None => CNoDestination
    end;
  CBitcoinAddress_KeyID_Get id := DestKeyID id;
  SetEncoded := decodeStealth;
  GenerateRandomSecret n := Some [Byte.x07; Byte.x07];
  StealthSecret := stealthSecret;
  CPubKey_IsValid pk := (0 <? length pk)%nat;
  CPubKey_GetID pk := firstn 20 pk;
  SecretToPublicKey secret := Some (Byte.x03 :: secret);
  SetDestination := setDestination;
  SecMsgCrypter_Encrypt := encrypt;
  nTransactionFee := 10;
  AT_Stealth := 2;
  AvailableCoins w _ := coins w;
  CreateTransaction := createTransaction;
  CReserveKey_ReturnKey := returnKey;
  CommitTransaction := commitTransaction;
  GetHashHex wtx := "tx" +:+ pretty (length (vout wtx));
  UpdateStealthAddress w a l :=
    mkWallet (coins w) (incoming w) (changeAt w) (keyReserved w) (committed w) (book w)
      ((a, l) :: stealthBook w);
  mapAddressBook_find w d := findBook d (book w);
  SetAddressBookName w d l :=
    mkWallet (coins w) (incoming w) (changeAt w) (keyReserved w) (committed w)
      ((d, l) :: book w) (stealthBook w);
  ThreadSafeAskFee f := true
|}.

Definition wallet0 (cs inc : list Z) (at_ : nat) : Wallet :=
  mkWallet cs inc at_ false [] [] [].

Definition start (cs inc : list Z) (at_ : nat) : St Wallet :=
  mkSt (wallet0 cs inc at_) 0 [].

(** Addresses: two standard ones, one of them again with trailing blanks
    (78 characters), and two stealth ones, the second with a scan key on
    which key agreement fails. *)
Definition addrA : string := "AVeroPayStandardAddress11111111111".
Definition addrB : string := "AVeroPayStandardAddress22222222222".
Definition addrPadded : string :=
  addrA +:+ "                                            ".
Definition addrStealth : string :=
  "sx" +:+ "1scanscanscanscanscanscanscanscans" +:+ "spendspendspendspendspendspendspendspendspe".

Definition narr25 : string := "abcdefghijklmnopqrstuvwxy".

Definition standard (a n : string) (v : Z) : SendCoinsRecipient := mkRecipient a "" n 1 v.
Definition stealth (a n : string) (v : Z) : SendCoinsRecipient := mkRecipient a "" n 2 v.

End Demo.

(** * The model object: cached figures, encryption state, coin lists *)

(** ** Data *)

Inductive EncryptionStatus : Type :=
| Unencrypted
| Locked
| Unlocked.

Global Instance EncryptionStatus_eq_dec : EqDecision EncryptionStatus.
Proof. solve_decision. Defined.

Global Instance ScriptItem_eq_dec : EqDecision ScriptItem.
Proof. solve_decision. Defined.

(** The data members of [WalletModel] that the functions below read or
    write.  The two table-model pointers are represented by whether they
    are non-null. *)
Record Model : Type := mkModel {
  fHaveWatchOnly : bool;
  addressTableModel : bool;
  transactionTableModel : bool;
  cachedBalance : Z;
  cachedLockedBalance : Z;
  cachedStake : Z;
  cachedUnconfirmedBalance : Z;
  cachedImmatureBalance : Z;
  cachedNumTransactions : Z;
  cachedEncryptionStatus : EncryptionStatus;
  cachedNumBlocks : Z
}.

(** Signals emitted, and calls into the table models. *)
Inductive Signal : Type :=
| balanceChanged (newBalance newLockedBalance newStake newUnconfirmedBalance
                  newImmatureBalance newWatchOnlyBalance newWatchUnconfBalance
                  newWatchImmatureBalance : Z)
| numTransactionsChanged (newNumTransactions : Z)
| encryptionStatusChanged (newEncryptionStatus : EncryptionStatus)
| notifyWatchonlyChanged (fHaveWatchonly : bool)
| requireUnlock
| TransactionTableModel_updateConfirmations
| TransactionTableModel_updateTransaction (hash : string) (st : Z).

(** [COutPoint] and [COutput]; a [uint256] hash is a number, and the
    transaction pointer of a [COutput] is the key of the [mapWallet] entry it
    points to. *)
Record COutPoint : Type := mkOutPoint {
  outpoint_hash : N;
  outpoint_n : Z
}.

Record COutput : Type := mkOutput {
  output_tx : N;
  output_i : Z;
  output_nDepth : Z;
  output_fSpendable : bool
}.

Global Instance COutput_eq_dec : EqDecision COutput.
Proof. solve_decision. Defined.

(** What [listCoins] reads of a wallet transaction: the previous outpoints
    of its inputs and its outputs. *)
Record WalletTx : Type := mkTx {
  tx_vin : list COutPoint;
  tx_vout : list Output
}.

(** [WalletModel::UnlockContext]. *)
Record UnlockContext : Type := mkUnlockContext {
  valid : bool;
  relock : bool
}.

(** ** External collaborators *)

(** What these functions call in the wallet and the key store, and the
    slot the user interface connects to [requireUnlock()], which may unlock
    the wallet and may write the global [fWalletUnlockStakingOnly]: it takes
    the wallet and the value of the global and gives them back as it leaves
    them.  A passphrase ([SecureString]) is a string.
    [AvailableCoinsOutputs] is [AvailableCoins] again, this time with the
    outputs themselves; [IsMine_txin] takes the previous outpoint of the
    input; [ExtractDestination] is [Some] when it returns [true];
    [CBitcoinAddress_ToString d] is [CBitcoinAddress(d).ToString()]. *)
Class WalletView (W : Type) : Type := {
  GetUnlockedBalance : W -> Z;
  GetLockedBalance : W -> Z;
  GetStakeAmount : W -> Z;
  GetUnconfirmedBalance : W -> Z;
  GetImmatureBalance : W -> Z;
  GetWatchOnlyBalance : W -> Z;
  GetUnconfirmedWatchOnlyBalance : W -> Z;
  GetImmatureWatchOnlyBalance : W -> Z;
  mapWallet : W -> gmap N WalletTx;
  GetDepthInMainChain : W -> N -> Z;
  IsCrypted : W -> bool;
  IsLocked : W -> bool;
  Lock : W -> bool * W;
  Unlock : W -> string -> bool * W;
  EncryptWallet : W -> string -> bool * W;
  ChangeWalletPassphrase : W -> string -> string -> bool * W;
  requireUnlock_slot : W -> bool -> W * bool;
  (* coin listing *)
  AvailableCoinsOutputs : W -> list COutput;
  ListLockedCoins : W -> list COutPoint;
  IsChange : W -> Output -> bool;
  IsMine_txin : W -> COutPoint -> bool;
  IsMine_txout : W -> Output -> bool;
  ExtractDestination : CScript -> option CTxDestination;
  CBitcoinAddress_ToString : CTxDestination -> string;
  GetBoolArg : string -> bool
}.

Section ModelFunctions.

Context {W : Type} `{View : WalletView W}.

(** [WalletModel::getNumTransactions]: [mapWallet.size()] stored in an [int]. *)
Definition getNumTransactions (w : W) : Z :=
  let numTransactions := Int.wrap32 (Z.of_nat (size (mapWallet w))) in
  numTransactions.

(** [WalletModel::getEncryptionStatus] *)
Definition getEncryptionStatus (w : W) : EncryptionStatus :=
  if negb (IsCrypted w) then Unencrypted
  else if IsLocked w then Locked
  else Unlocked.

(** [WalletModel::updateStatus] *)
Definition updateStatus (w : W) (m : Model) : Model * list Signal :=
  let newEncryptionStatus := getEncryptionStatus w in
  if decide (cachedEncryptionStatus m <> newEncryptionStatus)
  then (m, [encryptionStatusChanged newEncryptionStatus])
  else (m, []).

(** [WalletModel::checkBalanceChanged] *)
Definition checkBalanceChanged (w : W) (m : Model) : Model * list Signal :=
  let newBalance := GetUnlockedBalance w in
  let newLockedBalance := GetLockedBalance w in
  let newStake := GetStakeAmount w in
  let newUnconfirmedBalance := GetUnconfirmedBalance w in
  let newImmatureBalance := GetImmatureBalance w in
  let newWatchOnlyBalance := if fHaveWatchOnly m then GetWatchOnlyBalance w else 0 in
  let newWatchUnconfBalance :=
    if fHaveWatchOnly m then GetUnconfirmedWatchOnlyBalance w else 0 in
  let newWatchImmatureBalance :=
    if fHaveWatchOnly m then GetImmatureWatchOnlyBalance w else 0 in
  if negb (cachedBalance m =? newBalance)
     || negb (cachedLockedBalance m =? newLockedBalance)
     || negb (cachedStake m =? newStake)
     || negb (cachedUnconfirmedBalance m =? newUnconfirmedBalance)
     || negb (cachedImmatureBalance m =? newImmatureBalance)
  then
    (mkModel (fHaveWatchOnly m) (addressTableModel m) (transactionTableModel m)
       newBalance (cachedLockedBalance m) newStake newUnconfirmedBalance
       newImmatureBalance (cachedNumTransactions m) (cachedEncryptionStatus m)
       (cachedNumBlocks m),
     [balanceChanged newBalance newLockedBalance newStake newUnconfirmedBalance
        newImmatureBalance newWatchOnlyBalance newWatchUnconfBalance
        newWatchImmatureBalance])
  else (m, []).

(** [WalletModel::pollBalanceChanged].  [lockMain] and [lockWallet] are the
    outcomes of the two [TRY_LOCK]s, [nBestHeight] the global it reads. *)
Definition pollBalanceChanged (lockMain lockWallet : bool) (nBestHeight : Z)
    (w : W) (m : Model) : Model * list Signal :=
  if negb lockMain then (m, [])
  else if negb lockWallet then (m, [])
  else if negb (nBestHeight =? cachedNumBlocks m) then
    let m1 :=
      mkModel (fHaveWatchOnly m) (addressTableModel m) (transactionTableModel m)
        (cachedBalance m) (cachedLockedBalance m) (cachedStake m)
        (cachedUnconfirmedBalance m) (cachedImmatureBalance m)
        (cachedNumTransactions m) (cachedEncryptionStatus m) nBestHeight in
    let '(m2, sigs) := checkBalanceChanged w m1 in
    if transactionTableModel m2
    then (m2, sigs ++ [TransactionTableModel_updateConfirmations])
    else (m2, sigs)
  else (m, []).

(** [WalletModel::updateTransaction] *)
Definition updateTransaction (hash : string) (st : Z) (w : W) (m : Model)
    : Model * list Signal :=
  let sigs0 :=
    if transactionTableModel m then [TransactionTableModel_updateTransaction hash st]
    else [] in
  let '(m1, sigs1) := checkBalanceChanged w m in
  let newNumTransactions := getNumTransactions w in
  if negb (cachedNumTransactions m1 =? newNumTransactions) then
    (mkModel (fHaveWatchOnly m1) (addressTableModel m1) (transactionTableModel m1)
       (cachedBalance m1) (cachedLockedBalance m1) (cachedStake m1)
       (cachedUnconfirmedBalance m1) (cachedImmatureBalance m1)
       newNumTransactions (cachedEncryptionStatus m1) (cachedNumBlocks m1),
     sigs0 ++ sigs1 ++ [numTransactionsChanged newNumTransactions])
  else (m1, sigs0 ++ sigs1).

(** [WalletModel::updateWatchOnlyFlag] *)
Definition updateWatchOnlyFlag (fHaveWatchonly : bool) (m : Model) : Model * list Signal :=
  (mkModel fHaveWatchonly (addressTableModel m) (transactionTableModel m)
     (cachedBalance m) (cachedLockedBalance m) (cachedStake m)
     (cachedUnconfirmedBalance m) (cachedImmatureBalance m)
     (cachedNumTransactions m) (cachedEncryptionStatus m) (cachedNumBlocks m),
   [notifyWatchonlyChanged fHaveWatchonly]).

(** [WalletModel::setWalletEncrypted] *)
Definition setWalletEncrypted (encrypted : bool) (passphrase : string) (w : W) : bool * W :=
  if encrypted then EncryptWallet w passphrase
  else (false, w).

(** [WalletModel::setWalletLocked] *)
Definition setWalletLocked (locked : bool) (passPhrase : string) (w : W) : bool * W :=
  if locked then Lock w
  else Unlock w passPhrase.

(** [WalletModel::changePassphrase] *)
Definition changePassphrase (oldPass newPass : string) (w : W) : bool * W :=
  let '(_, w1) := Lock w in
  let '(retval, w2) := ChangeWalletPassphrase w1 oldPass newPass in
  (retval, w2).

(** [WalletModel::requestUnlock]; [fWalletUnlockStakingOnly] is the value
    the global has on entry.  The function reads the global twice, before
    and after [emit requireUnlock()], and the slot may have written it in
    between.  The result is the context, the wallet state left, the value
    of the global left, and the signals emitted. *)
Definition requestUnlock (fWalletUnlockStakingOnly : bool) (w : W)
    : UnlockContext * W * bool * list Signal :=
  let was_locked := bool_decide (getEncryptionStatus w = Locked) in
  let '(was_locked, w) :=
    if negb was_locked && fWalletUnlockStakingOnly then
      let '(_, w1) := setWalletLocked true "" w in
      (bool_decide (getEncryptionStatus w1 = Locked), w1)
    else (was_locked, w) in
  let '(w, fWalletUnlockStakingOnly, sigs) :=
    if was_locked then
      let '(w1, f1) := requireUnlock_slot w fWalletUnlockStakingOnly in
      (w1, f1, [requireUnlock])
    else (w, fWalletUnlockStakingOnly, []) in
  let valid := negb (bool_decide (getEncryptionStatus w = Locked)) in
  (mkUnlockContext valid (was_locked && negb fWalletUnlockStakingOnly),
   w, fWalletUnlockStakingOnly, sigs).

(** The wallet as it is when [requestUnlock] decides whether to ask the
    user: locked by the function itself when it was not locked and the
    staking-only flag is on. *)
Definition walletAsked (fWalletUnlockStakingOnly : bool) (w : W) : W :=
  if negb (bool_decide (getEncryptionStatus w = Locked)) && fWalletUnlockStakingOnly
  then snd (setWalletLocked true "" w)
  else w.

(** [WalletModel::UnlockContext::~UnlockContext] *)
Definition UnlockContext_destroy (ctx : UnlockContext) (w : W) : W :=
  if valid ctx && relock ctx then snd (setWalletLocked true "" w)
  else w.

(** [WalletModel::getOutputs]: the loop over [vOutpoints], appending to
    [vOutputs]. *)
Fixpoint getOutputs (w : W) (vOutpoints : list COutPoint) (vOutputs : list COutput)
    : list COutput :=
  match vOutpoints with
  | [] => vOutputs
  | outpoint :: rest =>
      match mapWallet w !! outpoint_hash outpoint with
      | None => getOutputs w rest vOutputs
      | Some _ =>
          let nDepth := GetDepthInMainChain w (outpoint_hash outpoint) in
          if nDepth <? 0 then getOutputs w rest vOutputs
          else
            let out :=
              mkOutput (outpoint_hash outpoint) (Int.wrap32 (outpoint_n outpoint))
                nDepth true in
            getOutputs w rest (vOutputs ++ [out])
      end
  end.

(** *** [WalletModel::listCoins] *)

(** [cout.tx->vout[cout.i]]: [None] where the C++ expression has no
    defined value (no such transaction, or an index outside the vector). *)
Definition txoutAt (w : W) (cout : COutput) : option Output :=
  match mapWallet w !! output_tx cout with
  | None => None
  | Some tx =>
      if output_i cout <? 0 then None
      else tx_vout tx !! Z.to_nat (output_i cout)
  end.

(** Where the [while] loop of [listCoins] leaves [cout]. *)
Inductive Walked : Type :=
| WalkTo (cout : COutput)
| WalkUndefined
| WalkOutOfFuel.

(** The [while] loop: from a change output up to the output that funded
    it, as long as that one is in the wallet.  One unit of fuel per test of
    the loop condition. *)
Fixpoint walkChange (fuel : nat) (w : W) (cout : COutput) : Walked :=
  match fuel with
  | O => WalkOutOfFuel
  | S fuel' =>
      match mapWallet w !! output_tx cout, txoutAt w cout with
      | Some tx, Some txout =>
          if IsChange w txout then
            match tx_vin tx with
            | [] => WalkTo cout
            | txin :: _ =>
                if IsMine_txin w txin then
                  match mapWallet w !! outpoint_hash txin with
                  | None => WalkTo cout
                  | Some _ =>
                      walkChange fuel' w
                        (mkOutput (outpoint_hash txin) (Int.wrap32 (outpoint_n txin)) 0 true)
                  end
                else WalkTo cout
            end
          else WalkTo cout
      | _, _ => WalkUndefined
      end
  end.

(** What the loop body does with one coin. *)
Inductive Grouping : Type :=
| GroupUnder (key : string)
| GroupSkipped
| GroupUndefined
| GroupOutOfFuel.

Global Instance Grouping_eq_dec : EqDecision Grouping.
Proof. solve_decision. Defined.

Definition coinGroup (fuel : nat) (w : W) (out : COutput) : Grouping :=
  match walkChange fuel w out with
  | WalkTo cout =>
      if negb (output_fSpendable out) then GroupSkipped
      else
        match txoutAt w cout with
        | None => GroupUndefined
        | Some txout =>
            match ExtractDestination (fst txout) with
            | None => GroupSkipped
            | Some address => GroupUnder (CBitcoinAddress_ToString address)
            end
        end
  | WalkUndefined => GroupUndefined
  | WalkOutOfFuel => GroupOutOfFuel
  end.

(** The block that would add the locked coins to [vCoins]. *)
Fixpoint addLockedCoins (w : W) (vLockedCoins : list COutPoint) (vCoins : list COutput)
    : list COutput :=
  match vLockedCoins with
  | [] => vCoins
  | outpoint :: rest =>
      match mapWallet w !! outpoint_hash outpoint with
      | None => addLockedCoins w rest vCoins
      | Some tx =>
          let nDepth := GetDepthInMainChain w (outpoint_hash outpoint) in
          if nDepth <? 0 then addLockedCoins w rest vCoins
          else
            let out :=
              mkOutput (outpoint_hash outpoint) (Int.wrap32 (outpoint_n outpoint))
                nDepth true in
            match tx_vout tx !! Z.to_nat (outpoint_n outpoint) with
            | Some txout =>
                if IsMine_txout w txout then addLockedCoins w rest (vCoins ++ [out])
                else addLockedCoins w rest vCoins
            | None => addLockedCoins w rest vCoins
            end
      end
  end.

Inductive Listed : Type :=
| Listing (mapCoins : gmap string (list COutput))
| ListUndefined
| ListOutOfFuel.

(** The loop over [vCoins]; [mapCoins[key].push_back(out)] makes the entry
    when there is none. *)
Fixpoint groupCoins (fuel : nat) (w : W) (vCoins : list COutput)
    (mapCoins : gmap string (list COutput)) : Listed :=
  match vCoins with
  | [] => Listing mapCoins
  | out :: rest =>
      match coinGroup fuel w out with
      | GroupUnder key =>
          groupCoins fuel w rest (<[ key := default [] (mapCoins !! key) ++ [out] ]> mapCoins)
      | GroupSkipped => groupCoins fuel w rest mapCoins
      | GroupUndefined => ListUndefined
      | GroupOutOfFuel => ListOutOfFuel
      end
  end.

(** [listCoins].  The condition of its first [if] is the comma expression
    [GetBoolArg("-controllockedcoins"), false], whose value is that of its
    right operand. *)
Definition listCoins (fuel : nat) (w : W) (mapCoins : gmap string (list COutput)) : Listed :=
  let vCoins := AvailableCoinsOutputs w in
  let vCoins :=
    if (let _ := GetBoolArg "-controllockedcoins" in false)
    then addLockedCoins w (ListLockedCoins w) vCoins
    else vCoins in
  groupCoins fuel w vCoins mapCoins.

End ModelFunctions.

(** ** Histories of calls on the model object *)

(** A call of one of the slots that write the caches, with the wallet
    state (and, for a poll, the lock outcomes and block height) it meets. *)
Inductive ModelCall (W : Type) : Type :=
| CallCheckBalanceChanged (w : W)
| CallPollBalanceChanged (lockMain lockWallet : bool) (nBestHeight : Z) (w : W)
| CallUpdateTransaction (hash : string) (st : Z) (w : W)
| CallUpdateStatus (w : W)
| CallUpdateWatchOnlyFlag (fHaveWatchonly : bool).
Arguments CallCheckBalanceChanged {W} _.
Arguments CallPollBalanceChanged {W} _ _ _ _.
Arguments CallUpdateTransaction {W} _ _ _.
Arguments CallUpdateStatus {W} _.
Arguments CallUpdateWatchOnlyFlag {W} _.

Definition runCall {W} `{WalletView W} (c : ModelCall W) (m : Model) : Model * list Signal :=
  match c with
  | CallCheckBalanceChanged w => checkBalanceChanged w m
  | CallPollBalanceChanged lockMain lockWallet nBestHeight w =>
      pollBalanceChanged lockMain lockWallet nBestHeight w m
  | CallUpdateTransaction hash st w => updateTransaction hash st w m
  | CallUpdateStatus w => updateStatus w m
  | CallUpdateWatchOnlyFlag b => updateWatchOnlyFlag b m
  end.

(** The calls in order; the signals of all of them, in order. *)
Fixpoint runCalls {W} `{WalletView W} (cs : list (ModelCall W)) (m : Model)
    : Model * list Signal :=
  match cs with
  | [] => (m, [])
  | c :: rest =>
      let '(m1, sigs1) := runCall c m in
      let '(m2, sigs2) := runCalls rest m1 in
      (m2, sigs1 ++ sigs2)
  end.

(** ** Vocabulary for traces and outputs *)

(** Calls made on the wallet and the user inside the critical section. *)
Definition underLock (e : Event) : bool :=
  match e with
  | EvCreateTransaction _ | EvAskFee _ | EvCommitTransaction _ => true
  | _ => false
  end.

(** The events of the address-book loop. *)
Definition bookEvent (e : Event) : bool :=
  match e with
  | EvLockWallet | EvUnlockWallet
  | EvUpdateStealthAddress _ _ | EvSetAddressBookName _ _ => true
  | _ => false
  end.

(** The exact sum of the values of a list of outputs, and of the amounts
    of a list of recipients. *)
Definition sumValues (v : list Output) : Z :=
  fold_right (fun o acc => snd o + acc) 0 v.

Definition sumAmounts (recipients : list SendCoinsRecipient) : Z :=
  fold_right (fun rcp acc => amount rcp + acc) 0 recipients.

(** ** Vocabulary for the coin listing *)

(** The output a [COutput] names exists. *)
Definition wfCoin {W} `{WalletView W} (w : W) (cout : COutput) : Prop :=
  is_Some (txoutAt w cout).

(** Every first input of a wallet transaction that spends a wallet
    transaction names an output of it, and [rank] decreases from a
    transaction to the one its first input spends (as block height and
    position do in a chain). *)
Definition wfWallet {W} `{WalletView W} (w : W) (rank : N -> nat) : Prop :=
  forall h tx txin rest,
    mapWallet w !! h = Some tx ->
    tx_vin tx = txin :: rest ->
    is_Some (mapWallet w !! outpoint_hash txin) ->
    wfCoin w (mkOutput (outpoint_hash txin) (Int.wrap32 (outpoint_n txin)) 0 true)
    /\ (rank (outpoint_hash txin) < rank h)%nat.

(** ** Concrete instances for the model object *)

Module DemoStrict.

(** The wallet of [Demo] with a user who approves a fee of at most 10, and
    a [CommitTransaction] that fails in a wallet whose [changeAt] is 7. *)
Definition ext : Externals Demo.Wallet unit := {|
  IsStealthAddress := @IsStealthAddress _ _ Demo.ext;
  CBitcoinAddress_IsValid := @CBitcoinAddress_IsValid _ _ Demo.ext;
  CBitcoinAddress_Get := @CBitcoinAddress_Get _ _ Demo.ext;
  CBitcoinAddress_KeyID_Get := @CBitcoinAddress_KeyID_Get _ _ Demo.ext;
  SetEncoded := @SetEncoded _ _ Demo.ext;
  GenerateRandomSecret := @GenerateRandomSecret _ _ Demo.ext;
  StealthSecret := @StealthSecret _ _ Demo.ext;
  CPubKey_IsValid := @CPubKey_IsValid _ _ Demo.ext;
  CPubKey_GetID := @CPubKey_GetID _ _ Demo.ext;
  SecretToPublicKey := @SecretToPublicKey _ _ Demo.ext;
  SetDestination := @SetDestination _ _ Demo.ext;
  SecMsgCrypter_Encrypt := @SecMsgCrypter_Encrypt _ _ Demo.ext;
  nTransactionFee := 10;
  AT_Stealth := 2;
  AvailableCoins := @AvailableCoins _ _ Demo.ext;
  CreateTransaction := @CreateTransaction _ _ Demo.ext;
  CReserveKey_ReturnKey := @CReserveKey_ReturnKey _ _ Demo.ext;
  CommitTransaction w wtx :=
    if (Demo.changeAt w =? 7)%nat then (false, w) else Demo.commitTransaction w wtx;
  GetHashHex := @GetHashHex _ _ Demo.ext;
  UpdateStealthAddress := @UpdateStealthAddress _ _ Demo.ext;
  mapAddressBook_find := @mapAddressBook_find _ _ Demo.ext;
  SetAddressBookName := @SetAddressBookName _ _ Demo.ext;
  ThreadSafeAskFee f := f <=? 10
|}.

End DemoStrict.

Module DemoView.

(** A key store with a passphrase, the figures the wallet reports, its
    transactions, and the coins [AvailableCoins] and [ListLockedCoins] give. *)
Record Wallet : Type := mkWallet {
  crypted : bool;
  locked : bool;
  pass : string;
  unlockedBalance : Z;
  lockedBalance : Z;
  stakeAmount : Z;
  unconfirmed : Z;
  immature : Z;
  watchOnly : Z;
  txs : list (N * WalletTx);
  avail : list COutput;
  lockedCoins : list COutPoint
}.

Definition setLocked (b : bool) (w : Wallet) : Wallet :=
  mkWallet (crypted w) b (pass w) (unlockedBalance w) (lockedBalance w) (stakeAmount w)
    (unconfirmed w) (immature w) (watchOnly w) (txs w) (avail w) (lockedCoins w).

Definition unlock (w : Wallet) (p : string) : bool * Wallet :=
  if crypted w && String.eqb p (pass w) then (true, setLocked false w) else (false, w).

(** The change script, and a script that pays to the key named in it. *)
Definition changeScript : CScript := [OP_CODE Byte.x51].

(** The dialog behind [requireUnlock()] is answered with the passphrase
    [secret] and with the staking-only box cleared. *)
#[global] Instance view : WalletView Wallet := {|
  GetUnlockedBalance := unlockedBalance;
  GetLockedBalance := lockedBalance;
  GetStakeAmount := stakeAmount;
  GetUnconfirmedBalance := unconfirmed;
  GetImmatureBalance := immature;
  GetWatchOnlyBalance := watchOnly;
  GetUnconfirmedWatchOnlyBalance w := 0;
  GetImmatureWatchOnlyBalance w := 0;
  mapWallet w := list_to_map (txs w);
  GetDepthInMainChain w h := if (h =? 9)%N then -1 else Z.of_N h;
  IsCrypted := crypted;
  IsLocked := locked;
  Lock w := if crypted w then (true, setLocked true w) else (false, w);
  Unlock := unlock;
  EncryptWallet w p :=
    if crypted w then (false, w)
    else (true, mkWallet true true p (unlockedBalance w) (lockedBalance w) (stakeAmount w)
                  (unconfirmed w) (immature w) (watchOnly w) (txs w) (avail w)
                  (lockedCoins w));
  ChangeWalletPassphrase w old new :=
    if crypted w && String.eqb old (pass w)
    then (true, mkWallet true (locked w) new (unlockedBalance w) (lockedBalance w)
                  (stakeAmount w) (unconfirmed w) (immature w) (watchOnly w) (txs w)
                  (avail w) (lockedCoins w))
    else (false, w);
  requireUnlock_slot w f := (snd (unlock w "secret"), false);
  AvailableCoinsOutputs := avail;
  ListLockedCoins := lockedCoins;
  IsChange w txout := bool_decide (fst txout = changeScript);
  IsMine_txin w txin := true;
  IsMine_txout w txout := true;
  ExtractDestination script :=
    match script with
    | [PUSH id] => Some (DestKeyID id)
    | _ => None
    end;
  CBitcoinAddress_ToString d :=
    match d with
    | DestKeyID id => string_of_list_byte id
    | _ => ""
    end;
  GetBoolArg arg := true
|}.

(** Transaction 1 pays 50 to [A]; transaction 2 spends it, pays 30 to [B]
    and keeps 20 as change; transaction 3 pays 70 to [C]; transaction 9 is
    in conflict (negative depth). *)
Definition payTo (a : string) (v : Z) : Output := ([PUSH (list_byte_of_string a)], v).

Definition txs0 : list (N * WalletTx) :=
  [(1%N, mkTx [] [payTo "A" 50]);
   (2%N, mkTx [mkOutPoint 1 0] [payTo "B" 30; (changeScript, 20)]);
   (3%N, mkTx [] [payTo "C" 70]);
   (9%N, mkTx [] [payTo "D" 5])].

Definition coinChange : COutput := mkOutput 2 1 2 true.
Definition coinC : COutput := mkOutput 3 0 3 true.
Definition coinB : COutput := mkOutput 2 0 2 false.

Definition wallet0 (isCrypted isLocked : bool) : Wallet :=
  mkWallet isCrypted isLocked "secret" 100 20 5 7 3 11 txs0 [coinChange; coinC; coinB]
    [mkOutPoint 1 0].

Definition model0 : Model :=
  mkModel false true true 0 0 0 0 0 0 Unencrypted 0.

End DemoView.

(** Every key lies at an output that has a successor below [n]. *)
Definition keysBelow (n : Z) (m : list (Z * string)) : Prop :=
  Forall (fun it => 0 <= fst it /\ fst it + 1 < n) m.

(** * Properties *)

(** ** Fixed-width arithmetic *)

Lemma wrap32_id z : - 2 ^ 31 <= z < 2 ^ 31 -> Int.wrap32 z = z.
Proof.
  intros Hz. unfold Int.wrap32, Int.wrap.
  change (2 ^ (32 - 1)) with 2147483648 in *.
  change (2 ^ 31) with 2147483648 in *.
  change (2 ^ 32) with 4294967296.
  rewrite Z.mod_small; lia.
Qed.

Lemma to_unsigned32_id z : 0 <= z < 2 ^ 32 -> Int.to_unsigned32 z = z.
Proof. intros Hz. unfold Int.to_unsigned32. apply Z.mod_small. exact Hz. Qed.

(** ** The recipient set *)

Section Sets.

Lemma size_list_to_set_le (l : list string) :
  (size (list_to_set l : gset string) <= length l)%nat.
Proof.
  induction l as [|a l IH].
  - rewrite list_to_set_nil, size_empty. simpl. lia.
  - rewrite list_to_set_cons, size_union_alt, size_singleton. simpl.
    assert (size (list_to_set l ∖ {[a]} : gset string) <= size (list_to_set l : gset string))%nat
      by (apply subseteq_size; set_solver).
    lia.
Qed.

(** A [QSet] filled from a list is smaller than the list exactly when the
    list repeats an element. *)
Lemma size_list_to_set_dup (l : list string) :
  ¬ NoDup l -> (size (list_to_set l : gset string) < length l)%nat.
Proof.
  induction l as [|a l IH]; intros Hdup.
  - exfalso. apply Hdup. constructor.
  - rewrite list_to_set_cons. simpl. destruct (decide (a ∈ l)) as [Hin|Hnin].
    + assert (Heq : ({[a]} ∪ list_to_set l : gset string) = list_to_set l).
      { apply leibniz_equiv. apply subseteq_union_1.
        apply singleton_subseteq_l, elem_of_list_to_set. exact Hin. }
      rewrite Heq. pose proof (size_list_to_set_le l). lia.
    + assert (Hl : ¬ NoDup l).
      { intros Hnd. apply Hdup. apply NoDup_cons. split; assumption. }
      specialize (IH Hl).
      rewrite size_union_alt, size_singleton.
      assert (size (list_to_set l ∖ {[a]} : gset string) <= size (list_to_set l : gset string))%nat
        by (apply subseteq_size; set_solver).
      lia.
Qed.

End Sets.

(** ** Change insertion *)

Lemma lookup_after_middle {A} (l1 l2 : list A) (x y : A) :
  (l1 ++ x :: y :: l2) !! S (length l1) = Some y.
Proof.
  rewrite lookup_app_r by lia.
  replace (S (length l1) - length l1)%nat with 1%nat by lia. reflexivity.
Qed.

Lemma placeAt_lookup pos change (vecSend : list Output) (i : nat) :
  (i < length vecSend)%nat ->
  placeAt pos change vecSend !! (if (pos <=? i)%nat then S i else i) = vecSend !! i.
Proof.
  intros Hi. unfold placeAt.
  destruct (pos <=? i)%nat eqn:Hle.
  - apply Nat.leb_le in Hle.
    rewrite lookup_app_r; rewrite length_take_le by lia; [|lia].
    replace (S i - pos)%nat with (S (i - pos)) by lia.
    rewrite lookup_cons_ne_0 by lia. cbn [pred]. rewrite lookup_drop. f_equal. lia.
  - apply Nat.leb_gt in Hle.
    rewrite lookup_app_l by (rewrite length_take; lia).
    apply lookup_take_lt. lia.
Qed.

Lemma changeSlot_le (vecSend : list Output) pos : (changeSlot vecSend pos <= pos)%nat.
Proof.
  induction pos as [|pos IH]; [reflexivity|]. cbn [changeSlot].
  destruct (vecSend !! S pos) as [[script nValue]|]; [|lia].
  destruct (nValue =? 0); lia.
Qed.

(** The slot is never the place of a zero-value output that has an output
    before it. *)
Lemma changeSlot_carrier (vecSend : list Output) pos i script :
  vecSend !! S i = Some (script, 0) -> changeSlot vecSend pos <> S i.
Proof.
  intros Hc. induction pos as [|pos IH]; [discriminate|]. cbn [changeSlot].
  destruct (vecSend !! S pos) as [[script' nValue]|] eqn:Hl.
  - destruct (nValue =? 0) eqn:Hz; [exact IH|].
    intros [= ->]. rewrite Hc in Hl. injection Hl as _ <-. discriminate.
  - intros [= ->]. rewrite Hc in Hl. discriminate.
Qed.

Lemma changePosition_range nChosen (vecSend : list Output) :
  -1 <= changePosition nChosen vecSend <= Z.of_nat (length vecSend).
Proof.
  unfold changePosition. destruct (-1 <? nChosen); [|lia].
  pose proof (changeSlot_le vecSend (Nat.min (Z.to_nat nChosen) (length vecSend))). lia.
Qed.

Lemma changePosition_carrier nChosen (vecSend : list Output) i script :
  vecSend !! S i = Some (script, 0) ->
  changePosition nChosen vecSend <> Z.of_nat i + 1.
Proof.
  intros Hc. unfold changePosition. destruct (-1 <? nChosen); [|lia].
  pose proof (changeSlot_carrier vecSend (Nat.min (Z.to_nat nChosen) (length vecSend))
                i script Hc). lia.
Qed.

Lemma insertChange_lookup nChosen change (vecSend : list Output) (i : nat) :
  (i < length vecSend)%nat ->
  insertChange nChosen change vecSend !! finalIndex (changePosition nChosen vecSend) i
  = vecSend !! i.
Proof.
  intros Hi. unfold insertChange, finalIndex.
  destruct (-1 <? changePosition nChosen vecSend) eqn:Hc; [|reflexivity].
  apply Z.ltb_lt in Hc. cbn [andb].
  rewrite <- (placeAt_lookup (Z.to_nat (changePosition nChosen vecSend)) change vecSend i Hi).
  f_equal.
  destruct (changePosition nChosen vecSend <=? Z.of_nat i) eqn:H1;
    destruct (Z.to_nat (changePosition nChosen vecSend) <=? i)%nat eqn:H2; try reflexivity.
  - apply Z.leb_le in H1. apply Nat.leb_gt in H2. lia.
  - apply Z.leb_gt in H1. apply Nat.leb_le in H2. lia.
Qed.

Lemma finalIndex_succ nChangePos (i : nat) :
  nChangePos <> Z.of_nat i + 1 ->
  finalIndex nChangePos (S i) = S (finalIndex nChangePos i).
Proof.
  intros Hne. unfold finalIndex.
  destruct (-1 <? nChangePos); [|reflexivity]. cbn [andb].
  destruct (nChangePos <=? Z.of_nat i) eqn:H1;
    destruct (nChangePos <=? Z.of_nat (S i)) eqn:H2; try reflexivity.
  - apply Z.leb_le in H1. apply Z.leb_gt in H2. lia.
  - apply Z.leb_gt in H1. apply Z.leb_le in H2. lia.
Qed.

(** ** Narration records and their final keys *)

Lemma keysBelow_mono n n' m : n <= n' -> keysBelow n m -> keysBelow n' m.
Proof.
  intros Hle Hk. unfold keysBelow in *.
  eapply Forall_impl; [exact Hk|]. intros it [H0 H1]. cbn beta. lia.
Qed.

Lemma map_assign_above k x m :
  Forall (fun it => fst it < k) m -> map_assign k x m = m ++ [(k, x)].
Proof.
  induction 1 as [|[k' x'] m Hk _ IH]; [reflexivity|].
  simpl in *. destruct (k <? k') eqn:H1; [apply Z.ltb_lt in H1; lia|].
  destruct (k =? k') eqn:H2; [apply Z.eqb_eq in H2; lia|].
  rewrite IH. reflexivity.
Qed.

Lemma shiftPos_range nChangePos p :
  0 <= p < 2 ^ 31 - 1 ->
  Int.to_unsigned32 (shiftPos nChangePos p)
  = if (-1 <? nChangePos) && (nChangePos <=? p) then p + 1 else p.
Proof.
  intros Hp. unfold shiftPos.
  destruct ((-1 <? nChangePos) && (nChangePos <=? p)).
  - rewrite wrap32_id by lia. apply to_unsigned32_id. lia.
  - apply to_unsigned32_id. lia.
Qed.

Lemma narrKey_shiftPos_inj nChangePos p q :
  0 <= p < 2 ^ 31 - 1 -> 0 <= q < 2 ^ 31 - 1 ->
  narrKey (shiftPos nChangePos p) = narrKey (shiftPos nChangePos q) -> p = q.
Proof.
  intros Hp Hq. unfold narrKey. rewrite !shiftPos_range by assumption.
  intros Heq. injection Heq as Heq.
  change (String.app EmptyString ?x) with x in Heq.
  apply (inj (@pretty Z _)) in Heq.
  destruct (-1 <? nChangePos); cbn [andb] in Heq; [|exact Heq].
  destruct (nChangePos <=? p) eqn:H1; destruct (nChangePos <=? q) eqn:H2;
    try apply Z.leb_le in H1; try apply Z.leb_le in H2;
    try apply Z.leb_gt in H1; try apply Z.leb_gt in H2; lia.
Qed.

Lemma attachNarrations_cons nChangePos it m mv :
  attachNarrations nChangePos (it :: m) mv
  = attachNarrations nChangePos m (<[ narrKey (shiftPos nChangePos (fst it)) := snd it ]> mv).
Proof. reflexivity. Qed.

Lemma attachNarrations_other nChangePos m (mv : gmap string string) key :
  Forall (fun it => narrKey (shiftPos nChangePos (fst it)) <> key) m ->
  attachNarrations nChangePos m mv !! key = mv !! key.
Proof.
  intros Hall. revert mv. induction Hall as [|it m Hit _ IH]; intros mv; [reflexivity|].
  rewrite attachNarrations_cons, IH. apply lookup_insert_ne. exact Hit.
Qed.

Lemma attachNarrations_lookup nChangePos m (mv : gmap string string) p x :
  NoDup (map fst m) ->
  Forall (fun it => 0 <= fst it < 2 ^ 31 - 1) m ->
  In (p, x) m ->
  attachNarrations nChangePos m mv !! narrKey (shiftPos nChangePos p) = Some x.
Proof.
  intros Hnd Hrange. revert mv Hnd.
  induction Hrange as [|it m Hit Hrange IH]; intros mv Hnd Hin; [destruct Hin|].
  rewrite attachNarrations_cons.
  simpl in Hnd. apply NoDup_cons in Hnd as [Hfresh Hnd].
  destruct Hin as [->|Hin].
  - rewrite attachNarrations_other; [apply lookup_insert_eq|].
    apply Forall_forall. intros it' Hin' Heq.
    apply Hfresh. cbn [fst] in *.
    rewrite Forall_forall in Hrange.
    apply narrKey_shiftPos_inj in Heq; [|apply Hrange; exact Hin'|exact Hit].
    subst p. apply list_elem_of_In. apply in_map. apply list_elem_of_In. exact Hin'.
  - apply IH; assumption.
Qed.

Section Properties.

Context {W CC : Type} `{Ext : Externals W CC}.

(** ** The monad *)

Lemma bind_unfold {A B} (m : M W A) (f : A -> M W B) (s : St W) :
  (m ≫= f) s =
  match m s with
  | (Continue a, s') => f a s'
  | (Exit r, s') => (Exit r, s')
  end.
Proof. reflexivity. Qed.

Ltac run_monad := repeat (rewrite ?bind_unfold; simpl).

(** ** The validation loop *)

Lemma precheck_inl recipients setAddress total :
  Forall admissible recipients ->
  precheck recipients setAddress total
  = inl (list_to_set (map address recipients) ∪ setAddress,
         requestTotal recipients total).
Proof.
  intros Hall. revert setAddress total.
  induction Hall as [|rcp rest [Hv Ha] _ IH]; intros setAddress total; simpl.
  - f_equal. f_equal. apply leibniz_equiv. set_solver.
  - rewrite Hv. simpl.
    destruct (amount rcp <=? 0) eqn:Hle; [apply Z.leb_le in Hle; lia|].
    rewrite IH. f_equal. f_equal. apply leibniz_equiv. set_solver.
Qed.

Lemma precheck_inl_inv recipients setAddress total setAddress' total' :
  precheck recipients setAddress total = inl (setAddress', total') ->
  Forall admissible recipients
  /\ setAddress' = list_to_set (map address recipients) ∪ setAddress
  /\ total' = requestTotal recipients total.
Proof.
  revert setAddress total.
  induction recipients as [|rcp rest IH]; intros setAddress total; simpl.
  - intros [= <- <-]. split; [constructor|]. split; [|reflexivity].
    apply leibniz_equiv. set_solver.
  - destruct (validateAddress (address rcp)) eqn:Hv; simpl; [|discriminate].
    destruct (amount rcp <=? 0) eqn:Hle; [discriminate|].
    intros Hpre. apply IH in Hpre as (Hall & -> & ->).
    apply Z.leb_gt in Hle.
    split; [constructor; [split; assumption|assumption]|].
    split; [|reflexivity]. apply leibniz_equiv. set_solver.
Qed.

Lemma precheck_inr recipients setAddress total err :
  precheck recipients setAddress total = inr err ->
  err = InvalidAddress \/ err = InvalidAmount.
Proof.
  revert setAddress total.
  induction recipients as [|rcp rest IH]; intros setAddress total; simpl.
  - discriminate.
  - destruct (validateAddress (address rcp)); simpl.
    + destruct (amount rcp <=? 0).
      * intros [= <-]. right. reflexivity.
      * apply IH.
    + intros [= <-]. left. reflexivity.
Qed.

(** ** The output-building loop *)

Lemma buildStandard_run rcp v m s :
  buildStandard rcp (v, m) s =
  (if (0 <? String.length (narration rcp))%nat then
     if (24 <? String.length (narration rcp))%nat
     then Exit (SendCoinsReturn1 NarrationTooLong)
     else Continue (v ++ [payStandard rcp; (scriptN (narration rcp), 0)], m)
   else Continue (v ++ [payStandard rcp], m), s).
Proof.
  unfold buildStandard, payStandard.
  destruct (0 <? String.length (narration rcp))%nat; [|reflexivity].
  destruct (24 <? String.length (narration rcp))%nat; [reflexivity|].
  rewrite <- app_assoc. reflexivity.
Qed.

Lemma buildStealth_no_keys rcp sxAddr b s :
  deriveKeys sxAddr (draws s) = None ->
  buildStealth rcp sxAddr b s = (Exit (SendCoinsReturn1 Aborted), drawn s).
Proof.
  unfold deriveKeys, buildStealth, draw_secret. destruct b as [v m].
  rewrite !bind_unfold. simpl.
  destruct (GenerateRandomSecret (draws s)) as [e|]; [|reflexivity].
  destruct (StealthSecret e _ _) as [[sh pk]|]; [|reflexivity].
  destruct (CPubKey_IsValid pk); [|reflexivity]. simpl.
  destruct (SecretToPublicKey e); [discriminate|reflexivity].
Qed.

Lemma buildStealth_keys rcp sxAddr v m s sh pk ep :
  deriveKeys sxAddr (draws s) = Some (sh, pk, ep) ->
  buildStealth rcp sxAddr (v, m) s = (stealthOutcome rcp sh pk ep v m, drawn s).
Proof.
  unfold deriveKeys, buildStealth, draw_secret, stealthOutcome, payStealth.
  rewrite !bind_unfold. simpl.
  destruct (GenerateRandomSecret (draws s)) as [e|]; [|discriminate].
  destruct (StealthSecret e _ _) as [[sh' pk']|]; [|discriminate].
  destruct (CPubKey_IsValid pk'); [|discriminate]. simpl.
  destruct (SecretToPublicKey e) as [ep'|]; [|discriminate].
  intros [= -> -> ->].
  destruct (0 <? String.length (narration rcp))%nat.
  - destruct (24 <? String.length (narration rcp))%nat; [reflexivity|].
    destruct (SecMsgCrypter_Encrypt sh ep (narration rcp)) as [c|]; [|reflexivity].
    destruct (48 <? length c)%nat; [reflexivity|].
    unfold mret, M_ret. rewrite <- app_assoc. simpl.
    destruct (0 <? length c)%nat; reflexivity.
  - unfold mret, M_ret. rewrite <- app_assoc. reflexivity.
Qed.

Lemma buildRecipient_route rcp b :
  buildRecipient rcp b =
  match routeOf rcp with
  | Some sxAddr => buildStealth rcp sxAddr b
  | None => buildStandard rcp b
  end.
Proof.
  unfold buildRecipient, routeOf.
  destruct (typeInd rcp =? AT_Stealth); [|reflexivity].
  destruct (SetEncoded (address rcp)); reflexivity.
Qed.

Lemma buildRecipient_logged rcp b s evs :
  buildRecipient rcp b (logged s evs)
  = (fst (buildRecipient rcp b s), logged (snd (buildRecipient rcp b s)) evs).
Proof.
  rewrite buildRecipient_route. destruct b as [v m].
  destruct (routeOf rcp) as [sxAddr|].
  - destruct (deriveKeys sxAddr (draws s)) as [[[sh pk] ep]|] eqn:Hk.
    + rewrite (buildStealth_keys rcp sxAddr v m s sh pk ep Hk).
      rewrite (buildStealth_keys rcp sxAddr v m (logged s evs) sh pk ep Hk).
      reflexivity.
    + rewrite (buildStealth_no_keys rcp sxAddr (v, m) s Hk).
      rewrite (buildStealth_no_keys rcp sxAddr (v, m) (logged s evs) Hk).
      reflexivity.
  - rewrite !buildStandard_run. reflexivity.
Qed.

Lemma buildOutputs_logged recipients b s evs :
  buildOutputs recipients b (logged s evs)
  = (fst (buildOutputs recipients b s), logged (snd (buildOutputs recipients b s)) evs).
Proof.
  revert b s. induction recipients as [|rcp rest IH]; intros b s.
  - reflexivity.
  - simpl. rewrite !bind_unfold, buildRecipient_logged.
    destruct (buildRecipient rcp b s) as [[b'|r] s']; simpl.
    + apply IH.
    + reflexivity.
Qed.

Lemma buildRecipient_frame rcp b s :
  wallet (snd (buildRecipient rcp b s)) = wallet s
  /\ trace (snd (buildRecipient rcp b s)) = trace s.
Proof.
  rewrite buildRecipient_route. destruct b as [v m].
  destruct (routeOf rcp) as [sxAddr|].
  - destruct (deriveKeys sxAddr (draws s)) as [[[sh pk] ep]|] eqn:Hk.
    + rewrite (buildStealth_keys rcp sxAddr v m s sh pk ep Hk). split; reflexivity.
    + rewrite (buildStealth_no_keys rcp sxAddr (v, m) s Hk). split; reflexivity.
  - rewrite buildStandard_run. split; reflexivity.
Qed.

Lemma buildOutputs_frame recipients b s :
  wallet (snd (buildOutputs recipients b s)) = wallet s
  /\ trace (snd (buildOutputs recipients b s)) = trace s.
Proof.
  revert b s. induction recipients as [|rcp rest IH]; intros b s.
  - split; reflexivity.
  - simpl. rewrite bind_unfold.
    pose proof (buildRecipient_frame rcp b s) as [Hw Ht].
    destruct (buildRecipient rcp b s) as [[b'|r] s']; simpl in *.
    + destruct (IH b' s') as [Hw' Ht']. split; congruence.
    + split; assumption.
Qed.

(** The loop leaves by [return] only with [NarrationTooLong] or [Aborted]. *)
Lemma buildRecipient_exit rcp b s r s' :
  buildRecipient rcp b s = (Exit r, s') ->
  r = SendCoinsReturn1 NarrationTooLong \/ r = SendCoinsReturn1 Aborted.
Proof.
  rewrite buildRecipient_route. destruct b as [v m].
  destruct (routeOf rcp) as [sxAddr|].
  - destruct (deriveKeys sxAddr (draws s)) as [[[sh pk] ep]|] eqn:Hk.
    + rewrite (buildStealth_keys rcp sxAddr v m s sh pk ep Hk).
      unfold stealthOutcome.
      destruct (0 <? String.length (narration rcp))%nat; [|discriminate].
      destruct (24 <? String.length (narration rcp))%nat; [intros [= <- _]; auto|].
      destruct (SecMsgCrypter_Encrypt sh ep (narration rcp)) as [c|];
        [|intros [= <- _]; auto].
      destruct (48 <? length c)%nat; [intros [= <- _]; auto|discriminate].
    + rewrite (buildStealth_no_keys rcp sxAddr (v, m) s Hk). intros [= <- _]. auto.
  - rewrite buildStandard_run.
    destruct (0 <? String.length (narration rcp))%nat; [|discriminate].
    destruct (24 <? String.length (narration rcp))%nat; [intros [= <- _]; auto|discriminate].
Qed.

Lemma buildOutputs_exit recipients b s r s' :
  buildOutputs recipients b s = (Exit r, s') ->
  r = SendCoinsReturn1 NarrationTooLong \/ r = SendCoinsReturn1 Aborted.
Proof.
  revert b s. induction recipients as [|rcp rest IH]; intros b s.
  - discriminate.
  - simpl. rewrite bind_unfold.
    destruct (buildRecipient rcp b s) as [[b'|r0] s0] eqn:Hstep.
    + apply IH.
    + intros [= <- <-]. eapply buildRecipient_exit. exact Hstep.
Qed.

Lemma buildOutputs_app pre post b s :
  buildOutputs (pre ++ post) b s =
  match buildOutputs pre b s with
  | (Continue b', s') => buildOutputs post b' s'
  | (Exit r, s') => (Exit r, s')
  end.
Proof.
  revert b s. induction pre as [|rcp pre IH]; intros b s.
  - reflexivity.
  - simpl. rewrite !bind_unfold.
    destruct (buildRecipient rcp b s) as [[b'|r] s']; [apply IH|reflexivity].
Qed.

(** ** The critical section *)

Lemma logged_logged (s : St W) evs evs' : logged (logged s evs) evs' = logged s (evs ++ evs').
Proof. unfold logged. simpl. rewrite <- app_assoc. reflexivity. Qed.

Lemma emit_run (e : Event) (s : St W) : emit e s = (Continue tt, logged s [e]).
Proof. reflexivity. Qed.

(** What the scope of [keyChange] does, branch by branch. *)
Lemma createAndCommit_run coinControl total nBalance v m s :
  createAndCommit coinControl total nBalance (v, m) s =
  let cr := fst (CreateTransaction (wallet s) v coinControl) in
  let w1 := snd (CreateTransaction (wallet s) v coinControl) in
  let wtx := mkWalletTx (vout (wtxNew cr))
               (attachNarrations (nChangePos cr) m (mapValue (wtxNew cr))) in
  let w2 := snd (CommitTransaction w1 wtx) in
  if fCreated cr then
    if ThreadSafeAskFee (nFeeRequired cr) then
      if fst (CommitTransaction w1 wtx) then
        (Continue (GetHashHex wtx),
         mkSt (CReserveKey_ReturnKey w2) (draws s)
           (trace s ++ [EvCreateTransaction v; EvAskFee (nFeeRequired cr);
                        EvCommitTransaction wtx]))
      else
        (Exit (SendCoinsReturn1 TransactionCommitFailed),
         mkSt (CReserveKey_ReturnKey w2) (draws s)
           (trace s ++ [EvCreateTransaction v; EvAskFee (nFeeRequired cr);
                        EvCommitTransaction wtx]))
    else
      (Exit (SendCoinsReturn1 Aborted),
       mkSt (CReserveKey_ReturnKey w1) (draws s)
         (trace s ++ [EvCreateTransaction v; EvAskFee (nFeeRequired cr)]))
  else
    (Exit (if nBalance <? Int.add64 total (nFeeRequired cr)
           then SendCoinsReturn2 AmountWithFeeExceedsBalance (nFeeRequired cr)
           else SendCoinsReturn1 TransactionCreationFailed),
     mkSt (CReserveKey_ReturnKey w1) (draws s) (trace s ++ [EvCreateTransaction v])).
Proof.
  unfold createAndCommit, scoped. run_monad.
  destruct (CreateTransaction (wallet s) v coinControl) as [cr w1]. run_monad.
  destruct (fCreated cr); run_monad.
  - destruct (ThreadSafeAskFee (nFeeRequired cr)); run_monad.
    + destruct (CommitTransaction w1 _) as [ok w2]. run_monad.
      destruct ok; simpl; rewrite <- !app_assoc; reflexivity.
    + rewrite <- !app_assoc. reflexivity.
  - destruct (nBalance <? Int.add64 total (nFeeRequired cr)); reflexivity.
Qed.

Lemma lockedSection_run recipients coinControl total nBalance s :
  lockedSection recipients coinControl total nBalance s =
  match buildOutputs recipients ([], []) s with
  | (Continue b, s1) =>
      (fst (createAndCommit coinControl total nBalance b (logged s1 [EvLock2])),
       logged (snd (createAndCommit coinControl total nBalance b (logged s1 [EvLock2])))
         [EvUnlock2])
  | (Exit r, s1) => (Exit r, logged s1 [EvLock2; EvUnlock2])
  end.
Proof.
  unfold lockedSection, scoped. rewrite !bind_unfold, emit_run.
  rewrite bind_unfold, buildOutputs_logged.
  destruct (buildOutputs recipients ([], []) s) as [[b|r] s1]; simpl.
  - destruct (createAndCommit _ _ _ b _) as [o s2]. reflexivity.
  - rewrite <- app_assoc. reflexivity.
Qed.

Lemma updateAddressBook1_continue rcp s :
  fst (updateAddressBook1 rcp s) = Continue tt.
Proof.
  unfold updateAddressBook1, scoped. run_monad.
  destruct (typeInd rcp =? AT_Stealth); run_monad; [reflexivity|].
  destruct (mapAddressBook_find (wallet s) (CBitcoinAddress_Get (address rcp))) as [l|];
    run_monad; [|reflexivity].
  destruct (decide (l = label rcp)); reflexivity.
Qed.

Lemma updateAddressBook_continue recipients s :
  fst (updateAddressBook recipients s) = Continue tt.
Proof.
  revert s. induction recipients as [|rcp rest IH]; intros s.
  - reflexivity.
  - simpl. rewrite bind_unfold.
    pose proof (updateAddressBook1_continue rcp s) as H1.
    destruct (updateAddressBook1 rcp s) as [[[]|r] s1]; simpl in H1; [apply IH|discriminate].
Qed.

(** A request that passes the checks before the critical section. *)
Lemma sendCoins_reaches recipients coinControl s :
  reachesBuild recipients coinControl (wallet s) ->
  sendCoins recipients coinControl s =
  run (hex ← lockedSection recipients coinControl (requestTotal recipients 0)
               (sum_coins (AvailableCoins (wallet s) coinControl));
       _ ← updateAddressBook recipients;
       mret (mkSendCoinsReturn OK 0 hex))
      (logged s [EvAvailableCoins]).
Proof.
  intros (Hne & Hall & Hnd & Hb1 & Hb2).
  unfold sendCoins, sendCoinsM.
  destruct recipients as [|rcp rest]; [congruence|].
  rewrite (precheck_inl _ _ _ Hall).
  assert (Hu : (list_to_set (map address (rcp :: rest)) ∪ ∅ : gset string)
               = list_to_set (map address (rcp :: rest)))
    by (apply leibniz_equiv; set_solver).
  rewrite Hu, (size_list_to_set _ Hnd), length_map, Nat.ltb_irrefl.
  unfold run. rewrite !bind_unfold, emit_run. rewrite bind_unfold.
  cbn [get_wallet logged wallet].
  set (nBalance := sum_coins (AvailableCoins (wallet s) coinControl)) in *.
  set (total := requestTotal (rcp :: rest) 0) in *.
  destruct (nBalance <? total) eqn:H1; [apply Z.ltb_lt in H1; lia|].
  destruct (nBalance <? Int.add64 total nTransactionFee) eqn:H2;
    [apply Z.ltb_lt in H2; lia|].
  reflexivity.
Qed.

(** ... and leaves the output-building loop by [return]. *)
Lemma sendCoins_build_exit recipients coinControl s r s1 :
  reachesBuild recipients coinControl (wallet s) ->
  buildOutputs recipients ([], []) s = (Exit r, s1) ->
  sendCoins recipients coinControl s
  = (r, logged s1 [EvAvailableCoins; EvLock2; EvUnlock2]).
Proof.
  intros Hreach Hbuild. rewrite (sendCoins_reaches _ _ _ Hreach).
  unfold run. rewrite bind_unfold, lockedSection_run, buildOutputs_logged, Hbuild.
  simpl. rewrite logged_logged. reflexivity.
Qed.

(** ** Runs that reach the critical section *)

(** The address-book loop: it never leaves by [return], keeps the draw
    counter, and logs address-book events only. *)
Lemma updateAddressBook1_trace rcp s :
  exists w' book,
    updateAddressBook1 rcp s = (Continue tt, mkSt w' (draws s) (trace s ++ book))
    /\ Forall (fun e => bookEvent e = true) book.
Proof.
  unfold updateAddressBook1, scoped. run_monad.
  destruct (typeInd rcp =? AT_Stealth); run_monad.
  - eexists _, _. rewrite <- !app_assoc. split; [reflexivity|].
    repeat constructor.
  - destruct (mapAddressBook_find (wallet s) (CBitcoinAddress_Get (address rcp))) as [l|];
      run_monad.
    + destruct (decide (l = label rcp)); run_monad.
      * eexists _, _. rewrite <- !app_assoc. split; [reflexivity|]. repeat constructor.
      * eexists _, _. rewrite <- !app_assoc. split; [reflexivity|]. repeat constructor.
    + eexists _, _. rewrite <- !app_assoc. split; [reflexivity|]. repeat constructor.
Qed.

Lemma updateAddressBook_trace recipients s :
  exists w' book,
    updateAddressBook recipients s = (Continue tt, mkSt w' (draws s) (trace s ++ book))
    /\ Forall (fun e => bookEvent e = true) book.
Proof.
  revert s. induction recipients as [|rcp rest IH]; intros s.
  - exists (wallet s), []. rewrite app_nil_r. destruct s. split; [reflexivity|constructor].
  - cbn [updateAddressBook]. rewrite bind_unfold.
    destruct (updateAddressBook1_trace rcp s) as (w1 & book1 & -> & Hb1).
    destruct (IH (mkSt w1 (draws s) (trace s ++ book1))) as (w2 & book2 & -> & Hb2).
    cbn [draws trace]. exists w2, (book1 ++ book2). rewrite <- app_assoc.
    split; [reflexivity|]. apply Forall_app. split; assumption.
Qed.

(** The whole run of a request that passes the checks and whose outputs
    are built. *)
Lemma sendCoins_built recipients coinControl s v m s1 :
  reachesBuild recipients coinControl (wallet s) ->
  buildOutputs recipients ([], []) s = (Continue (v, m), s1) ->
  let cr := fst (CreateTransaction (wallet s) v coinControl) in
  let w1 := snd (CreateTransaction (wallet s) v coinControl) in
  let wtx := mkWalletTx (vout (wtxNew cr))
               (attachNarrations (nChangePos cr) m (mapValue (wtxNew cr))) in
  let w2 := snd (CommitTransaction w1 wtx) in
  let pre := trace s ++ [EvAvailableCoins; EvLock2; EvCreateTransaction v] in
  sendCoins recipients coinControl s =
  if fCreated cr then
    if ThreadSafeAskFee (nFeeRequired cr) then
      if fst (CommitTransaction w1 wtx) then
        (mkSendCoinsReturn OK 0 (GetHashHex wtx),
         snd (updateAddressBook recipients
                (mkSt (CReserveKey_ReturnKey w2) (draws s1)
                   (pre ++ [EvAskFee (nFeeRequired cr); EvCommitTransaction wtx;
                            EvUnlock2]))))
      else
        (SendCoinsReturn1 TransactionCommitFailed,
         mkSt (CReserveKey_ReturnKey w2) (draws s1)
           (pre ++ [EvAskFee (nFeeRequired cr); EvCommitTransaction wtx; EvUnlock2]))
    else
      (SendCoinsReturn1 Aborted,
       mkSt (CReserveKey_ReturnKey w1) (draws s1)
         (pre ++ [EvAskFee (nFeeRequired cr); EvUnlock2]))
  else
    (if sum_coins (AvailableCoins (wallet s) coinControl)
        <? Int.add64 (requestTotal recipients 0) (nFeeRequired cr)
     then SendCoinsReturn2 AmountWithFeeExceedsBalance (nFeeRequired cr)
     else SendCoinsReturn1 TransactionCreationFailed,
     mkSt (CReserveKey_ReturnKey w1) (draws s1) (pre ++ [EvUnlock2])).
Proof.
  intros Hreach Hbuild. cbv zeta.
  pose proof (buildOutputs_frame recipients ([], []) s) as [Hw Ht].
  rewrite Hbuild in Hw, Ht. cbn [snd] in Hw, Ht.
  rewrite (sendCoins_reaches _ _ _ Hreach).
  unfold run. rewrite bind_unfold, lockedSection_run, buildOutputs_logged, Hbuild.
  cbn [fst snd]. rewrite createAndCommit_run. cbv zeta.
  unfold logged. cbn [wallet draws trace]. rewrite Hw, Ht.
  destruct (fCreated _).
  - destruct (ThreadSafeAskFee _).
    + destruct (fst (CommitTransaction _ _)).
      * cbn [fst snd wallet draws trace]. rewrite bind_unfold.
        rewrite <- !app_assoc. cbn [app].
        match goal with |- context [updateAddressBook ?rs ?st] =>
          destruct (updateAddressBook_trace rs st) as (w' & book & Hab & _);
          rewrite Hab
        end.
        reflexivity.
      * cbn [fst snd wallet draws trace]. rewrite <- !app_assoc. reflexivity.
    + cbn [fst snd wallet draws trace]. rewrite <- !app_assoc. reflexivity.
  - cbn [fst snd wallet draws trace]. rewrite <- !app_assoc. reflexivity.
Qed.

(** ** Address validation *)

(** C8, as the code has it: a string longer than 75 characters is first
    read as a stealth address and, when that reading fails, still read as a
    standard address; a string of at most 75 characters is read as a standard
    address only.  The verdict is a boolean computed from the string alone. *)
Theorem validateAddress_by_length (address : string) :
  validateAddress address =
  if (75 <? String.length address)%nat
  then IsStealthAddress address || CBitcoinAddress_IsValid address
  else CBitcoinAddress_IsValid address.
Proof.
  unfold validateAddress.
  destruct (75 <? String.length address)%nat; [|reflexivity].
  destruct (IsStealthAddress address); reflexivity.
Qed.

(** ** Requests rejected before any wallet access *)

(** C9: the empty recipient list returns [OK] with fee 0 and no
    transaction id, and leaves the wallet, the randomness and the trace of
    calls as they were. *)
Theorem sendCoins_empty (coinControl : option CC) (s : St W) :
  sendCoins [] coinControl s = (mkSendCoinsReturn OK 0 "", s).
Proof. reflexivity. Qed.

(** C5: when every listed address validates and every amount is positive,
    a recipient list that repeats a destination address returns
    [DuplicateAddress]; the state returned is the state given, so no coin
    was listed or spent and no lock was taken. *)
Theorem sendCoins_duplicate (recipients : list SendCoinsRecipient)
    (coinControl : option CC) (s : St W) :
  Forall admissible recipients ->
  ¬ NoDup (map address recipients) ->
  sendCoins recipients coinControl s = (SendCoinsReturn1 DuplicateAddress, s).
Proof.
  intros Hall Hdup. unfold sendCoins, sendCoinsM, run.
  destruct recipients as [|rcp rest].
  - exfalso. apply Hdup. constructor.
  - rewrite (precheck_inl _ _ _ Hall).
    pose proof (size_list_to_set_dup _ Hdup) as Hsz.
    rewrite length_map in Hsz.
    assert (Hu : (list_to_set (map address (rcp :: rest)) ∪ ∅ : gset string)
                 = list_to_set (map address (rcp :: rest)))
      by (apply leibniz_equiv; set_solver).
    rewrite Hu.
    destruct (size _ <? length (rcp :: rest))%nat eqn:Hlt.
    + reflexivity.
    + apply Nat.ltb_ge in Hlt. lia.
Qed.

(** ** The two branches of the loop body *)

Lemma buildRecipient_standard rcp v m s :
  routeOf rcp = None ->
  buildRecipient rcp (v, m) s = buildStandard rcp (v, m) s.
Proof. intros Hr. rewrite buildRecipient_route, Hr. reflexivity. Qed.

Lemma routeOf_not_stealth rcp : typeInd rcp <> AT_Stealth -> routeOf rcp = None.
Proof.
  intros Hne. unfold routeOf.
  destruct (typeInd rcp =? AT_Stealth) eqn:He; [apply Z.eqb_eq in He; contradiction|].
  reflexivity.
Qed.


Lemma routeOf_stealth rcp sxAddr :
  typeInd rcp = AT_Stealth -> SetEncoded (address rcp) = Some sxAddr ->
  routeOf rcp = Some sxAddr.
Proof.
  intros Ht Hd. unfold routeOf. rewrite Ht, Z.eqb_refl. exact Hd.
Qed.

(** C2, as the code has it: for a recipient not marked stealth whose
    narration has between 1 and 24 raw bytes, the loop appends the payment
    output and, right after it, ONE zero-value output whose script is
    [OP_RETURN <"np"> OP_RETURN <narration bytes>]; the following recipients
    are built on top of these two outputs. *)
Theorem standard_narration_output pre rcp post v m s s1 :
  typeInd rcp <> AT_Stealth ->
  (0 < String.length (narration rcp) <= 24)%nat ->
  buildOutputs pre ([], []) s = (Continue (v, m), s1) ->
  buildOutputs (pre ++ rcp :: post) ([], []) s
  = buildOutputs post
      (v ++ [(SetDestination (CBitcoinAddress_Get (address rcp)), amount rcp);
             ([OP_RETURN; PUSH [Byte.x6e; Byte.x70];
               OP_RETURN; PUSH (list_byte_of_string (narration rcp))], 0)],
       m) s1.
Proof.
  intros Hty [Hpos Hle] Hpre.
  rewrite buildOutputs_app, Hpre. simpl. rewrite bind_unfold.
  rewrite (buildRecipient_standard _ _ _ _ (routeOf_not_stealth _ Hty)).
  rewrite buildStandard_run.
  destruct (0 <? String.length (narration rcp))%nat eqn:H0;
    [|apply Nat.ltb_ge in H0; lia].
  destruct (24 <? String.length (narration rcp))%nat eqn:H24;
    [apply Nat.ltb_lt in H24; lia|].
  reflexivity.
Qed.

(** The outputs already pushed stay where they are. *)
Lemma buildRecipient_extends rcp v m s v' m' s' :
  buildRecipient rcp (v, m) s = (Continue (v', m'), s') ->
  exists ext, v' = v ++ ext.
Proof.
  rewrite buildRecipient_route.
  destruct (routeOf rcp) as [sxAddr|].
  - destruct (deriveKeys sxAddr (draws s)) as [[[sh pk] ep]|] eqn:Hk.
    2:{ rewrite (buildStealth_no_keys _ _ _ _ Hk). discriminate. }
    rewrite (buildStealth_keys _ _ _ _ _ _ _ _ Hk). unfold stealthOutcome.
    repeat match goal with |- context [if ?c then _ else _] => destruct c end;
      try discriminate;
      try (destruct (SecMsgCrypter_Encrypt sh ep (narration rcp)) as [c|];
           [|discriminate];
           destruct (48 <? length c)%nat; [discriminate|]);
      intros [= <- _ _]; eexists; reflexivity.
  - rewrite buildStandard_run.
    repeat match goal with |- context [if ?c then _ else _] => destruct c end;
      try discriminate; intros [= <- _ _]; rewrite <- ?app_assoc; eexists; reflexivity.
Qed.

Lemma buildOutputs_extends recipients v m s v' m' s' :
  buildOutputs recipients (v, m) s = (Continue (v', m'), s') ->
  exists ext, v' = v ++ ext.
Proof.
  revert v m s. induction recipients as [|rcp rest IH]; intros v m s.
  - intros [= <- _ _]. exists []. rewrite app_nil_r. reflexivity.
  - simpl. rewrite bind_unfold.
    destruct (buildRecipient rcp (v, m) s) as [[[v1 m1]|r] s1] eqn:Hstep; [|discriminate].
    intros Hrest. apply IH in Hrest as [ext2 ->].
    apply buildRecipient_extends in Hstep as [ext1 ->].
    exists (ext1 ++ ext2). rewrite app_assoc. reflexivity.
Qed.

(** The list the loop has built is the one handed to [CreateTransaction],
    under the locks. *)
Lemma sendCoins_creates recipients coinControl s v m s1 :
  reachesBuild recipients coinControl (wallet s) ->
  buildOutputs recipients ([], []) s = (Continue (v, m), s1) ->
  exists t,
    trace (snd (sendCoins recipients coinControl s))
    = trace s ++ EvAvailableCoins :: EvLock2 :: EvCreateTransaction v :: t.
Proof.
  intros Hreach Hbuild.
  rewrite (sendCoins_built _ _ _ _ _ _ Hreach Hbuild). cbv zeta.
  destruct (fCreated _).
  - destruct (ThreadSafeAskFee _).
    + destruct (fst (CommitTransaction _ _)).
      * match goal with |- context [updateAddressBook ?rs ?st] =>
          destruct (updateAddressBook_trace rs st) as (w' & book & Hab & _);
          rewrite Hab
        end.
        cbn [snd trace]. rewrite <- !app_assoc. cbn [app]. eexists. reflexivity.
      * cbn [snd trace]. rewrite <- !app_assoc. cbn [app]. eexists. reflexivity.
    + cbn [snd trace]. rewrite <- !app_assoc. cbn [app]. eexists. reflexivity.
  - cbn [snd trace]. rewrite <- !app_assoc. cbn [app]. eexists. reflexivity.
Qed.



(** ** Effects of a rejected request, and the fee tests *)

Lemma createAndCommit_exit coinControl total nBalance b s r s' :
  createAndCommit coinControl total nBalance b s = (Exit r, s') ->
  status r = AmountWithFeeExceedsBalance \/ status r = TransactionCreationFailed
  \/ status r = Aborted \/ status r = TransactionCommitFailed.
Proof.
  destruct b as [v m]. rewrite createAndCommit_run. cbv zeta.
  destruct (fCreated _).
  - destruct (ThreadSafeAskFee _).
    + destruct (fst (CommitTransaction _ _)); [discriminate|].
      intros [= <- _]. auto.
    + intros [= <- _]. auto.
  - destruct (_ <? _); intros [= <- _]; auto.
Qed.

(** C1, as the code has it: [InvalidAddress], [InvalidAmount] and
    [DuplicateAddress] are returned with the state exactly as it was given,
    so before the coin listing and before any lock.  [NarrationTooLong] is
    returned from inside the critical section: the coins have been listed
    and the lock pair taken and released; the wallet state is as given. *)
Theorem input_errors_effects recipients coinControl s :
  let r := fst (sendCoins recipients coinControl s) in
  let s' := snd (sendCoins recipients coinControl s) in
  (status r = InvalidAddress \/ status r = InvalidAmount \/ status r = DuplicateAddress ->
   s' = s)
  /\ (status r = NarrationTooLong ->
      wallet s' = wallet s
      /\ trace s' = trace s ++ [EvAvailableCoins; EvLock2; EvUnlock2]).
Proof.
  cbv zeta. unfold sendCoins, sendCoinsM, run.
  destruct recipients as [|rcp rest]; [simpl; split; [reflexivity|discriminate]|].
  destruct (precheck (rcp :: rest) ∅ 0) as [[setAddress total]|err] eqn:Hpre.
  2:{ simpl. split; [reflexivity|].
      intros ->. apply precheck_inr in Hpre. destruct Hpre; discriminate. }
  destruct (size setAddress <? length (rcp :: rest))%nat;
    [simpl; split; [reflexivity|discriminate]|].
  rewrite !bind_unfold, emit_run. rewrite bind_unfold. cbn [get_wallet logged wallet].
  set (nBalance := sum_coins (AvailableCoins (wallet s) coinControl)).
  destruct (nBalance <? total);
    [simpl; split; [intros [H|[H|H]]; discriminate|discriminate]|].
  destruct (nBalance <? Int.add64 total nTransactionFee);
    [simpl; split; [intros [H|[H|H]]; discriminate|discriminate]|].
  rewrite bind_unfold, lockedSection_run, buildOutputs_logged.
  pose proof (buildOutputs_frame (rcp :: rest) ([], []) s) as [Hw Ht].
  destruct (buildOutputs (rcp :: rest) ([], []) s) as [[b|r] s1] eqn:Hbuild.
  - cbn [fst snd].
    destruct (createAndCommit coinControl total nBalance b _) as [[hex|r] s2] eqn:Hcc.
    + cbn [fst snd]. rewrite bind_unfold.
      pose proof (updateAddressBook_continue (rcp :: rest) (logged s2 [EvUnlock2])) as Hab.
      destruct (updateAddressBook (rcp :: rest) (logged s2 [EvUnlock2])) as [[[]|r] s3];
        [|discriminate].
      simpl. split; [intros [H|[H|H]]; discriminate|discriminate].
    + apply createAndCommit_exit in Hcc. cbn [fst snd].
      split; [intros [H|[H|H]]|intros H]; rewrite H in Hcc;
        destruct Hcc as [?|[?|[?|?]]]; discriminate.
  - cbn [fst snd] in *.
    apply buildOutputs_exit in Hbuild as [->| ->].
    + split; [intros [H|[H|H]]; discriminate|].
      intros _. rewrite logged_logged. simpl. rewrite Hw, Ht. split; reflexivity.
    + split; [intros [H|[H|H]]; discriminate|discriminate].
Qed.

(** C3, as the code has it: for a validated request, the two balance
    tests with the assumed fee [nTransactionFee] are made right after the coin
    listing, before the lock.  After construction the comparison with the
    computed fee is evaluated only when [CreateTransaction] reports failure,
    where it chooses between [AmountWithFeeExceedsBalance] carrying that fee
    and [TransactionCreationFailed], with nothing committed.  When
    [CreateTransaction] succeeds the status depends on the fee dialog and on
    [CommitTransaction] alone. *)
Theorem fee_checks recipients coinControl s :
  recipients <> [] ->
  Forall admissible recipients ->
  NoDup (map address recipients) ->
  let total := requestTotal recipients 0 in
  let nBalance := sum_coins (AvailableCoins (wallet s) coinControl) in
  (nBalance < total ->
   sendCoins recipients coinControl s
   = (SendCoinsReturn1 AmountExceedsBalance, logged s [EvAvailableCoins]))
  /\ (total <= nBalance -> nBalance < Int.add64 total nTransactionFee ->
      sendCoins recipients coinControl s
      = (SendCoinsReturn2 AmountWithFeeExceedsBalance nTransactionFee,
         logged s [EvAvailableCoins]))
  /\ (forall v m s1,
        total <= nBalance -> Int.add64 total nTransactionFee <= nBalance ->
        buildOutputs recipients ([], []) s = (Continue (v, m), s1) ->
        let cr := fst (CreateTransaction (wallet s) v coinControl) in
        let w1 := snd (CreateTransaction (wallet s) v coinControl) in
        let wtx := mkWalletTx (vout (wtxNew cr))
                     (attachNarrations (nChangePos cr) m (mapValue (wtxNew cr))) in
        (fCreated cr = false ->
         sendCoins recipients coinControl s
         = (if nBalance <? Int.add64 total (nFeeRequired cr)
            then SendCoinsReturn2 AmountWithFeeExceedsBalance (nFeeRequired cr)
            else SendCoinsReturn1 TransactionCreationFailed,
            mkSt (CReserveKey_ReturnKey w1) (draws s1)
              (trace s ++ [EvAvailableCoins; EvLock2; EvCreateTransaction v; EvUnlock2])))
        /\ (fCreated cr = true ->
            status (fst (sendCoins recipients coinControl s))
            = if ThreadSafeAskFee (nFeeRequired cr)
              then if fst (CommitTransaction w1 wtx) then OK else TransactionCommitFailed
              else Aborted)).
Proof.
  intros Hne Hall Hnd. cbv zeta.
  set (nBalance := sum_coins (AvailableCoins (wallet s) coinControl)).
  set (total := requestTotal recipients 0).
  assert (Hhead : sendCoinsM recipients coinControl s =
    (_ ← emit EvAvailableCoins;
     w ← get_wallet;
     let vCoins := AvailableCoins w coinControl in
     let nBalance := sum_coins vCoins in
     if nBalance <? total then exit (SendCoinsReturn1 AmountExceedsBalance)
     else if nBalance <? Int.add64 total nTransactionFee
     then exit (SendCoinsReturn2 AmountWithFeeExceedsBalance nTransactionFee)
     else
       hex ← lockedSection recipients coinControl total nBalance;
       _ ← updateAddressBook recipients;
       mret (mkSendCoinsReturn OK 0 hex)) s).
  { unfold sendCoinsM. destruct recipients as [|rcp rest]; [congruence|].
    rewrite (precheck_inl _ _ _ Hall).
    assert (Hu : (list_to_set (map address (rcp :: rest)) ∪ ∅ : gset string)
                 = list_to_set (map address (rcp :: rest)))
      by (apply leibniz_equiv; set_solver).
    rewrite Hu, (size_list_to_set _ Hnd), length_map, Nat.ltb_irrefl. reflexivity. }
  split; [|split].
  - intros Hlt. unfold sendCoins, run. rewrite Hhead.
    rewrite !bind_unfold, emit_run. rewrite bind_unfold. cbn [get_wallet logged wallet].
    fold nBalance. apply Z.ltb_lt in Hlt. rewrite Hlt. reflexivity.
  - intros Hle Hlt. unfold sendCoins, run. rewrite Hhead.
    rewrite !bind_unfold, emit_run. rewrite bind_unfold. cbn [get_wallet logged wallet].
    fold nBalance. apply Z.ltb_ge in Hle. apply Z.ltb_lt in Hlt. rewrite Hle, Hlt. reflexivity.
  - intros v m s1 Hle1 Hle2 Hbuild.
    assert (Hreach : reachesBuild recipients coinControl (wallet s))
      by (repeat split; assumption).
    pose proof (buildOutputs_frame recipients ([], []) s) as [Hw Ht].
    rewrite Hbuild in Hw, Ht. cbn [snd] in Hw, Ht.
    rewrite (sendCoins_reaches _ _ _ Hreach). fold nBalance total.
    unfold run. rewrite bind_unfold, lockedSection_run, buildOutputs_logged, Hbuild.
    cbn [fst snd]. rewrite createAndCommit_run. cbv zeta.
    cbn [logged wallet draws trace]. rewrite Hw, Ht.
    split.
    + intros Hf. rewrite Hf. unfold logged. cbn [fst snd wallet draws trace].
      rewrite <- !app_assoc. reflexivity.
    + intros Hf. rewrite Hf.
      destruct (ThreadSafeAskFee _); [|reflexivity].
      destruct (fst (CommitTransaction _ _)); [|reflexivity].
      cbn [fst snd]. rewrite bind_unfold.
      match goal with |- context [updateAddressBook ?rs ?st] =>
        pose proof (updateAddressBook_continue rs st) as Hab;
        destruct (updateAddressBook rs st) as [[[]|r] s3]; [|discriminate]
      end.
      reflexivity.
Qed.

(** ** Stealth outputs *)

(** C6: a stealth recipient that is processed successfully adds exactly
    two outputs: the payment output with the recipient's amount, paid to the
    derived one-time key, and right after it a zero-value output whose
    script starts [OP_RETURN <ephem_pubkey>].  The two are adjacent, at the
    recipient's place, in the list the loop ends with, which is the list
    handed to [CreateTransaction]; and they are adjacent in the outputs of
    the built transaction for every position chosen for the change
    output. *)
Theorem stealth_pair pre rcp post sxAddr coinControl s v m s1 v' m' s' :
  typeInd rcp = AT_Stealth ->
  SetEncoded (address rcp) = Some sxAddr ->
  buildOutputs pre ([], []) s = (Continue (v, m), s1) ->
  buildRecipient rcp (v, m) s1 = (Continue (v', m'), s') ->
  exists sh pk ep extra,
    let pay := (SetDestination (CBitcoinAddress_KeyID_Get (CPubKey_GetID pk)), amount rcp) in
    let carrier := (OP_RETURN :: PUSH ep :: extra, 0) in
    deriveKeys sxAddr (draws s1) = Some (sh, pk, ep)
    /\ v' = v ++ [pay; carrier]
    /\ buildOutputs (pre ++ rcp :: post) ([], []) s = buildOutputs post (v', m') s'
    /\ forall vfin mfin s2,
         buildOutputs post (v', m') s' = (Continue (vfin, mfin), s2) ->
         vfin !! length v = Some pay
         /\ vfin !! S (length v) = Some carrier
         /\ (reachesBuild (pre ++ rcp :: post) coinControl (wallet s) ->
             exists t,
               trace (snd (sendCoins (pre ++ rcp :: post) coinControl s))
               = trace s ++ EvAvailableCoins :: EvLock2 :: EvCreateTransaction vfin :: t)
         /\ forall nChosen change,
              let final := insertChange nChosen change vfin in
              let p := finalIndex (changePosition nChosen vfin) (length v) in
              final !! p = Some pay /\ final !! S p = Some carrier.
Proof.
  intros Hty Hdec Hpre Hstep. pose proof Hstep as Hout. revert Hout.
  rewrite buildRecipient_route, (routeOf_stealth _ _ Hty Hdec).
  destruct (deriveKeys sxAddr (draws s1)) as [[[sh pk] ep]|] eqn:Hk.
  2:{ rewrite (buildStealth_no_keys _ _ _ _ Hk). discriminate. }
  rewrite (buildStealth_keys rcp _ v m s1 _ _ _ Hk). unfold stealthOutcome, payStealth.
  intros Hout.
  assert (Hv : exists extra,
    v' = v ++ [(SetDestination (CBitcoinAddress_KeyID_Get (CPubKey_GetID pk)), amount rcp);
               (OP_RETURN :: PUSH ep :: extra, 0)]).
  { destruct (0 <? String.length (narration rcp))%nat.
    - destruct (24 <? String.length (narration rcp))%nat; [discriminate|].
      destruct (SecMsgCrypter_Encrypt sh ep (narration rcp)) as [c|]; [|discriminate].
      destruct (48 <? length c)%nat; [discriminate|].
      injection Hout as <- _ _. eexists. reflexivity.
    - injection Hout as <- _ _. exists []. reflexivity. }
  destruct Hv as [extra Hv].
  exists sh, pk, ep, extra. cbv zeta.
  split; [reflexivity|]. split; [exact Hv|].
  assert (Hloop : buildOutputs (pre ++ rcp :: post) ([], []) s
                  = buildOutputs post (v', m') s').
  { rewrite buildOutputs_app, Hpre. cbn [buildOutputs].
    rewrite bind_unfold, Hstep. reflexivity. }
  split; [exact Hloop|].
  intros vfin mfin s2 Hrest.
  assert (Hpay : vfin !! length v
                 = Some (SetDestination (CBitcoinAddress_KeyID_Get (CPubKey_GetID pk)),
                         amount rcp)).
  { apply buildOutputs_extends in Hrest as [ext ->]. rewrite Hv.
    rewrite <- app_assoc. apply list_lookup_middle. reflexivity. }
  assert (Hcar : vfin !! S (length v) = Some (OP_RETURN :: PUSH ep :: extra, 0)).
  { apply buildOutputs_extends in Hrest as [ext ->]. rewrite Hv.
    rewrite <- app_assoc. apply lookup_after_middle. }
  split; [exact Hpay|]. split; [exact Hcar|]. split.
  - intros Hreach. rewrite Hrest in Hloop.
    exact (sendCoins_creates _ _ _ _ _ _ Hreach Hloop).
  - intros nChosen change. cbv zeta.
    rewrite <- (finalIndex_succ _ _ (changePosition_carrier nChosen vfin _ _ Hcar)).
    rewrite !insertChange_lookup by (eapply lookup_lt_Some; eassumption).
    split; assumption.
Qed.

(** ** Records collected by the loop *)

(** One iteration keeps the records in order below the outputs. *)
Lemma buildRecipient_records rcp v m s v' m' s' :
  buildRecipient rcp (v, m) s = (Continue (v', m'), s') ->
  Z.of_nat (length v') <= 2 ^ 31 ->
  keysBelow (Z.of_nat (length v)) m -> NoDup (map fst m) ->
  keysBelow (Z.of_nat (length v')) m' /\ NoDup (map fst m')
  /\ (length v <= length v')%nat.
Proof.
  rewrite buildRecipient_route.
  destruct (routeOf rcp) as [sxAddr|].
  - destruct (deriveKeys sxAddr (draws s)) as [[[sh pk] ep]|] eqn:Hk.
    2:{ rewrite (buildStealth_no_keys _ _ _ _ Hk). discriminate. }
    rewrite (buildStealth_keys _ _ _ _ _ _ _ _ Hk). unfold stealthOutcome.
    destruct (0 <? String.length (narration rcp))%nat.
    + destruct (24 <? String.length (narration rcp))%nat; [discriminate|].
      destruct (SecMsgCrypter_Encrypt sh ep (narration rcp)) as [c|]; [|discriminate].
      destruct (48 <? length c)%nat; [discriminate|].
      intros [= <- <- _]. rewrite !length_app. cbn [length]. intros Hlen Hkeys Hnd.
      rewrite wrap32_id by lia.
      replace (Z.of_nat (length v + 1) - 1) with (Z.of_nat (length v)) by lia.
      rewrite map_assign_above
        by (eapply Forall_impl; [exact Hkeys|]; intros it [H0 H1]; cbn beta; lia).
      split; [|split; [|lia]].
      * apply Forall_app. split.
        -- apply (keysBelow_mono (Z.of_nat (length v))); [lia|exact Hkeys].
        -- constructor; [cbn [fst]; lia|constructor].
      * rewrite map_app. apply NoDup_app. split; [exact Hnd|]. split.
        -- intros k Hin Hk'. cbn in Hk'. apply list_elem_of_In in Hk'.
           destruct Hk' as [<-|[]].
           apply list_elem_of_In, in_map_iff in Hin as ([k' x'] & Heq & Hin).
           unfold keysBelow in Hkeys. rewrite Forall_forall in Hkeys.
           apply list_elem_of_In in Hin.
           specialize (Hkeys _ Hin). cbn [fst] in *. lia.
        -- cbn. apply NoDup_singleton.
    + intros [= <- <- _]. rewrite !length_app. cbn [length]. intros _ Hkeys Hnd.
      split; [|split; [exact Hnd|lia]].
      apply (keysBelow_mono (Z.of_nat (length v))); [lia|exact Hkeys].
  - rewrite buildStandard_run.
    destruct (0 <? String.length (narration rcp))%nat.
    + destruct (24 <? String.length (narration rcp))%nat; [discriminate|].
      intros [= <- <- _]. rewrite !length_app. cbn [length]. intros _ Hkeys Hnd.
      split; [|split; [exact Hnd|lia]].
      apply (keysBelow_mono (Z.of_nat (length v))); [lia|exact Hkeys].
    + intros [= <- <- _]. rewrite !length_app. cbn [length]. intros _ Hkeys Hnd.
      split; [|split; [exact Hnd|lia]].
      apply (keysBelow_mono (Z.of_nat (length v))); [lia|exact Hkeys].
Qed.

Lemma buildOutputs_grows recipients v m s v' m' s' :
  buildOutputs recipients (v, m) s = (Continue (v', m'), s') ->
  (length v <= length v')%nat.
Proof.
  revert v m s. induction recipients as [|rcp rest IH]; intros v m s.
  - intros [= <- _ _]. lia.
  - simpl. rewrite bind_unfold.
    destruct (buildRecipient rcp (v, m) s) as [[[v1 m1]|r] s1] eqn:Hstep; [|discriminate].
    intros Hrest. apply IH in Hrest.
    assert (length v <= length v1)%nat; [|lia].
    revert Hstep. rewrite buildRecipient_route.
    destruct (routeOf rcp) as [sxAddr|].
    + destruct (deriveKeys sxAddr (draws s)) as [[[sh pk] ep]|] eqn:Hk.
      2:{ rewrite (buildStealth_no_keys _ _ _ _ Hk). discriminate. }
      rewrite (buildStealth_keys _ _ _ _ _ _ _ _ Hk). unfold stealthOutcome.
      repeat match goal with |- context [if ?c then _ else _] => destruct c end;
        try discriminate;
        try (destruct (SecMsgCrypter_Encrypt sh ep (narration rcp)) as [c|];
             [|discriminate];
             destruct (48 <? length c)%nat; [discriminate|]);
        intros [= <- _ _]; rewrite length_app; lia.
    + rewrite buildStandard_run.
      repeat match goal with |- context [if ?c then _ else _] => destruct c end;
        try discriminate; intros [= <- _ _]; rewrite length_app; lia.
Qed.

Lemma buildOutputs_records recipients v m s v' m' s' :
  buildOutputs recipients (v, m) s = (Continue (v', m'), s') ->
  Z.of_nat (length v') <= 2 ^ 31 ->
  keysBelow (Z.of_nat (length v)) m -> NoDup (map fst m) ->
  keysBelow (Z.of_nat (length v')) m' /\ NoDup (map fst m').
Proof.
  revert v m s. induction recipients as [|rcp rest IH]; intros v m s.
  - intros [= <- <- _]. auto.
  - simpl. rewrite bind_unfold.
    destruct (buildRecipient rcp (v, m) s) as [[[v1 m1]|r] s1] eqn:Hstep; [|discriminate].
    intros Hrest Hlen Hkeys Hnd.
    pose proof (buildOutputs_grows _ _ _ _ _ _ _ Hrest) as Hgrow.
    apply (buildRecipient_records _ _ _ _ _ _ _ Hstep) in Hkeys as (Hkeys1 & Hnd1 & _);
      [|lia|exact Hnd].
    eapply IH; eassumption.
Qed.

(** The key of a collected record, for any change position and any map
    the narrations are attached to. *)
Lemma collected_record_key recipients s v m s' nChangePos
    (mv : gmap string string) p sNarr :
  buildOutputs recipients ([], []) s = (Continue (v, m), s') ->
  Z.of_nat (length v) <= 2 ^ 31 ->
  In (p, sNarr) m ->
  attachNarrations nChangePos m mv
    !! ("n_" +:+ pretty (if (-1 <? nChangePos) && (nChangePos <=? p) then p + 1 else p))
  = Some sNarr.
Proof.
  intros Hbuild Hlen Hin.
  destruct (buildOutputs_records _ _ _ _ _ _ _ Hbuild Hlen) as [Hkeys Hnd];
    [constructor|constructor|].
  assert (Hrange : Forall (fun it => 0 <= fst it < 2 ^ 31 - 1) m).
  { eapply Forall_impl; [exact Hkeys|]. intros it [H0 H1]. cbn beta. lia. }
  assert (Hp : 0 <= p < 2 ^ 31 - 1).
  { rewrite Forall_forall in Hrange. apply list_elem_of_In in Hin.
    apply (Hrange _ Hin). }
  rewrite <- (shiftPos_range nChangePos p Hp).
  apply attachNarrations_lookup; assumption.
Qed.

(** A key that is the final key of no collected record keeps its value. *)
Lemma uncollected_key recipients s v m s' nChangePos (mv : gmap string string) key :
  buildOutputs recipients ([], []) s = (Continue (v, m), s') ->
  Z.of_nat (length v) <= 2 ^ 31 ->
  (forall p sNarr,
     In (p, sNarr) m ->
     key <> "n_" +:+ pretty (if (-1 <? nChangePos) && (nChangePos <=? p) then p + 1 else p)) ->
  attachNarrations nChangePos m mv !! key = mv !! key.
Proof.
  intros Hbuild Hlen Hkey.
  destruct (buildOutputs_records _ _ _ _ _ _ _ Hbuild Hlen) as [Hkeys _];
    [constructor|constructor|].
  apply attachNarrations_other.
  apply Forall_forall. intros [p x] Hin Heq. cbn [fst] in Heq.
  apply list_elem_of_In in Hin.
  apply (Hkey p x Hin). rewrite <- Heq. unfold narrKey.
  rewrite shiftPos_range; [reflexivity|].
  unfold keysBelow in Hkeys. rewrite Forall_forall in Hkeys.
  apply list_elem_of_In in Hin. specialize (Hkeys _ Hin). cbn [fst] in Hkeys. lia.
Qed.

(** C4: in a request for which [CreateTransaction] succeeds and the fee is
    approved, the transaction handed to [CommitTransaction] has the outputs
    [CreateTransaction] chose, and its metadata holds every narration record
    [(p, sNarr)] the loop collected under the key [n_<q>], where [q = p + 1]
    when [CreateTransaction] reported a change output ([nChangePos > -1])
    and [p >= nChangePos], and [q = p] otherwise.  Nothing else is attached:
    under every other key the metadata is as [CreateTransaction] left it.
    (The output count is within the range of [int].) *)
Theorem narration_key_positions recipients coinControl s v m s1 :
  reachesBuild recipients coinControl (wallet s) ->
  buildOutputs recipients ([], []) s = (Continue (v, m), s1) ->
  Z.of_nat (length v) <= 2 ^ 31 ->
  let cr := fst (CreateTransaction (wallet s) v coinControl) in
  let final := fun p => if (-1 <? nChangePos cr) && (nChangePos cr <=? p) then p + 1 else p in
  fCreated cr = true ->
  ThreadSafeAskFee (nFeeRequired cr) = true ->
  exists wtx t,
    trace (snd (sendCoins recipients coinControl s))
    = trace s ++ [EvAvailableCoins; EvLock2; EvCreateTransaction v;
                  EvAskFee (nFeeRequired cr); EvCommitTransaction wtx; EvUnlock2] ++ t
    /\ Forall (fun e => bookEvent e = true) t
    /\ vout wtx = vout (wtxNew cr)
    /\ (forall p sNarr,
          In (p, sNarr) m -> mapValue wtx !! ("n_" +:+ pretty (final p)) = Some sNarr)
    /\ (forall key,
          (forall p sNarr, In (p, sNarr) m -> key <> "n_" +:+ pretty (final p)) ->
          mapValue wtx !! key = mapValue (wtxNew cr) !! key).
Proof.
  intros Hreach Hbuild Hlen. cbv zeta. intros Hc Hfee.
  exists (mkWalletTx (vout (wtxNew (fst (CreateTransaction (wallet s) v coinControl))))
            (attachNarrations (nChangePos (fst (CreateTransaction (wallet s) v coinControl)))
               m (mapValue (wtxNew (fst (CreateTransaction (wallet s) v coinControl)))))).
  assert (Htrace : exists t,
    trace (snd (sendCoins recipients coinControl s))
    = trace s ++ [EvAvailableCoins; EvLock2; EvCreateTransaction v;
                  EvAskFee (nFeeRequired (fst (CreateTransaction (wallet s) v coinControl)));
                  EvCommitTransaction
                    (mkWalletTx
                       (vout (wtxNew (fst (CreateTransaction (wallet s) v coinControl))))
                       (attachNarrations
                          (nChangePos (fst (CreateTransaction (wallet s) v coinControl)))
                          m
                          (mapValue
                             (wtxNew (fst (CreateTransaction (wallet s) v coinControl))))));
                  EvUnlock2] ++ t
    /\ Forall (fun e => bookEvent e = true) t).
  { rewrite (sendCoins_built _ _ _ _ _ _ Hreach Hbuild). cbv zeta.
    rewrite Hc, Hfee.
    destruct (fst (CommitTransaction _ _)).
    - match goal with |- context [updateAddressBook ?rs ?st] =>
        destruct (updateAddressBook_trace rs st) as (w' & book & Hab & Hbook);
        rewrite Hab
      end.
      exists book. cbn [snd trace]. rewrite <- !app_assoc. cbn [app].
      split; [reflexivity|exact Hbook].
    - exists []. cbn [snd trace]. rewrite <- !app_assoc. cbn [app].
      split; [reflexivity|constructor]. }
  destruct Htrace as (t & Ht & Hbook).
  exists t. split; [exact Ht|]. split; [exact Hbook|]. split; [reflexivity|].
  cbn [mapValue]. split.
  - intros p sNarr Hin. exact (collected_record_key _ _ _ _ _ _ _ _ _ Hbuild Hlen Hin).
  - intros key Hkey. exact (uncollected_key _ _ _ _ _ _ _ _ Hbuild Hlen Hkey).
Qed.

End Properties.

(** * The claims on the concrete wallet *)


(** The same for any position the wallet would choose for the change. *)
Lemma demo_reaches_at rcp at_ :
  validateAddress (Ext := Demo.ext) (address rcp) = true ->
  0 < amount rcp ->
  Int.add64 (Int.add64 0 (amount rcp)) 10 <= 1000 ->
  Int.add64 0 (amount rcp) <= 1000 ->
  reachesBuild [rcp] None (wallet (Demo.start [1000] [] at_)).
Proof.
  intros Hv Hp Hfee Htot. unfold reachesBuild.
  split; [discriminate|]. split; [repeat constructor; assumption|].
  split; [apply NoDup_singleton|]. split; [exact Htot|exact Hfee].
Qed.

(** Two admissible recipients with different addresses, within the
    balance of 1000. *)
Lemma demo_reaches2 rcp1 rcp2 at_ :
  validateAddress (Ext := Demo.ext) (address rcp1) = true ->
  validateAddress (Ext := Demo.ext) (address rcp2) = true ->
  0 < amount rcp1 -> 0 < amount rcp2 ->
  address rcp1 <> address rcp2 ->
  Int.add64 (Int.add64 (Int.add64 0 (amount rcp1)) (amount rcp2)) 10 <= 1000 ->
  Int.add64 (Int.add64 0 (amount rcp1)) (amount rcp2) <= 1000 ->
  reachesBuild [rcp1; rcp2] None (wallet (Demo.start [1000] [] at_)).
Proof.
  intros Hv1 Hv2 Hp1 Hp2 Hne Hfee Htot. unfold reachesBuild.
  split; [discriminate|]. split; [repeat constructor; assumption|].
  split; [|split; [exact Htot|exact Hfee]].
  cbn [map]. apply NoDup_cons. split; [|apply NoDup_singleton].
  intros Hin. apply list_elem_of_singleton in Hin. contradiction.
Qed.

(** C1 fails as stated: a standard recipient with a 25-byte narration is
    answered [NarrationTooLong] after the coins were listed and the locks
    taken. *)
Lemma narration_error_under_lock :
  sendCoins [Demo.standard Demo.addrA Demo.narr25 500] None (Demo.start [1000] [] 0)
  = (SendCoinsReturn1 NarrationTooLong,
     mkSt (Demo.wallet0 [1000] [] 0) 0 [EvAvailableCoins; EvLock2; EvUnlock2])
  /\ In EvLock2
       (trace (snd (sendCoins [Demo.standard Demo.addrA Demo.narr25 500] None
                      (Demo.start [1000] [] 0)))).
Proof. split; [vm_compute; reflexivity|]. vm_compute. right. left. reflexivity. Qed.

(** C1, the amended statement on that request. *)
Lemma input_errors_effects_witness :
  status (fst (sendCoins [Demo.standard Demo.addrA Demo.narr25 500] None
                 (Demo.start [1000] [] 0))) = NarrationTooLong
  /\ wallet (snd (sendCoins [Demo.standard Demo.addrA Demo.narr25 500] None
                    (Demo.start [1000] [] 0))) = Demo.wallet0 [1000] [] 0
  /\ trace (snd (sendCoins [Demo.standard Demo.addrA Demo.narr25 500] None
                   (Demo.start [1000] [] 0)))
     = [] ++ [EvAvailableCoins; EvLock2; EvUnlock2].
Proof.
  split; [vm_compute; reflexivity|].
  apply (proj2 (input_errors_effects
                  [Demo.standard Demo.addrA Demo.narr25 500] None (Demo.start [1000] [] 0))).
  vm_compute. reflexivity.
Defined.

(** C2 fails as stated: for a standard recipient with narration ["hi"]
    the list handed to [CreateTransaction] has the payment output and one
    narration output, not two. *)
Lemma one_narration_output :
  createdOutputs
    (trace (snd (sendCoins [Demo.standard Demo.addrA "hi" 500] None
                   (Demo.start [1000] [] 0))))
  = Some [(Demo.setDestination (DestKeyID (list_byte_of_string Demo.addrA)), 500);
          ([OP_RETURN; PUSH [Byte.x6e; Byte.x70]; OP_RETURN; PUSH [Byte.x68; Byte.x69]], 0)]
  /\ ~ (exists pay tag text,
          createdOutputs
            (trace (snd (sendCoins [Demo.standard Demo.addrA "hi" 500] None
                           (Demo.start [1000] [] 0))))
          = Some [pay; tag; text]).
Proof.
  assert (H : createdOutputs
    (trace (snd (sendCoins [Demo.standard Demo.addrA "hi" 500] None
                   (Demo.start [1000] [] 0))))
  = Some [(Demo.setDestination (DestKeyID (list_byte_of_string Demo.addrA)), 500);
          ([OP_RETURN; PUSH [Byte.x6e; Byte.x70]; OP_RETURN; PUSH [Byte.x68; Byte.x69]], 0)])
    by (vm_compute; reflexivity).
  split; [exact H|].
  intros (pay & tag & text & H'). rewrite H in H'. discriminate.
Qed.

(** C2, the amended statement on a second recipient with a narration. *)
Lemma standard_narration_output_witness :
  typeInd (Demo.standard Demo.addrB "hi" 100) <> AT_Stealth
  /\ (0 < String.length (narration (Demo.standard Demo.addrB "hi" 100)) <= 24)%nat
  /\ buildOutputs [Demo.standard Demo.addrA "" 500; Demo.standard Demo.addrB "hi" 100]
       ([], []) (Demo.start [1000] [] 0)
     = (Continue
          ([(Demo.setDestination (DestKeyID (list_byte_of_string Demo.addrA)), 500);
            (Demo.setDestination (DestKeyID (list_byte_of_string Demo.addrB)), 100);
            ([OP_RETURN; PUSH [Byte.x6e; Byte.x70]; OP_RETURN; PUSH [Byte.x68; Byte.x69]], 0)],
           []),
        Demo.start [1000] [] 0).
Proof.
  assert (H1 : typeInd (Demo.standard Demo.addrB "hi" 100) <> AT_Stealth)
    by (vm_compute; discriminate).
  assert (H2 : (0 < String.length (narration (Demo.standard Demo.addrB "hi" 100)) <= 24)%nat)
    by (vm_compute; lia).
  split; [exact H1|]. split; [exact H2|].
  refine (eq_trans
            (standard_narration_output
               [Demo.standard Demo.addrA "" 500] (Demo.standard Demo.addrB "hi" 100) []
               [(Demo.setDestination (DestKeyID (list_byte_of_string Demo.addrA)), 500)] []
               (Demo.start [1000] [] 0) (Demo.start [1000] [] 0) H1 H2 _) _);
    vm_compute; reflexivity.
Defined.

(** C3 fails as stated: coins worth 100 are listed, 85 are requested with
    an assumed fee of 10; more coins arrive before the critical section, the
    transaction is built with fee 20 and committed, although 85 + 20 exceeds
    the balance of 100 the function holds. *)
Lemma commit_without_recheck :
  sum_coins (AvailableCoins (Demo.wallet0 [100] [50] 1) None) = 100
  /\ requestTotal [Demo.standard Demo.addrA "x" 85] 0 = 85
  /\ Int.add64 85 (nTransactionFee (Externals := Demo.ext)) <= 100
  /\ status (fst (sendCoins [Demo.standard Demo.addrA "x" 85] None
                    (Demo.start [100] [50] 1))) = OK
  /\ In (EvAskFee 20)
       (trace (snd (sendCoins [Demo.standard Demo.addrA "x" 85] None
                      (Demo.start [100] [50] 1))))
  /\ (exists wtx,
        In (EvCommitTransaction wtx)
          (trace (snd (sendCoins [Demo.standard Demo.addrA "x" 85] None
                         (Demo.start [100] [50] 1)))))
  /\ 100 < Int.add64 85 20.
Proof.
  split; [vm_compute; reflexivity|].
  split; [vm_compute; reflexivity|].
  split; [vm_compute; discriminate|].
  split; [vm_compute; reflexivity|].
  split; [vm_compute; do 3 right; left; reflexivity|].
  split; [|vm_compute; reflexivity].
  eexists. vm_compute. do 4 right. left. reflexivity.
Qed.

(** C3, the amended statement where construction fails for the fee. *)
Lemma fee_checks_witness :
  sendCoins [Demo.standard Demo.addrA "x" 85] None (Demo.start [100] [] 1)
  = (SendCoinsReturn2 AmountWithFeeExceedsBalance 20,
     mkSt (Demo.wallet0 [100] [] 1) 0
       [EvAvailableCoins; EvLock2;
        EvCreateTransaction
          [(Demo.setDestination (DestKeyID (list_byte_of_string Demo.addrA)), 85);
           ([OP_RETURN; PUSH [Byte.x6e; Byte.x70]; OP_RETURN; PUSH [Byte.x78]], 0)];
        EvUnlock2]).
Proof.
  assert (Hne : [Demo.standard Demo.addrA "x" 85] <> []) by discriminate.
  assert (Hall : Forall admissible [Demo.standard Demo.addrA "x" 85]).
  { repeat constructor; vm_compute; reflexivity. }
  assert (Hnd : NoDup (map address [Demo.standard Demo.addrA "x" 85]))
    by apply NoDup_singleton.
  pose proof (fee_checks [Demo.standard Demo.addrA "x" 85] None (Demo.start [100] [] 1)
                Hne Hall Hnd) as H.
  cbv zeta in H. destruct H as (_ & _ & H).
  assert (Hle1 : requestTotal [Demo.standard Demo.addrA "x" 85] 0
                 <= sum_coins (AvailableCoins (wallet (Demo.start [100] [] 1)) None))
    by (vm_compute; discriminate).
  assert (Hle2 : Int.add64 (requestTotal [Demo.standard Demo.addrA "x" 85] 0) nTransactionFee
                 <= sum_coins (AvailableCoins (wallet (Demo.start [100] [] 1)) None))
    by (vm_compute; discriminate).
  destruct (H [(Demo.setDestination (DestKeyID (list_byte_of_string Demo.addrA)), 85);
               ([OP_RETURN; PUSH [Byte.x6e; Byte.x70]; OP_RETURN; PUSH [Byte.x78]], 0)]
              [] (Demo.start [100] [] 1) Hle1 Hle2 eq_refl) as [Hfail _].
  rewrite (Hfail eq_refl). vm_compute. reflexivity.
Defined.

(** C4 on a standard payment followed by a stealth payment whose
    narration is collected at position 1, with the change output placed at
    1: the committed transaction carries the narration under [n_2], the
    index of the stealth payment output in it, and nothing under [n_1]. *)
Lemma narration_key_positions_witness :
  exists v wtx t,
    trace (snd (sendCoins
                  [Demo.standard Demo.addrA "" 100; Demo.stealth Demo.addrStealth "hello" 500]
                  None (Demo.start [1000] [] 1)))
    = [EvAvailableCoins; EvLock2; EvCreateTransaction v; EvAskFee 30;
       EvCommitTransaction wtx; EvUnlock2] ++ t
    /\ mapValue wtx !! "n_2" = Some "hello"
    /\ mapValue wtx !! "n_1" = None
    /\ snd <$> vout wtx !! 1%nat = Some 370
    /\ snd <$> vout wtx !! 2%nat = Some 500.
Proof.
  set (rs := [Demo.standard Demo.addrA "" 100; Demo.stealth Demo.addrStealth "hello" 500]).
  set (v := match fst (buildOutputs rs ([], []) (Demo.start [1000] [] 1)) with
            | Continue b => fst b
            | Exit _ => []
            end).
  assert (Hb : buildOutputs rs ([], []) (Demo.start [1000] [] 1)
               = (Continue (v, [(1, "hello")]), mkSt (Demo.wallet0 [1000] [] 1) 1 []))
    by (vm_compute; reflexivity).
  assert (Hreach : reachesBuild rs None (wallet (Demo.start [1000] [] 1))).
  { apply demo_reaches2; vm_compute; reflexivity || discriminate. }
  assert (Hlen : Z.of_nat (length v) <= 2 ^ 31) by (vm_compute; discriminate).
  assert (Hc : fCreated (fst (CreateTransaction (wallet (Demo.start [1000] [] 1)) v None))
               = true) by (vm_compute; reflexivity).
  assert (Hfee : ThreadSafeAskFee (Externals := Demo.ext)
                   (nFeeRequired
                      (fst (CreateTransaction (wallet (Demo.start [1000] [] 1)) v None)))
                 = true) by reflexivity.
  destruct (narration_key_positions rs None (Demo.start [1000] [] 1) v [(1, "hello")] _
              Hreach Hb Hlen Hc Hfee) as (wtx & t & Ht & _ & Hvout & Hkeys & Hother).
  exists v, wtx, t.
  split; [exact Ht|].
  split; [exact (Hkeys 1 "hello" (or_introl eq_refl))|].
  split.
  - rewrite (Hother "n_1"); [vm_compute; reflexivity|].
    intros p sNarr [[= <- <-]|[]]. vm_compute. discriminate.
  - rewrite Hvout. split; vm_compute; reflexivity.
Defined.

(** C5 on a request naming the same address twice. *)
Lemma sendCoins_duplicate_witness :
  Forall admissible [Demo.standard Demo.addrA "" 500; Demo.standard Demo.addrA "" 300]
  /\ ¬ NoDup (map address [Demo.standard Demo.addrA "" 500; Demo.standard Demo.addrA "" 300])
  /\ sendCoins [Demo.standard Demo.addrA "" 500; Demo.standard Demo.addrA "" 300] None
       (Demo.start [1000] [] 0)
     = (SendCoinsReturn1 DuplicateAddress, Demo.start [1000] [] 0).
Proof.
  assert (Hall : Forall admissible
            [Demo.standard Demo.addrA "" 500; Demo.standard Demo.addrA "" 300]).
  { repeat constructor; vm_compute; reflexivity. }
  assert (Hdup : ¬ NoDup (map address
            [Demo.standard Demo.addrA "" 500; Demo.standard Demo.addrA "" 300])).
  { intros Hnd. apply NoDup_cons in Hnd as [Hnin _]. apply Hnin. left. }
  split; [exact Hall|]. split; [exact Hdup|].
  exact (sendCoins_duplicate _ None (Demo.start [1000] [] 0) Hall Hdup).
Defined.

(** C6 on a single stealth recipient: the pair is built and handed to
    [CreateTransaction], and stays together whatever position is chosen for
    the change output; with the position between the two chosen, the change
    output comes before the pair. *)
Lemma stealth_pair_witness :
  exists pay carrier,
    fst (buildOutputs [Demo.stealth Demo.addrStealth "" 500] ([], [])
           (Demo.start [1000] [] 1))
    = Continue ([pay; carrier], [])
    /\ snd pay = 500
    /\ carrier = ([OP_RETURN; PUSH [Byte.x03; Byte.x07; Byte.x07]], 0)
    /\ (exists t,
          trace (snd (sendCoins [Demo.stealth Demo.addrStealth "" 500] None
                        (Demo.start [1000] [] 1)))
          = EvAvailableCoins :: EvLock2 :: EvCreateTransaction [pay; carrier] :: t)
    /\ (forall nChosen change,
          insertChange nChosen change [pay; carrier]
            !! finalIndex (changePosition nChosen [pay; carrier]) 0
          = Some pay
          /\ insertChange nChosen change [pay; carrier]
               !! S (finalIndex (changePosition nChosen [pay; carrier]) 0)
             = Some carrier)
    /\ insertChange 1 ([OP_CODE Byte.x51], 490) [pay; carrier]
       = [([OP_CODE Byte.x51], 490); pay; carrier].
Proof.
  assert (Hty : typeInd (Demo.stealth Demo.addrStealth "" 500) = AT_Stealth) by reflexivity.
  assert (Hdec : SetEncoded (address (Demo.stealth Demo.addrStealth "" 500))
                 = Demo.decodeStealth Demo.addrStealth) by reflexivity.
  destruct (Demo.decodeStealth Demo.addrStealth) as [sxAddr|] eqn:Hsx;
    [|vm_compute in Hsx; discriminate].
  set (v' := match fst (buildRecipient (Demo.stealth Demo.addrStealth "" 500)
                           ([], []) (Demo.start [1000] [] 1)) with
             | Continue b => fst b
             | Exit _ => []
             end).
  assert (Hrun : buildRecipient (Demo.stealth Demo.addrStealth "" 500) ([], [])
                   (Demo.start [1000] [] 1)
                 = (Continue (v', []), mkSt (Demo.wallet0 [1000] [] 1) 1 []))
    by (vm_compute; reflexivity).
  assert (Hpre : buildOutputs (Ext := Demo.ext) [] ([], []) (Demo.start [1000] [] 1)
                 = (Continue ([], []), Demo.start [1000] [] 1)) by reflexivity.
  assert (Hreach : reachesBuild ([] ++ [Demo.stealth Demo.addrStealth "" 500]) None
                     (wallet (Demo.start [1000] [] 1)))
    by (apply demo_reaches_at; vm_compute; reflexivity || discriminate).
  destruct (stealth_pair [] _ [] _ None _ _ _ _ _ _ _ Hty Hdec Hpre Hrun)
    as (sh & pk & ep & extra & Hk & Hv & Hloop & Hfin).
  cbv zeta in Hfin.
  destruct (Hfin v' [] _ eq_refl) as (_ & _ & Htrace & Hins).
  specialize (Htrace Hreach).
  vm_compute in Hsx. injection Hsx as <-.
  vm_compute in Hk. injection Hk as <- <- <-.
  assert (Hextra : extra = []) by (vm_compute in Hv; congruence).
  subst extra.
  eexists _, _.
  split; [vm_compute; reflexivity|].
  split; [reflexivity|]. split; [reflexivity|].
  split; [rewrite Hv in Htrace; exact Htrace|].
  split; [|vm_compute; reflexivity].
  intros nChosen change. rewrite Hv in Hins. exact (Hins nChosen change).
Defined.



(** C8 fails as stated: a standard address followed by blanks has 78
    characters, is not a stealth address, and validates, because the standard
    reading is still made. *)
Lemma padded_address_validates :
  (75 < String.length Demo.addrPadded)%nat
  /\ IsStealthAddress (Externals := Demo.ext) Demo.addrPadded = false
  /\ CBitcoinAddress_IsValid (Externals := Demo.ext) Demo.addrPadded = true
  /\ validateAddress (Ext := Demo.ext) Demo.addrPadded = true.
Proof.
  split; [vm_compute; lia|]. split; [vm_compute; reflexivity|].
  split; vm_compute; reflexivity.
Qed.



(** * Further properties of [sendCoins] *)

Section SendProperties.

Context {W CC : Type} `{Ext : Externals W CC}.

Ltac step_monad := repeat (rewrite ?bind_unfold; simpl).

(** ** The checks before the critical section, case by case *)

Lemma precheck_first_invalid pre rcp post setAddress total :
  Forall admissible pre ->
  precheck (pre ++ rcp :: post) setAddress total
  = if validateAddress (address rcp) then
      if amount rcp <=? 0 then inr InvalidAmount
      else precheck post ({[ address rcp ]} ∪ (list_to_set (map address pre) ∪ setAddress))
             (Int.add64 (requestTotal pre total) (amount rcp))
    else inr InvalidAddress.
Proof.
  intros Hall. revert setAddress total.
  induction Hall as [|r pre [Hv Ha] _ IH]; intros setAddress total.
  - cbn [app precheck map requestTotal fold_left].
    destruct (validateAddress (address rcp)); cbn [negb]; [|reflexivity].
    destruct (amount rcp <=? 0); [reflexivity|].
    f_equal. apply leibniz_equiv. set_solver.
  - cbn [app precheck]. rewrite Hv. cbn [negb].
    destruct (amount r <=? 0) eqn:Hle; [apply Z.leb_le in Hle; lia|].
    rewrite IH. cbn [map requestTotal fold_left].
    destruct (validateAddress (address rcp)); [|reflexivity].
    destruct (amount rcp <=? 0); [reflexivity|].
    f_equal. apply leibniz_equiv. set_solver.
Qed.

Lemma size_list_to_set_full (l : list string) :
  (length l <= size (list_to_set l : gset string))%nat -> NoDup l.
Proof.
  intros Hsz. destruct (decide (NoDup l)) as [Hnd|Hdup]; [exact Hnd|].
  pose proof (size_list_to_set_dup l Hdup). lia.
Qed.

(** Either the list is empty, or the call returns before the critical
    section with the state it names, or the request reaches the critical
    section. *)
Lemma sendCoins_prechecks recipients coinControl s :
  recipients = []
  \/ (exists st,
        sendCoins recipients coinControl s = (SendCoinsReturn1 st, s)
        /\ ((st = InvalidAddress \/ st = InvalidAmount) /\ ¬ Forall admissible recipients
            \/ st = DuplicateAddress /\ Forall admissible recipients
               /\ ¬ NoDup (map address recipients)))
  \/ (exists r,
        sendCoins recipients coinControl s = (r, logged s [EvAvailableCoins])
        /\ (status r = AmountExceedsBalance \/ status r = AmountWithFeeExceedsBalance))
  \/ reachesBuild recipients coinControl (wallet s).
Proof.
  destruct recipients as [|rcp rest]; [left; reflexivity|right].
  unfold sendCoins, sendCoinsM, run.
  destruct (precheck (rcp :: rest) ∅ 0) as [[setAddress total]|err] eqn:Hpre.
  - apply precheck_inl_inv in Hpre as (Hall & -> & ->).
    assert (Hu : (list_to_set (map address (rcp :: rest)) ∪ ∅ : gset string)
                 = list_to_set (map address (rcp :: rest)))
      by (apply leibniz_equiv; set_solver).
    rewrite Hu.
    destruct (size _ <? length (rcp :: rest))%nat eqn:Hsz.
    + left. exists DuplicateAddress. split; [reflexivity|]. right.
      split; [reflexivity|]. split; [exact Hall|].
      intros Hnd. apply Nat.ltb_lt in Hsz.
      rewrite (size_list_to_set _ Hnd), length_map in Hsz. lia.
    + apply Nat.ltb_ge in Hsz.
      assert (Hnd : NoDup (map address (rcp :: rest))).
      { apply size_list_to_set_full. rewrite length_map. exact Hsz. }
      right. rewrite !bind_unfold, emit_run. rewrite bind_unfold.
      cbn [get_wallet logged wallet].
      set (nBalance := sum_coins (AvailableCoins (wallet s) coinControl)).
      set (total := requestTotal (rcp :: rest) 0).
      destruct (nBalance <? total) eqn:H1.
      { left. eexists. split; [reflexivity|]. left. reflexivity. }
      destruct (nBalance <? Int.add64 total nTransactionFee) eqn:H2.
      { left. eexists. split; [reflexivity|]. right. reflexivity. }
      right. apply Z.ltb_ge in H1, H2.
      split; [discriminate|]. split; [exact Hall|]. split; [exact Hnd|].
      split; assumption.
  - left. exists err. split; [reflexivity|]. left.
    split; [apply precheck_inr in Hpre; exact Hpre|].
    intros Hall. rewrite (precheck_inl _ _ _ Hall) in Hpre. discriminate.
Qed.

(** ** The order of the validation *)

(** X1: the first recipient that fails validation decides the answer: with
    everything before it admissible, an address that does not validate gives
    [InvalidAddress], and a validated address with an amount that is not
    positive gives [InvalidAmount]; whatever follows in the list, repeated
    addresses included, is not looked at, and the state is left as given. *)
Theorem first_invalid_recipient pre rcp post coinControl s :
  Forall admissible pre ->
  (validateAddress (address rcp) = false ->
   sendCoins (pre ++ rcp :: post) coinControl s = (SendCoinsReturn1 InvalidAddress, s))
  /\ (validateAddress (address rcp) = true -> amount rcp <= 0 ->
      sendCoins (pre ++ rcp :: post) coinControl s = (SendCoinsReturn1 InvalidAmount, s)).
Proof.
  intros Hall.
  assert (Hne : exists r rest, pre ++ rcp :: post = r :: rest)
    by (destruct pre; eexists _, _; reflexivity).
  destruct Hne as (r & rest & Hne).
  split.
  - intros Hv. unfold sendCoins, sendCoinsM, run. 
    pose proof (precheck_first_invalid pre rcp post ∅ 0 Hall) as Hp.
    rewrite Hv in Hp. rewrite Hne in *. rewrite Hp. reflexivity.
  - intros Hv Ha. unfold sendCoins, sendCoinsM, run.
    pose proof (precheck_first_invalid pre rcp post ∅ 0 Hall) as Hp.
    rewrite Hv in Hp. apply Z.leb_le in Ha. rewrite Ha in Hp.
    rewrite Hne in *. rewrite Hp. reflexivity.
Qed.


(** ** Which answers are possible, and when *)

(** X2: [DuplicateAddress] is the answer exactly for a non-empty list in which
    every recipient passes validation and some address string occurs twice. *)
Theorem duplicate_exactly recipients coinControl s :
  status (fst (sendCoins recipients coinControl s)) = DuplicateAddress
  <-> recipients <> [] /\ Forall admissible recipients
      /\ ¬ NoDup (map address recipients).
Proof.
  split.
  - intros Hst.
    destruct (sendCoins_prechecks recipients coinControl s)
      as [->|[(st & Heq & Hcase)|[(r & Heq & Hcase)|Hreach]]].
    + discriminate.
    + rewrite Heq in Hst. cbn in Hst. subst st.
      destruct Hcase as [[[?|?] _]|(_ & Hall & Hdup)]; try discriminate.
      split; [|split; assumption]. intros ->. apply Hdup. constructor.
    + rewrite Heq in Hst. cbn in Hst. destruct Hcase; congruence.
    + exfalso.
      destruct (buildOutputs recipients ([], []) s) as [[[v m]|r] s1] eqn:Hbuild.
      * pose proof (sendCoins_built _ _ _ _ _ _ Hreach Hbuild) as Hrun.
        cbv zeta in Hrun. rewrite Hrun in Hst.
        repeat match type of Hst with context [if ?c then _ else _] =>
          destruct c end; discriminate.
      * rewrite (sendCoins_build_exit _ _ _ _ _ Hreach Hbuild) in Hst.
        apply buildOutputs_exit in Hbuild as [->| ->]; discriminate.
  - intros (Hne & Hall & Hdup).
    destruct (sendCoins_prechecks recipients coinControl s)
      as [->|[(st & Heq & Hcase)|[(r & Heq & Hcase)|Hreach]]].
    + contradiction.
    + rewrite Heq. cbn.
      destruct Hcase as [[_ Hn]|(-> & _)]; [contradiction|reflexivity].
    + exfalso. (* the balance is only read for a list without repeats *)
      unfold sendCoins, sendCoinsM, run in Heq.
      destruct recipients as [|rcp rest]; [contradiction|].
      rewrite (precheck_inl _ _ _ Hall) in Heq.
      pose proof (size_list_to_set_dup _ Hdup) as Hsz. rewrite length_map in Hsz.
      assert (Hu : (list_to_set (map address (rcp :: rest)) ∪ ∅ : gset string)
                   = list_to_set (map address (rcp :: rest)))
        by (apply leibniz_equiv; set_solver).
      rewrite Hu in Heq. apply Nat.ltb_lt in Hsz. rewrite Hsz in Heq.
      cbn in Heq. injection Heq as <- Hs.
      destruct Hcase; discriminate.
    + destruct Hreach as (_ & _ & Hnd & _). contradiction.
Qed.

(** X3: a non-empty request is answered [OK] only after it passed the checks,
    its outputs were built, [CreateTransaction] succeeded, the fee was
    approved and [CommitTransaction] succeeded; the answer then carries fee 0
    and the hash of the transaction that was committed, which is the one
    [CreateTransaction] made with the narration metadata attached. *)
Theorem ok_exactly recipients coinControl s :
  recipients <> [] ->
  status (fst (sendCoins recipients coinControl s)) = OK ->
  reachesBuild recipients coinControl (wallet s)
  /\ exists v m s1,
       buildOutputs recipients ([], []) s = (Continue (v, m), s1)
       /\ let cr := fst (CreateTransaction (wallet s) v coinControl) in
          let w1 := snd (CreateTransaction (wallet s) v coinControl) in
          let wtx := mkWalletTx (vout (wtxNew cr))
                       (attachNarrations (nChangePos cr) m (mapValue (wtxNew cr))) in
          fCreated cr = true
          /\ ThreadSafeAskFee (nFeeRequired cr) = true
          /\ fst (CommitTransaction w1 wtx) = true
          /\ fst (sendCoins recipients coinControl s)
             = mkSendCoinsReturn OK 0 (GetHashHex wtx)
          /\ In (EvCommitTransaction wtx) (trace (snd (sendCoins recipients coinControl s))).
Proof.
  intros Hne Hst.
  destruct (sendCoins_prechecks recipients coinControl s)
    as [->|[(st & Heq & Hcase)|[(r & Heq & Hcase)|Hreach]]].
  - contradiction.
  - rewrite Heq in Hst. cbn in Hst. subst st.
    destruct Hcase as [[[?|?] _]|(? & _)]; discriminate.
  - rewrite Heq in Hst. cbn in Hst. destruct Hcase; congruence.
  - split; [exact Hreach|].
    destruct (buildOutputs recipients ([], []) s) as [[[v m]|r] s1] eqn:Hbuild.
    + exists v, m, s1. split; [reflexivity|].
      pose proof (sendCoins_built _ _ _ _ _ _ Hreach Hbuild) as Hrun.
      cbv zeta in Hrun |- *. rewrite Hrun in Hst |- *.
      destruct (fCreated _);
        [|destruct (_ <? _); discriminate].
      destruct (ThreadSafeAskFee _); [|discriminate].
      destruct (fst (CommitTransaction _ _)); [|discriminate].
      repeat split.
      match goal with |- context [updateAddressBook ?rs ?st] =>
        destruct (updateAddressBook_trace rs st) as (w' & book & Hab & _);
        rewrite Hab
      end.
      cbn [snd trace]. rewrite <- !app_assoc. cbn [app].
      apply in_app_iff. right. do 4 right. left. reflexivity.
    + rewrite (sendCoins_build_exit _ _ _ _ _ Hreach Hbuild) in Hst.
      apply buildOutputs_exit in Hbuild as [->| ->]; discriminate.
Qed.

(** X4: once the transaction is built: if the user declines the fee, the
    answer is [Aborted] and [CommitTransaction] is never called; if the fee is
    approved and [CommitTransaction] fails, the answer is
    [TransactionCommitFailed].  In both cases the locks are released, the
    destructor of the change key runs, and the address book is not visited. *)
Theorem declined_or_failed recipients coinControl s v m s1 :
  reachesBuild recipients coinControl (wallet s) ->
  buildOutputs recipients ([], []) s = (Continue (v, m), s1) ->
  let cr := fst (CreateTransaction (wallet s) v coinControl) in
  let w1 := snd (CreateTransaction (wallet s) v coinControl) in
  let wtx := mkWalletTx (vout (wtxNew cr))
               (attachNarrations (nChangePos cr) m (mapValue (wtxNew cr))) in
  fCreated cr = true ->
  (ThreadSafeAskFee (nFeeRequired cr) = false ->
   sendCoins recipients coinControl s
   = (SendCoinsReturn1 Aborted,
      mkSt (CReserveKey_ReturnKey w1) (draws s1)
        (trace s ++ [EvAvailableCoins; EvLock2; EvCreateTransaction v;
                     EvAskFee (nFeeRequired cr); EvUnlock2])))
  /\ (ThreadSafeAskFee (nFeeRequired cr) = true ->
      fst (CommitTransaction w1 wtx) = false ->
      sendCoins recipients coinControl s
      = (SendCoinsReturn1 TransactionCommitFailed,
         mkSt (CReserveKey_ReturnKey (snd (CommitTransaction w1 wtx))) (draws s1)
           (trace s ++ [EvAvailableCoins; EvLock2; EvCreateTransaction v;
                        EvAskFee (nFeeRequired cr); EvCommitTransaction wtx;
                        EvUnlock2]))).
Proof.
  intros Hreach Hbuild. cbv zeta. intros Hc.
  pose proof (sendCoins_built _ _ _ _ _ _ Hreach Hbuild) as Hrun.
  cbv zeta in Hrun. rewrite Hc in Hrun.
  split.
  - intros Hfee. rewrite Hfee in Hrun. rewrite Hrun, <- app_assoc. reflexivity.
  - intros Hfee Hcommit. rewrite Hfee, Hcommit in Hrun.
    rewrite Hrun, <- app_assoc. reflexivity.
Qed.

(** X5: every run logs its calls in one of three shapes: nothing; the coin
    listing alone; or the coin listing, the lock, calls made under the lock
    ([CreateTransaction], the fee question, [CommitTransaction]), the release,
    and then address-book events.  So a lock that is taken is always
    released, the transaction is created, the fee asked and the transaction
    committed only while the locks are held, and the address book is visited
    only after the release and only when the answer is [OK]. *)
Theorem trace_shape recipients coinControl s :
  exists t,
    trace (snd (sendCoins recipients coinControl s)) = trace s ++ t
    /\ (t = [] \/ t = [EvAvailableCoins]
        \/ exists inner book,
             t = EvAvailableCoins :: EvLock2 :: inner ++ EvUnlock2 :: book
             /\ Forall (fun e => underLock e = true) inner
             /\ Forall (fun e => bookEvent e = true) book
             /\ (status (fst (sendCoins recipients coinControl s)) <> OK -> book = [])).
Proof.
  destruct (sendCoins_prechecks recipients coinControl s)
    as [->|[(st & Heq & _)|[(r & Heq & _)|Hreach]]].
  - exists []. rewrite app_nil_r. split; [reflexivity|left; reflexivity].
  - exists []. rewrite Heq, app_nil_r. split; [reflexivity|left; reflexivity].
  - exists [EvAvailableCoins]. rewrite Heq. split; [reflexivity|right; left; reflexivity].
  - destruct (buildOutputs recipients ([], []) s) as [[[v m]|r] s1] eqn:Hbuild.
    + pose proof (sendCoins_built _ _ _ _ _ _ Hreach Hbuild) as Hrun.
      cbv zeta in Hrun. rewrite Hrun.
      destruct (fCreated _).
      * destruct (ThreadSafeAskFee _).
        -- destruct (fst (CommitTransaction _ _)).
           ++ match goal with |- context [updateAddressBook ?rs ?st] =>
                destruct (updateAddressBook_trace rs st) as (w' & book & Hab & Hbook);
                rewrite Hab
              end.
              cbn [fst snd trace status]. eexists. rewrite <- !app_assoc. cbn [app].
              split; [reflexivity|]. right. right.
              eexists [_; _; _], book. split; [reflexivity|].
              split; [repeat constructor|]. split; [exact Hbook|]. congruence.
           ++ cbn [fst snd trace status]. eexists. rewrite <- !app_assoc. cbn [app].
              split; [reflexivity|]. right. right.
              eexists [_; _; _], []. split; [reflexivity|].
              split; [repeat constructor|]. split; [constructor|reflexivity].
        -- cbn [fst snd trace status]. eexists. rewrite <- !app_assoc. cbn [app].
           split; [reflexivity|]. right. right.
           eexists [_; _], []. split; [reflexivity|].
           split; [repeat constructor|]. split; [constructor|reflexivity].
      * cbn [fst snd trace status]. eexists. rewrite <- !app_assoc. cbn [app].
        split; [reflexivity|]. right. right.
        eexists [_], []. split; [reflexivity|].
        split; [repeat constructor|]. split; [constructor|reflexivity].
    + rewrite (sendCoins_build_exit _ _ _ _ _ Hreach Hbuild).
      pose proof (buildOutputs_frame recipients ([], []) s) as [_ Ht].
      rewrite Hbuild in Ht. cbn [snd] in Ht.
      cbn [fst snd logged trace]. rewrite Ht.
      eexists. split; [reflexivity|]. right. right.
      exists [], []. split; [reflexivity|].
      split; [constructor|]. split; [constructor|reflexivity].
Qed.

End SendProperties.

Lemma wrap64_id z : - 2 ^ 63 <= z < 2 ^ 63 -> Int.wrap64 z = z.
Proof.
  intros Hz. unfold Int.wrap64, Int.wrap.
  change (2 ^ (64 - 1)) with 9223372036854775808 in *.
  change (2 ^ 63) with 9223372036854775808 in *.
  change (2 ^ 64) with 18446744073709551616.
  rewrite Z.mod_small; lia.
Qed.

Lemma sumValues_app v1 v2 : sumValues (v1 ++ v2) = sumValues v1 + sumValues v2.
Proof.
  unfold sumValues. induction v1 as [|o v1 IH]; simpl; [reflexivity|].
  rewrite IH. apply Z.add_assoc.
Qed.

Lemma prefix_app_self (s t : string) : String.prefix s (s +:+ t) = true.
Proof.
  induction s as [|a s IH]; simpl.
  - destruct (String.app EmptyString t); reflexivity.
  - destruct (ascii_dec a a) as [_|Hne]; [exact IH|contradiction].
Qed.

Section OutputProperties.

Context {W CC : Type} `{Ext : Externals W CC}.

(** ** What one recipient adds *)

(** One iteration that does not return: the outputs it appends, the
    record it may add, and the draw it may take. *)
Lemma buildRecipient_step rcp v m s v' m' s' :
  buildRecipient rcp (v, m) s = (Continue (v', m'), s') ->
  (routeOf rcp = None /\ m' = m /\ s' = s
   /\ exists extra, v' = v ++ payStandard rcp :: extra
                    /\ (length extra <= 1)%nat /\ sumValues extra = 0)
  \/ (exists sxAddr pk ep extra,
        routeOf rcp = Some sxAddr /\ s' = drawn s
        /\ v' = v ++ [payStealth rcp pk; (OP_RETURN :: PUSH ep :: extra, 0)]
        /\ (m' = m
            \/ m' = map_assign (Int.wrap32 (Z.of_nat (length v))) (narration rcp) m
               /\ (0 < String.length (narration rcp) <= 24)%nat)).
Proof.
  rewrite buildRecipient_route.
  destruct (routeOf rcp) as [sxAddr|].
  - destruct (deriveKeys sxAddr (draws s)) as [[[sh pk] ep]|] eqn:Hk.
    2:{ rewrite (buildStealth_no_keys _ _ _ _ Hk). discriminate. }
    rewrite (buildStealth_keys _ _ _ _ _ _ _ _ Hk). unfold stealthOutcome.
    intros Hout. right. exists sxAddr, pk, ep.
    destruct (0 <? String.length (narration rcp))%nat eqn:H0.
    + destruct (24 <? String.length (narration rcp))%nat eqn:H24; [discriminate|].
      destruct (SecMsgCrypter_Encrypt sh ep (narration rcp)) as [c|]; [|discriminate].
      destruct (48 <? length c)%nat; [discriminate|].
      injection Hout as <- <- <-. eexists. split; [reflexivity|]. split; [reflexivity|].
      split; [reflexivity|]. right.
      rewrite length_app. cbn [length].
      replace (Z.of_nat (length v + 1) - 1) with (Z.of_nat (length v)) by lia.
      split; [reflexivity|]. apply Nat.ltb_lt in H0. apply Nat.ltb_ge in H24. lia.
    + injection Hout as <- <- <-. exists []. split; [reflexivity|]. split; [reflexivity|].
      split; [reflexivity|]. left. reflexivity.
  - rewrite buildStandard_run. intros Hout. left.
    split; [reflexivity|].
    destruct (0 <? String.length (narration rcp))%nat.
    + destruct (24 <? String.length (narration rcp))%nat; [discriminate|].
      injection Hout as <- <- <-. repeat split. eexists [_].
      split; [reflexivity|]. split; [cbn; lia|reflexivity].
    + injection Hout as <- <- <-. repeat split. exists [].
      split; [reflexivity|]. split; [cbn; lia|reflexivity].
Qed.

(** ** Amounts, counts and draws *)

(** X6: the outputs handed to the wallet carry exactly the requested amounts:
    their values add up to the sum of the recipients' amounts, and there are
    at least as many outputs as recipients and at most twice as many. *)
Theorem outputs_carry_amounts recipients v0 m0 s v m s' :
  buildOutputs recipients (v0, m0) s = (Continue (v, m), s') ->
  sumValues v = sumValues v0 + sumAmounts recipients
  /\ (length v0 + length recipients <= length v <= length v0 + 2 * length recipients)%nat.
Proof.
  revert v0 m0 s. induction recipients as [|rcp rest IH]; intros v0 m0 s.
  - intros [= <- _ _]. cbn. split; lia.
  - cbn [buildOutputs]. rewrite bind_unfold.
    destruct (buildRecipient rcp (v0, m0) s) as [[[v1 m1]|r] s1] eqn:Hstep; [|discriminate].
    intros Hrest. apply IH in Hrest as [Hsum Hlen].
    assert (Hone : sumValues v1 = sumValues v0 + amount rcp
                   /\ (length v0 + 1 <= length v1 <= length v0 + 2)%nat).
    { apply buildRecipient_step in Hstep
        as [(_ & _ & _ & extra & -> & Hl & Hs)
           |(sxAddr & pk & ep & extra & _ & _ & -> & _)].
      - rewrite sumValues_app, length_app. cbn [sumValues fold_right length snd payStandard].
        unfold sumValues in Hs. rewrite Hs. split; lia.
      - rewrite sumValues_app, length_app.
        cbn [sumValues fold_right length snd payStealth]. split; lia. }
    destruct Hone as [Hs1 Hl1]. cbn [sumAmounts fold_right length].
    unfold sumAmounts in Hsum. split; lia.
Qed.

(** X7: one random secret is drawn for each recipient that takes the stealth
    branch, none for the others. *)
Theorem one_draw_per_stealth recipients b s b' s' :
  buildOutputs recipients b s = (Continue b', s') ->
  draws s' = (draws s + length (filter (fun rcp => is_Some (routeOf rcp)) recipients))%nat.
Proof.
  revert b s. induction recipients as [|rcp rest IH]; intros [v0 m0] s.
  - intros [= _ <-]. cbn. lia.
  - cbn [buildOutputs]. rewrite bind_unfold.
    destruct (buildRecipient rcp (v0, m0) s) as [[[v1 m1]|r] s1] eqn:Hstep; [|discriminate].
    intros Hrest. apply IH in Hrest. rewrite Hrest, filter_cons.
    apply buildRecipient_step in Hstep
      as [(Hr & _ & -> & _)|(sxAddr & pk & ep & extra & Hr & -> & _)]; rewrite Hr.
    + rewrite decide_False by (intros [? ?]; discriminate). reflexivity.
    + rewrite decide_True by (eexists; reflexivity). cbn [length drawn draws]. lia.
Qed.

(** X8: the total the balance tests use is the exact sum of the amounts as
    long as that sum is below 2^63. *)
Theorem total_is_exact recipients setAddress total :
  precheck recipients ∅ 0 = inl (setAddress, total) ->
  sumAmounts recipients < 2 ^ 63 ->
  total = sumAmounts recipients.
Proof.
  intros Hpre Hsum. apply precheck_inl_inv in Hpre as (Hall & _ & ->).
  assert (Hgen : forall t, 0 <= t -> t + sumAmounts recipients < 2 ^ 63 ->
                           requestTotal recipients t = t + sumAmounts recipients).
  { clear Hsum. induction Hall as [|rcp rest [_ Ha] Hrest IH]; intros t Ht Hlt.
    - cbn. lia.
    - change (sumAmounts (rcp :: rest)) with (amount rcp + sumAmounts rest) in *.
      change (requestTotal (rcp :: rest) t)
        with (requestTotal rest (Int.add64 t (amount rcp))).
      assert (Hpos : 0 <= sumAmounts rest).
      { clear -Hrest. induction Hrest as [|r l [_ Hr] _ IHl]; [cbn; lia|].
        change (sumAmounts (r :: l)) with (amount r + sumAmounts l). lia. }
      unfold Int.add64. rewrite wrap64_id by lia.
      rewrite IH by lia. lia. }
  rewrite Hgen by lia. lia.
Qed.

(** ** Narration records *)

(** X9: every narration record the loop collects belongs to a recipient that
    took the stealth branch: its text is that recipient's narration (1 to 24
    bytes), its position is that of the recipient's payment output, and the
    output right after it is the zero-value data carrier. *)
Theorem records_point_at_stealth_payments recipients s v m s' p sNarr :
  buildOutputs recipients ([], []) s = (Continue (v, m), s') ->
  Z.of_nat (length v) <= 2 ^ 31 ->
  In (p, sNarr) m ->
  exists rcp script extra,
    In rcp recipients /\ narration rcp = sNarr /\ is_Some (routeOf rcp)
    /\ (0 < String.length sNarr <= 24)%nat
    /\ 0 <= p
    /\ v !! Z.to_nat p = Some (script, amount rcp)
    /\ v !! S (Z.to_nat p) = Some (OP_RETURN :: extra, 0).
Proof.
  intros Hbuild Hlen.
  assert (Hgen : forall rs v0 m0 s0,
    buildOutputs rs (v0, m0) s0 = (Continue (v, m), s') ->
    keysBelow (Z.of_nat (length v0)) m0 ->
    forall p x, In (p, x) m ->
      In (p, x) m0
      \/ exists rcp script extra,
           In rcp rs /\ narration rcp = x /\ is_Some (routeOf rcp)
           /\ (0 < String.length x <= 24)%nat
           /\ 0 <= p
           /\ v !! Z.to_nat p = Some (script, amount rcp)
           /\ v !! S (Z.to_nat p) = Some (OP_RETURN :: extra, 0)).
  { induction rs as [|rcp rest IH]; intros v0 m0 s0.
    - intros [= <- <- _] _ p0 x Hin. left. exact Hin.
    - cbn [buildOutputs]. rewrite bind_unfold.
      destruct (buildRecipient rcp (v0, m0) s0) as [[[v1 m1]|r] s1] eqn:Hstep;
        [|discriminate].
      intros Hrest Hkeys p0 x Hin.
      pose proof (buildOutputs_grows _ _ _ _ _ _ _ Hrest) as Hgrow.
      assert (Hkeys1 : keysBelow (Z.of_nat (length v1)) m1
                       /\ exists tail, v = v1 ++ tail).
      { split.
        - apply buildRecipient_step in Hstep
            as [(_ & -> & _ & extra & -> & _)
               |(sxAddr & pk & ep & extra & _ & _ & -> & [->|[-> _]])].
          + apply (keysBelow_mono (Z.of_nat (length v0))); [rewrite length_app; lia|exact Hkeys].
          + apply (keysBelow_mono (Z.of_nat (length v0))); [rewrite length_app; lia|exact Hkeys].
          + rewrite length_app in *. cbn [length] in *.
            rewrite wrap32_id by lia.
            rewrite map_assign_above
              by (eapply Forall_impl; [exact Hkeys|]; intros it [? ?]; cbn beta; lia).
            apply Forall_app. split.
            * apply (keysBelow_mono (Z.of_nat (length v0))); [lia|exact Hkeys].
            * constructor; [cbn [fst]; lia|constructor].
        - clear -Hrest. revert v1 m1 s1 Hrest.
          induction rest as [|r rest IHr]; intros v1 m1 s1.
          + intros [= <- _ _]. exists []. rewrite app_nil_r. reflexivity.
          + cbn [buildOutputs]. rewrite bind_unfold.
            destruct (buildRecipient r (v1, m1) s1) as [[[v2 m2]|r0] s2] eqn:Hs;
              [|discriminate].
            intros Hr. apply IHr in Hr as [tail ->].
            apply buildRecipient_step in Hs
              as [(_ & _ & _ & extra & -> & _)
                 |(sxAddr & pk & ep & extra & _ & _ & -> & _)];
              rewrite <- app_assoc; eexists; reflexivity. }
      destruct Hkeys1 as [Hkeys1 [tail Htail]].
      destruct (IH _ _ _ Hrest Hkeys1 p0 x Hin)
        as [Hin1|(r1 & sc & ex & Hr1 & Hrest1)].
      2:{ right. exists r1, sc, ex. split; [right; exact Hr1|exact Hrest1]. }
      apply buildRecipient_step in Hstep
        as [(_ & -> & _ & _)
           |(sxAddr & pk & ep & extra & Hroute & _ & Hv1 & [->|[-> Hnarr]])];
        [left; exact Hin1|left; exact Hin1|].
      assert (Hl0 : Z.of_nat (length v0) < 2 ^ 31).
      { rewrite Hv1, length_app in Hgrow. cbn [length] in Hgrow. lia. }
      rewrite wrap32_id in Hin1 by lia.
      rewrite map_assign_above in Hin1
        by (eapply Forall_impl; [exact Hkeys|]; intros it [? ?]; cbn beta; lia).
      apply in_app_iff in Hin1 as [Hin1|[[= <- <-]|[]]]; [left; exact Hin1|].
      right. exists rcp, (fst (payStealth rcp pk)), (PUSH ep :: extra).
      split; [left; reflexivity|]. split; [reflexivity|].
      split; [rewrite Hroute; eexists; reflexivity|]. split; [exact Hnarr|].
      split; [lia|]. rewrite Nat2Z.id, Htail, Hv1, <- !app_assoc.
      split.
      + apply list_lookup_middle. reflexivity.
      + cbn [app]. rewrite (cons_middle (payStealth rcp pk)), app_assoc.
        apply list_lookup_middle. rewrite length_app. cbn [length].
        rewrite Nat.add_1_r. reflexivity. }
  intros Hin.
  assert (H0 : keysBelow (Z.of_nat (length ([] : list Output))) []) by constructor.
  destruct (Hgen recipients [] [] s Hbuild H0 p sNarr Hin) as [[]|H].
  exact H.
Qed.

(** X10: attaching the narrations writes keys starting with [n_] only: what
    the transaction's metadata holds under any other key stays as
    [CreateTransaction] left it. *)
Theorem other_metadata_kept nChangePos m (mv : gmap string string) key :
  String.prefix "n_" key = false ->
  attachNarrations nChangePos m mv !! key = mv !! key.
Proof.
  intros Hkey. apply attachNarrations_other.
  apply Forall_forall. intros it _ Heq. subst key.
  unfold narrKey in Hkey. rewrite prefix_app_self in Hkey. discriminate.
Qed.

End OutputProperties.

(** * The cached figures of the model object *)

Section CacheProperties.

Context {W : Type} `{View : WalletView W}.

(** The five comparisons of [checkBalanceChanged]. *)
Lemma checkBalanceChanged_cases w m :
  (checkBalanceChanged w m = (m, [])
   /\ cachedBalance m = GetUnlockedBalance w
   /\ cachedLockedBalance m = GetLockedBalance w
   /\ cachedStake m = GetStakeAmount w
   /\ cachedUnconfirmedBalance m = GetUnconfirmedBalance w
   /\ cachedImmatureBalance m = GetImmatureBalance w)
  \/ (exists sig,
        checkBalanceChanged w m
        = (mkModel (fHaveWatchOnly m) (addressTableModel m) (transactionTableModel m)
             (GetUnlockedBalance w) (cachedLockedBalance m) (GetStakeAmount w)
             (GetUnconfirmedBalance w) (GetImmatureBalance w)
             (cachedNumTransactions m) (cachedEncryptionStatus m) (cachedNumBlocks m),
           [sig])
        /\ (cachedBalance m <> GetUnlockedBalance w
            \/ cachedLockedBalance m <> GetLockedBalance w
            \/ cachedStake m <> GetStakeAmount w
            \/ cachedUnconfirmedBalance m <> GetUnconfirmedBalance w
            \/ cachedImmatureBalance m <> GetImmatureBalance w)).
Proof.
  unfold checkBalanceChanged.
  destruct (cachedBalance m =? GetUnlockedBalance w) eqn:E1;
    [apply Z.eqb_eq in E1|apply Z.eqb_neq in E1; right; eexists; split; [reflexivity|tauto]].
  destruct (cachedLockedBalance m =? GetLockedBalance w) eqn:E2;
    [apply Z.eqb_eq in E2|apply Z.eqb_neq in E2; right; eexists; split; [reflexivity|tauto]].
  destruct (cachedStake m =? GetStakeAmount w) eqn:E3;
    [apply Z.eqb_eq in E3|apply Z.eqb_neq in E3; right; eexists; split; [reflexivity|tauto]].
  destruct (cachedUnconfirmedBalance m =? GetUnconfirmedBalance w) eqn:E4;
    [apply Z.eqb_eq in E4|apply Z.eqb_neq in E4; right; eexists; split; [reflexivity|tauto]].
  destruct (cachedImmatureBalance m =? GetImmatureBalance w) eqn:E5;
    [apply Z.eqb_eq in E5|apply Z.eqb_neq in E5; right; eexists; split; [reflexivity|tauto]].
  left. repeat split; assumption.
Qed.

(** The model [checkBalanceChanged] leaves: the four caches it writes hold
    the wallet's figures, everything else is as before. *)
Lemma checkBalanceChanged_model w m :
  fst (checkBalanceChanged w m)
  = mkModel (fHaveWatchOnly m) (addressTableModel m) (transactionTableModel m)
      (GetUnlockedBalance w) (cachedLockedBalance m) (GetStakeAmount w)
      (GetUnconfirmedBalance w) (GetImmatureBalance w)
      (cachedNumTransactions m) (cachedEncryptionStatus m) (cachedNumBlocks m).
Proof.
  destruct (checkBalanceChanged_cases w m)
    as [(-> & H1 & _ & H3 & H4 & H5)|(sig & -> & _)]; [|reflexivity].
  cbn [fst]. rewrite <- H1, <- H3, <- H4, <- H5. destruct m; reflexivity.
Qed.

Lemma checkBalanceChanged_post w m :
  cachedBalance (fst (checkBalanceChanged w m)) = GetUnlockedBalance w
  /\ cachedStake (fst (checkBalanceChanged w m)) = GetStakeAmount w
  /\ cachedUnconfirmedBalance (fst (checkBalanceChanged w m)) = GetUnconfirmedBalance w
  /\ cachedImmatureBalance (fst (checkBalanceChanged w m)) = GetImmatureBalance w.
Proof. rewrite checkBalanceChanged_model. repeat split; reflexivity. Qed.

(** X11: after [checkBalanceChanged] the four caches it writes hold the
    wallet's current figures, whether or not it emitted the signal; a signal
    is emitted exactly when one of the five compared figures differed. *)
Theorem checkBalanceChanged_coherent w m :
  cachedBalance (fst (checkBalanceChanged w m)) = GetUnlockedBalance w
  /\ cachedStake (fst (checkBalanceChanged w m)) = GetStakeAmount w
  /\ cachedUnconfirmedBalance (fst (checkBalanceChanged w m)) = GetUnconfirmedBalance w
  /\ cachedImmatureBalance (fst (checkBalanceChanged w m)) = GetImmatureBalance w
  /\ (snd (checkBalanceChanged w m) = []
      <-> cachedBalance m = GetUnlockedBalance w
          /\ cachedLockedBalance m = GetLockedBalance w
          /\ cachedStake m = GetStakeAmount w
          /\ cachedUnconfirmedBalance m = GetUnconfirmedBalance w
          /\ cachedImmatureBalance m = GetImmatureBalance w).
Proof.
  pose proof (checkBalanceChanged_post w m) as (H1 & H3 & H4 & H5).
  repeat (split; [assumption|]).
  destruct (checkBalanceChanged_cases w m) as [(-> & Hall)|(sig & -> & Hd)]; cbn [snd].
  - split; [intros _; exact Hall|reflexivity].
  - split; [discriminate|]. intros (E1 & E2 & E3 & E4 & E5).
    destruct Hd as [?|[?|[?|[?|?]]]]; contradiction.
Qed.

(** X12: a second [checkBalanceChanged] on the same wallet leaves the model as
    the first one left it, and emits the signal again exactly when the
    locked balance differs from [cachedLockedBalance], which the first call
    did not write. *)
Theorem checkBalanceChanged_again w m :
  fst (checkBalanceChanged w (fst (checkBalanceChanged w m)))
  = fst (checkBalanceChanged w m)
  /\ (snd (checkBalanceChanged w (fst (checkBalanceChanged w m))) = []
      <-> cachedLockedBalance m = GetLockedBalance w).
Proof.
  set (m1 := fst (checkBalanceChanged w m)).
  assert (Hl : cachedLockedBalance m1 = cachedLockedBalance m).
  { subst m1. destruct (checkBalanceChanged_cases w m) as [(-> & _)|(sig & -> & _)];
      reflexivity. }
  pose proof (checkBalanceChanged_post w m) as (H1 & H3 & H4 & H5). fold m1 in H1, H3, H4, H5.
  destruct (checkBalanceChanged_cases w m1)
    as [(Heq & _ & H2 & _)|(sig & Heq & Hd)]; rewrite Heq; simpl.
  - split; [reflexivity|]. split; [intros _; congruence|reflexivity].
  - split.
    + destruct m1; simpl in *. subst. reflexivity.
    + split; [discriminate|]. intros Hlock.
      destruct Hd as [?|[?|[?|[?|?]]]]; congruence.
Qed.

Lemma checkBalanceChanged_signals w m n :
  ~ In (numTransactionsChanged n) (snd (checkBalanceChanged w m)).
Proof.
  unfold checkBalanceChanged.
  destruct (_ || _); cbn [snd].
  - intros [Hin|[]]. discriminate.
  - intros [].
Qed.

(** The fields [checkBalanceChanged] leaves alone. *)
Lemma checkBalanceChanged_frame w m :
  let m' := fst (checkBalanceChanged w m) in
  fHaveWatchOnly m' = fHaveWatchOnly m
  /\ addressTableModel m' = addressTableModel m
  /\ transactionTableModel m' = transactionTableModel m
  /\ cachedLockedBalance m' = cachedLockedBalance m
  /\ cachedNumTransactions m' = cachedNumTransactions m
  /\ cachedEncryptionStatus m' = cachedEncryptionStatus m
  /\ cachedNumBlocks m' = cachedNumBlocks m.
Proof.
  cbv zeta.
  destruct (checkBalanceChanged_cases w m) as [(-> & _)|(sig & -> & _)];
    simpl; repeat split; reflexivity.
Qed.

(** X13: a poll that could not take both locks does nothing; and once a poll
    has gone through at some height, any later poll at that height does
    nothing, whatever the wallet then holds. *)
Theorem pollBalanceChanged_skips lockMain lockWallet nBestHeight w w' m :
  (lockMain && lockWallet = false ->
   pollBalanceChanged lockMain lockWallet nBestHeight w m = (m, []))
  /\ pollBalanceChanged lockMain lockWallet nBestHeight w'
       (fst (pollBalanceChanged true true nBestHeight w m))
     = (fst (pollBalanceChanged true true nBestHeight w m), []).
Proof.
  split.
  - unfold pollBalanceChanged. destruct lockMain; [|reflexivity].
    destruct lockWallet; [discriminate|reflexivity].
  - assert (Hh : cachedNumBlocks (fst (pollBalanceChanged true true nBestHeight w m))
                 = nBestHeight).
    { unfold pollBalanceChanged. cbn [negb].
      destruct (nBestHeight =? cachedNumBlocks m) eqn:Hh; cbn [negb fst].
      - apply Z.eqb_eq in Hh. symmetry. exact Hh.
      - match goal with |- context [checkBalanceChanged w ?m1] =>
          pose proof (checkBalanceChanged_frame w m1) as Hf;
          destruct (checkBalanceChanged w m1) as [m2 sigs] end.
        cbv zeta in Hf. cbn [fst] in Hf. destruct Hf as (_ & _ & _ & _ & _ & _ & Hb).
        destruct (transactionTableModel m2); cbn [fst]; exact Hb. }
    set (m1 := fst (pollBalanceChanged true true nBestHeight w m)) in *.
    unfold pollBalanceChanged. rewrite Hh, Z.eqb_refl.
    destruct lockMain, lockWallet; reflexivity.
Qed.

(** X14: a poll that goes through at a new height records the height and
    leaves the four balance caches equal to the wallet's figures. *)
Theorem pollBalanceChanged_fresh nBestHeight w m :
  nBestHeight <> cachedNumBlocks m ->
  let m' := fst (pollBalanceChanged true true nBestHeight w m) in
  cachedNumBlocks m' = nBestHeight
  /\ cachedBalance m' = GetUnlockedBalance w
  /\ cachedStake m' = GetStakeAmount w
  /\ cachedUnconfirmedBalance m' = GetUnconfirmedBalance w
  /\ cachedImmatureBalance m' = GetImmatureBalance w
  /\ (transactionTableModel m = true ->
      exists sigs, snd (pollBalanceChanged true true nBestHeight w m)
                   = sigs ++ [TransactionTableModel_updateConfirmations]).
Proof.
  intros Hne. cbv zeta. unfold pollBalanceChanged. cbn [negb].
  apply Z.eqb_neq in Hne. rewrite Hne. cbn [negb].
  match goal with |- context [checkBalanceChanged w ?m1] =>
    pose proof (checkBalanceChanged_frame w m1) as Hf;
    pose proof (checkBalanceChanged_post w m1) as Hp;
    destruct (checkBalanceChanged w m1) as [m2 sigs]
  end.
  cbv zeta in Hf. cbn in Hf, Hp.
  destruct Hf as (_ & _ & Ht & _ & _ & _ & Hb).
  destruct Hp as (H1 & H3 & H4 & H5).
  destruct (transactionTableModel m2) eqn:E; cbn [fst snd];
    repeat split; try assumption.
  - intros _. exists sigs. reflexivity.
  - intros Hm. congruence.
Qed.

(** X15: [updateTransaction] leaves the cached transaction count equal to the
    wallet's, emits [numTransactionsChanged] exactly when the count differed,
    and starts with the call into the transaction table when there is one. *)
Theorem updateTransaction_count hash st w m :
  cachedNumTransactions (fst (updateTransaction hash st w m)) = getNumTransactions w
  /\ (forall n, In (numTransactionsChanged n) (snd (updateTransaction hash st w m))
                <-> n = getNumTransactions w /\ cachedNumTransactions m <> n)
  /\ (transactionTableModel m = true ->
      exists sigs, snd (updateTransaction hash st w m)
                   = TransactionTableModel_updateTransaction hash st :: sigs).
Proof.
  unfold updateTransaction.
  pose proof (checkBalanceChanged_frame w m) as Hf. cbv zeta in Hf.
  pose proof (checkBalanceChanged_signals w m) as Hs.
  destruct (checkBalanceChanged w m) as [m1 sigs1]. cbn [fst snd] in Hf, Hs.
  destruct Hf as (_ & _ & _ & _ & Hn & _). rewrite Hn.
  set (sigs0 := if transactionTableModel m
                then [TransactionTableModel_updateTransaction hash st] else []).
  assert (H0 : forall n, ~ In (numTransactionsChanged n) sigs0).
  { intros n. subst sigs0. destruct (transactionTableModel m); cbn; [|tauto].
    intros [Hin|[]]. discriminate. }
  assert (Hhead : transactionTableModel m = true ->
                  forall tl, exists sigs,
                    sigs0 ++ tl = TransactionTableModel_updateTransaction hash st :: sigs).
  { intros Ht tl. subst sigs0. rewrite Ht. eexists. reflexivity. }
  destruct (cachedNumTransactions m =? getNumTransactions w) eqn:Hc; cbn [negb fst snd].
  - apply Z.eqb_eq in Hc. split; [rewrite Hn; exact Hc|]. split; [|intros Ht; apply Hhead, Ht].
    intros n. rewrite in_app_iff. split.
    + intros [Hin|Hin]; [destruct (H0 _ Hin)|destruct (Hs _ Hin)].
    + intros [-> Hne]. contradiction.
  - apply Z.eqb_neq in Hc. cbn [cachedNumTransactions].
    split; [reflexivity|]. split; [|intros Ht; apply Hhead, Ht].
    intros n. rewrite !in_app_iff. split.
    + intros [Hin|[Hin|Hin]]; [destruct (H0 _ Hin)|destruct (Hs _ Hin)|].
      destruct Hin as [Hin|[]]. injection Hin as <-. split; [reflexivity|exact Hc].
    + intros [-> _]. right. right. left. reflexivity.
Qed.

Lemma runCall_frame (c : ModelCall W) m :
  cachedLockedBalance (fst (runCall c m)) = cachedLockedBalance m
  /\ cachedEncryptionStatus (fst (runCall c m)) = cachedEncryptionStatus m
  /\ addressTableModel (fst (runCall c m)) = addressTableModel m
  /\ transactionTableModel (fst (runCall c m)) = transactionTableModel m.
Proof.
  destruct c as [w|lm lw h w|hash st w|w|b]; cbn [runCall].
  - pose proof (checkBalanceChanged_frame w m) as Hf. cbv zeta in Hf. tauto.
  - unfold pollBalanceChanged.
    destruct lm; cbn [negb]; [|auto]. destruct lw; cbn [negb]; [|auto].
    destruct (h =? cachedNumBlocks m); cbn [negb]; [auto|].
    match goal with |- context [checkBalanceChanged w ?m1] =>
      pose proof (checkBalanceChanged_frame w m1) as Hf;
      destruct (checkBalanceChanged w m1) as [m2 sigs] end.
    cbv zeta in Hf. cbn in Hf. destruct (transactionTableModel m2) eqn:E; cbn [fst]; 
      rewrite ?E; tauto.
  - unfold updateTransaction.
    pose proof (checkBalanceChanged_frame w m) as Hf. cbv zeta in Hf.
    destruct (checkBalanceChanged w m) as [m1 sigs]. cbn [fst] in Hf.
    destruct (negb _); cbn; tauto.
  - unfold updateStatus. destruct (decide _); cbn; auto.
  - cbn. auto.
Qed.

(** X16: over any history of these calls, [cachedLockedBalance] and
    [cachedEncryptionStatus] keep the values they started with. *)
Theorem caches_never_written (cs : list (ModelCall W)) m :
  cachedLockedBalance (fst (runCalls cs m)) = cachedLockedBalance m
  /\ cachedEncryptionStatus (fst (runCalls cs m)) = cachedEncryptionStatus m.
Proof.
  revert m. induction cs as [|c rest IH]; intros m; [split; reflexivity|].
  cbn [runCalls].
  pose proof (runCall_frame c m) as (Hl & He & _).
  destruct (runCall c m) as [m1 sigs1]. cbn [fst] in Hl, He.
  specialize (IH m1). destruct (runCalls rest m1) as [m2 sigs2]. cbn [fst] in *.
  destruct IH as [IHl IHe]. split; congruence.
Qed.

End CacheProperties.

(** * Unlock contexts and output lookup *)

Section UnlockProperties.

Context {W : Type} `{View : WalletView W}.

(** X17: when the wallet is not locked and the staking-only flag is off,
    [requestUnlock] asks nothing of the user, leaves the wallet and the flag
    as they are and hands out a valid context that will not relock;
    destroying the context leaves the wallet as it is. *)
Theorem requestUnlock_not_locked w :
  getEncryptionStatus w <> Locked ->
  requestUnlock false w = (mkUnlockContext true false, w, false, [])
  /\ UnlockContext_destroy (fst (fst (fst (requestUnlock false w)))) w = w.
Proof.
  intros Hst. unfold requestUnlock.
  rewrite (bool_decide_eq_false_2 _ Hst). cbn.
  rewrite (bool_decide_eq_false_2 _ Hst). cbn. split; reflexivity.
Qed.

(** What [requestUnlock] returns, in terms of the wallet as it is when
    the user may be asked. *)
Lemma requestUnlock_run fWalletUnlockStakingOnly w :
  requestUnlock fWalletUnlockStakingOnly w
  = let asked := walletAsked fWalletUnlockStakingOnly w in
    if bool_decide (getEncryptionStatus asked = Locked) then
      let answer := requireUnlock_slot asked fWalletUnlockStakingOnly in
      (mkUnlockContext (negb (bool_decide (getEncryptionStatus (fst answer) = Locked)))
         (negb (snd answer)),
       fst answer, snd answer, [requireUnlock])
    else
      (mkUnlockContext true (false && negb fWalletUnlockStakingOnly),
       asked, fWalletUnlockStakingOnly, []).
Proof.
  unfold requestUnlock, walletAsked. cbv zeta.
  destruct (bool_decide (getEncryptionStatus w = Locked)) eqn:Hl; cbn [negb andb].
  - rewrite Hl.
    destruct (requireUnlock_slot w fWalletUnlockStakingOnly) as [w1 f1].
    reflexivity.
  - destruct fWalletUnlockStakingOnly; cbn [negb andb].
    + destruct (setWalletLocked true "" w) as [r w1]. cbn [snd].
      destruct (bool_decide (getEncryptionStatus w1 = Locked)) eqn:H1.
      * destruct (requireUnlock_slot w1 true) as [w2 f2]. reflexivity.
      * rewrite H1. reflexivity.
    + rewrite Hl. reflexivity.
Qed.

(** X18: the destructor of the context handed out by [requestUnlock] locks
    the wallet exactly when the wallet is locked at the moment the user is
    asked (locked on entry, or locked by [requestUnlock] itself because the
    staking-only flag was on), the flag as the slot leaves it is off, and
    the slot leaves the wallet not locked.  The flag that counts is the one
    read after the slot has run, whatever it was on entry.  In every other
    case the destructor leaves the wallet as it is. *)
Theorem requestUnlock_relocks fWalletUnlockStakingOnly w :
  let res := requestUnlock fWalletUnlockStakingOnly w in
  let ctx := fst (fst (fst res)) in
  let w' := snd (fst (fst res)) in
  let asked := walletAsked fWalletUnlockStakingOnly w in
  let answer := requireUnlock_slot asked fWalletUnlockStakingOnly in
  (valid ctx && relock ctx = true
   <-> getEncryptionStatus asked = Locked
       /\ snd answer = false
       /\ getEncryptionStatus (fst answer) <> Locked)
  /\ (valid ctx && relock ctx = true ->
      w' = fst answer /\ snd (fst res) = false
      /\ UnlockContext_destroy ctx w' = snd (Lock w'))
  /\ (valid ctx && relock ctx = false -> UnlockContext_destroy ctx w' = w').
Proof.
  cbv zeta. rewrite requestUnlock_run. cbv zeta.
  destruct (bool_decide (getEncryptionStatus (walletAsked fWalletUnlockStakingOnly w)
                         = Locked)) eqn:Ha.
  - apply bool_decide_eq_true_1 in Ha.
    destruct (requireUnlock_slot (walletAsked fWalletUnlockStakingOnly w)
                fWalletUnlockStakingOnly) as [w1 f1].
    cbn [fst snd valid relock].
    destruct (bool_decide (getEncryptionStatus w1 = Locked)) eqn:Hu;
      [apply bool_decide_eq_true_1 in Hu|apply bool_decide_eq_false_1 in Hu];
      destruct f1; cbn [negb andb];
      unfold UnlockContext_destroy; cbn [valid relock negb andb setWalletLocked];
      repeat split; try tauto; try discriminate; try congruence;
      intros (_ & ? & ?); try discriminate; try contradiction.
  - apply bool_decide_eq_false_1 in Ha.
    cbn [fst snd valid relock andb].
    unfold UnlockContext_destroy; cbn [valid relock andb].
    repeat split; try discriminate; try tauto.
Qed.

(** X19: the user is asked to unlock exactly when the wallet is locked on
    entry, or the staking-only flag is on and the wallet is locked after the
    call to [Lock] that the flag causes; the context is valid exactly when
    the wallet is not locked on return. *)
Theorem requestUnlock_asks fWalletUnlockStakingOnly w :
  let res := requestUnlock fWalletUnlockStakingOnly w in
  (snd res = [requireUnlock]
   <-> getEncryptionStatus w = Locked
       \/ (fWalletUnlockStakingOnly = true
           /\ getEncryptionStatus (snd (Lock w)) = Locked))
  /\ (snd res = [] \/ snd res = [requireUnlock])
  /\ (valid (fst (fst (fst res))) = true
      <-> getEncryptionStatus (snd (fst (fst res))) <> Locked).
Proof.
  cbv zeta. unfold requestUnlock.
  destruct (bool_decide (getEncryptionStatus w = Locked)) eqn:Hl.
  - apply bool_decide_eq_true_1 in Hl. cbn [negb andb].
    destruct (requireUnlock_slot w fWalletUnlockStakingOnly) as [w1 f1].
    cbn [fst snd valid].
    split; [tauto|]. split; [auto|].
    rewrite negb_true_iff, bool_decide_eq_false. tauto.
  - apply bool_decide_eq_false_1 in Hl. cbn [negb andb].
    destruct fWalletUnlockStakingOnly; cbn [negb andb].
    + unfold setWalletLocked. destruct (Lock w) as [r w1]. cbn [snd].
      destruct (bool_decide (getEncryptionStatus w1 = Locked)) eqn:H1;
        [apply bool_decide_eq_true_1 in H1|apply bool_decide_eq_false_1 in H1].
      * destruct (requireUnlock_slot w1 true) as [w2 f2]. cbn [fst snd valid].
        split; [tauto|]. split; [auto|].
        rewrite negb_true_iff, bool_decide_eq_false. tauto.
      * cbn [fst snd valid].
        split; [|split; [auto|rewrite negb_true_iff, bool_decide_eq_false; tauto]].
        split; [discriminate|]. intros [?|[_ ?]]; contradiction.
    + cbn [fst snd valid].
      split; [|split; [auto|rewrite negb_true_iff, bool_decide_eq_false; tauto]].
      split; [discriminate|]. intros [?|[? _]]; [contradiction|discriminate].
Qed.

End UnlockProperties.

Section OutputsProperties.

Context {W : Type} `{View : WalletView W}.

(** X20: [getOutputs] keeps what [vOutputs] held and appends, in the order of
    [vOutpoints], one spendable output for each outpoint whose transaction is
    in the wallet with a depth that is not negative; the other outpoints are
    passed over. *)
Theorem getOutputs_filter w vOutpoints vOutputs :
  getOutputs w vOutpoints vOutputs
  = vOutputs
    ++ map (fun outpoint =>
              mkOutput (outpoint_hash outpoint) (Int.wrap32 (outpoint_n outpoint))
                (GetDepthInMainChain w (outpoint_hash outpoint)) true)
         (filter (fun outpoint =>
                    is_Some (mapWallet w !! outpoint_hash outpoint)
                    /\ 0 <= GetDepthInMainChain w (outpoint_hash outpoint))
            vOutpoints).
Proof.
  revert vOutputs. induction vOutpoints as [|outpoint rest IH]; intros vOutputs.
  - cbn. rewrite app_nil_r. reflexivity.
  - cbn [getOutputs]. rewrite filter_cons.
    destruct (mapWallet w !! outpoint_hash outpoint) as [tx|] eqn:Hc.
    + destruct (GetDepthInMainChain w (outpoint_hash outpoint) <? 0) eqn:Hd.
      * apply Z.ltb_lt in Hd. rewrite decide_False by lia. apply IH.
      * apply Z.ltb_ge in Hd.
        rewrite decide_True by (split; [eexists; reflexivity|lia]).
        rewrite IH, <- app_assoc. reflexivity.
    + rewrite decide_False by (intros [[? ?] _]; discriminate). apply IH.
Qed.

(** X21: two batches of outpoints run one after the other give what the joined
    batch gives, and a batch never yields more outputs than it has
    outpoints. *)
Theorem getOutputs_app w vOutpoints1 vOutpoints2 vOutputs :
  getOutputs w (vOutpoints1 ++ vOutpoints2) vOutputs
  = getOutputs w vOutpoints2 (getOutputs w vOutpoints1 vOutputs)
  /\ (length vOutputs <= length (getOutputs w vOutpoints1 vOutputs)
      <= length vOutputs + length vOutpoints1)%nat.
Proof.
  split.
  - revert vOutputs. induction vOutpoints1 as [|outpoint rest IH]; intros vOutputs.
    + reflexivity.
    + cbn [app getOutputs].
      destruct (mapWallet w !! outpoint_hash outpoint); [|apply IH].
      destruct (_ <? 0); apply IH.
  - revert vOutputs. induction vOutpoints1 as [|outpoint rest IH]; intros vOutputs.
    + cbn. lia.
    + cbn [getOutputs length].
      destruct (mapWallet w !! outpoint_hash outpoint); [|specialize (IH vOutputs); lia].
      destruct (_ <? 0); [specialize (IH vOutputs); lia|].
      specialize (IH (vOutputs ++ [mkOutput (outpoint_hash outpoint)
                                     (Int.wrap32 (outpoint_n outpoint))
                                     (GetDepthInMainChain w (outpoint_hash outpoint)) true])).
      rewrite length_app in IH. cbn [length] in IH. lia.
Qed.

End OutputsProperties.

(** * The coin listing *)

Section CoinProperties.

Context {W : Type} `{View : WalletView W}.

(** ** The grouping loop *)

Lemma groupCoins_lookup fuel w vCoins (mapCoins mapCoins' : gmap string (list COutput)) :
  groupCoins fuel w vCoins mapCoins = Listing mapCoins' ->
  forall key,
    default [] (mapCoins' !! key)
    = default [] (mapCoins !! key)
      ++ filter (fun out => coinGroup fuel w out = GroupUnder key) vCoins.
Proof.
  revert mapCoins. induction vCoins as [|out rest IH]; intros mapCoins.
  - intros [= <-] key. rewrite app_nil_r. reflexivity.
  - cbn [groupCoins]. intros Hg key. rewrite filter_cons.
    destruct (coinGroup fuel w out) as [k| | |] eqn:Hk; try discriminate.
    + rewrite (IH _ Hg key).
      destruct (decide (k = key)) as [->|Hne].
      * rewrite lookup_insert_eq. cbn [from_option id].
        rewrite decide_True by reflexivity. rewrite <- app_assoc. reflexivity.
      * rewrite lookup_insert_ne by exact Hne.
        rewrite decide_False by congruence. reflexivity.
    + rewrite decide_False by discriminate. apply (IH _ Hg).
Qed.

(** X22: [listCoins] keeps the lists [mapCoins] held and appends to the list of
    each address, in the order [AvailableCoins] gave them, exactly the coins
    the loop body assigns to that address.  Nothing but coins of
    [AvailableCoins] is ever added: the block for the locked coins does not
    run, whatever [-controllockedcoins] is set to. *)
Theorem listCoins_groups fuel w (mapCoins mapCoins' : gmap string (list COutput)) :
  listCoins fuel w mapCoins = Listing mapCoins' ->
  forall key,
    default [] (mapCoins' !! key)
    = default [] (mapCoins !! key)
      ++ filter (fun out => coinGroup fuel w out = GroupUnder key)
           (AvailableCoinsOutputs w).
Proof. unfold listCoins. cbv zeta. apply groupCoins_lookup. Qed.

(** X23: the coins under an address in a fresh listing are spendable coins of
    [AvailableCoins], and a coin is listed under one address only. *)
Theorem listCoins_only_spendable fuel w (mapCoins' : gmap string (list COutput)) key l out :
  listCoins fuel w ∅ = Listing mapCoins' ->
  mapCoins' !! key = Some l ->
  In out l ->
  In out (AvailableCoinsOutputs w)
  /\ output_fSpendable out = true
  /\ forall key' l', mapCoins' !! key' = Some l' -> In out l' -> key' = key.
Proof.
  intros Hl Hkey Hin. unfold listCoins in Hl. cbv zeta in Hl.
  pose proof (groupCoins_lookup _ _ _ _ _ Hl) as Hchar.
  assert (Hmem : forall k l0, mapCoins' !! k = Some l0 -> In out l0 ->
                 In out (AvailableCoinsOutputs w) /\ coinGroup fuel w out = GroupUnder k).
  { intros k l0 Hk Hin0. specialize (Hchar k). rewrite Hk, lookup_empty in Hchar.
    cbn [from_option id app] in Hchar. subst l0.
    apply list_elem_of_In, list_elem_of_filter in Hin0 as [Hg Hin0].
    split; [apply list_elem_of_In; exact Hin0|exact Hg]. }
  destruct (Hmem _ _ Hkey Hin) as [Hav Hg].
  split; [exact Hav|]. split.
  - unfold coinGroup in Hg. destruct (walkChange fuel w out); try discriminate.
    destruct (output_fSpendable out); [reflexivity|discriminate].
  - intros key' l' Hk' Hin'. destruct (Hmem _ _ Hk' Hin') as [_ Hg'].
    rewrite Hg in Hg'. injection Hg' as ->. reflexivity.
Qed.

(** ** The walk up the change *)

Lemma walkChange_defined fuel w rank cout :
  wfWallet w rank -> wfCoin w cout ->
  (rank (output_tx cout) < fuel)%nat ->
  exists cout', walkChange fuel w cout = WalkTo cout' /\ wfCoin w cout'.
Proof.
  intros Hwf. revert cout. induction fuel as [|fuel IH]; intros cout Hc Hr; [lia|].
  cbn [walkChange]. unfold wfCoin in Hc. destruct Hc as [txout Htxout].
  assert (Htx : exists tx, mapWallet w !! output_tx cout = Some tx).
  { unfold txoutAt in Htxout. destruct (mapWallet w !! output_tx cout) as [tx|];
      [eexists; reflexivity|discriminate]. }
  destruct Htx as [tx Htx]. rewrite Htx, Htxout.
  assert (Hself : wfCoin w cout) by (eexists; exact Htxout).
  destruct (IsChange w txout); [|eexists; split; [reflexivity|exact Hself]].
  destruct (tx_vin tx) as [|txin rest] eqn:Hvin; [eexists; split; [reflexivity|exact Hself]|].
  destruct (IsMine_txin w txin); [|eexists; split; [reflexivity|exact Hself]].
  destruct (mapWallet w !! outpoint_hash txin) as [tx'|] eqn:Hprev;
    [|eexists; split; [reflexivity|exact Hself]].
  destruct (Hwf _ _ _ _ Htx Hvin) as [Hc' Hr']; [rewrite Hprev; eexists; reflexivity|].
  apply IH; [exact Hc'|]. cbn [output_tx]. lia.
Qed.

Lemma walkChange_more_fuel fuel k w cout cout' :
  walkChange fuel w cout = WalkTo cout' ->
  walkChange (fuel + k) w cout = WalkTo cout'.
Proof.
  revert cout. induction fuel as [|fuel IH]; intros cout; [discriminate|].
  cbn [walkChange Nat.add].
  destruct (mapWallet w !! output_tx cout) as [tx|]; [|discriminate].
  destruct (txoutAt w cout) as [txout|]; [|discriminate].
  destruct (IsChange w txout); [|trivial].
  destruct (tx_vin tx) as [|txin rest]; [trivial|].
  destruct (IsMine_txin w txin); [|trivial].
  destruct (mapWallet w !! outpoint_hash txin); [|trivial].
  apply IH.
Qed.

Lemma walkChange_undefined_more_fuel fuel k w cout :
  walkChange fuel w cout = WalkUndefined ->
  walkChange (fuel + k) w cout = WalkUndefined.
Proof.
  revert cout. induction fuel as [|fuel IH]; intros cout; [discriminate|].
  cbn [walkChange Nat.add].
  destruct (mapWallet w !! output_tx cout) as [tx|]; [|trivial].
  destruct (txoutAt w cout) as [txout|]; [|trivial].
  destruct (IsChange w txout); [|trivial].
  destruct (tx_vin tx) as [|txin rest]; [trivial|].
  destruct (IsMine_txin w txin); [|trivial].
  destruct (mapWallet w !! outpoint_hash txin); [|trivial].
  apply IH.
Qed.

Lemma coinGroup_more_fuel fuel k w out :
  coinGroup fuel w out <> GroupOutOfFuel ->
  coinGroup (fuel + k) w out = coinGroup fuel w out.
Proof.
  unfold coinGroup. intros Hne.
  destruct (walkChange fuel w out) as [cout| |] eqn:Hw.
  - rewrite (walkChange_more_fuel _ k _ _ _ Hw). reflexivity.
  - rewrite (walkChange_undefined_more_fuel _ k _ _ Hw). reflexivity.
  - contradiction.
Qed.

(** X24: in a wallet whose transactions are ranked, with every coin of
    [AvailableCoins] naming an existing output, [listCoins] is defined and
    finishes within fuel proportional to the rank: the walk from a change
    output towards the outputs that funded it ends. *)
Theorem listCoins_defined fuel w rank (mapCoins : gmap string (list COutput)) :
  wfWallet w rank ->
  Forall (fun out => wfCoin w out /\ (rank (output_tx out) < fuel)%nat)
    (AvailableCoinsOutputs w) ->
  exists mapCoins', listCoins fuel w mapCoins = Listing mapCoins'.
Proof.
  intros Hwf Hall. unfold listCoins. cbv zeta.
  revert mapCoins. induction Hall as [|out rest [Hc Hr] _ IH]; intros mapCoins.
  - eexists. reflexivity.
  - cbn [groupCoins]. unfold coinGroup.
    destruct (walkChange_defined fuel w rank out Hwf Hc Hr) as (cout & -> & [txout Ht]).
    destruct (output_fSpendable out); cbn [negb]; [|apply IH].
    rewrite Ht. destruct (ExtractDestination txout.1); apply IH.
Qed.

(** Once the fuel is enough for [listCoins] to finish, more fuel gives the
    same listing. *)
Lemma listCoins_more_fuel fuel k w (mapCoins : gmap string (list COutput)) :
  listCoins fuel w mapCoins <> ListOutOfFuel ->
  listCoins (fuel + k) w mapCoins = listCoins fuel w mapCoins.
Proof.
  unfold listCoins. cbv zeta. generalize (AvailableCoinsOutputs w) as vCoins.
  intros vCoins. revert mapCoins. induction vCoins as [|out rest IH]; intros mapCoins.
  - reflexivity.
  - cbn [groupCoins]. intros Hne.
    assert (Hg : coinGroup fuel w out <> GroupOutOfFuel).
    { intros Hg. rewrite Hg in Hne. contradiction. }
    rewrite (coinGroup_more_fuel _ k _ _ Hg).
    destruct (coinGroup fuel w out); try reflexivity; apply IH; exact Hne.
Qed.

End CoinProperties.


(** * The further properties on concrete wallets *)



(** X1 on a request whose second entry has no valid address, then on one
    whose second entry asks for amount 0; the third entry repeats the first
    address. *)
Lemma first_invalid_recipient_witness :
  sendCoins [Demo.standard Demo.addrA "" 5; Demo.standard "nowhere" "" 5;
             Demo.standard Demo.addrA "" 5] None (Demo.start [1000] [] 0)
  = (SendCoinsReturn1 InvalidAddress, Demo.start [1000] [] 0)
  /\ sendCoins [Demo.standard Demo.addrA "" 5; Demo.standard Demo.addrB "" 0;
                Demo.standard Demo.addrA "" 5] None (Demo.start [1000] [] 0)
     = (SendCoinsReturn1 InvalidAmount, Demo.start [1000] [] 0).
Proof.
  assert (Hall : Forall admissible [Demo.standard Demo.addrA "" 5]).
  { repeat constructor; vm_compute; reflexivity. }
  split.
  - refine (proj1 (first_invalid_recipient [Demo.standard Demo.addrA "" 5]
                     (Demo.standard "nowhere" "" 5) [Demo.standard Demo.addrA "" 5]
                     None (Demo.start [1000] [] 0) Hall) _).
    vm_compute. reflexivity.
  - refine (proj2 (first_invalid_recipient [Demo.standard Demo.addrA "" 5]
                     (Demo.standard Demo.addrB "" 0) [Demo.standard Demo.addrA "" 5]
                     None (Demo.start [1000] [] 0) Hall) _ _).
    + vm_compute. reflexivity.
    + vm_compute. discriminate.
Defined.

(** X3 on a request answered [OK]. *)
Lemma ok_exactly_witness :
  status (fst (sendCoins [Demo.standard Demo.addrA "hi" 500] None (Demo.start [1000] [] 0)))
  = OK
  /\ reachesBuild [Demo.standard Demo.addrA "hi" 500] None
       (wallet (Demo.start [1000] [] 0)).
Proof.
  assert (Hst : status (fst (sendCoins [Demo.standard Demo.addrA "hi" 500] None
                               (Demo.start [1000] [] 0))) = OK)
    by (vm_compute; reflexivity).
  split; [exact Hst|].
  assert (Hne : [Demo.standard Demo.addrA "hi" 500] <> []) by discriminate.
  exact (proj1 (ok_exactly _ None (Demo.start [1000] [] 0) Hne Hst)).
Defined.

(** A single valid recipient within the balance of 1000 reaches the
    construction of the outputs. *)
Lemma strict_reaches rcp :
  validateAddress (Ext := DemoStrict.ext) (address rcp) = true ->
  0 < amount rcp ->
  Int.add64 (Int.add64 0 (amount rcp)) 10 <= 1000 ->
  Int.add64 0 (amount rcp) <= 1000 ->
  forall at_, reachesBuild (Ext := DemoStrict.ext) [rcp] None
                (wallet (Demo.start [1000] [] at_)).
Proof.
  intros Hv Hp Hfee Htot at_. unfold reachesBuild.
  split; [discriminate|]. split; [repeat constructor; assumption|].
  split; [apply NoDup_singleton|]. split; [exact Htot|exact Hfee].
Qed.

(** X4: a fee of 20 is declined; a fee of 10 is approved and the commit
    fails. *)
Lemma declined_or_failed_witness :
  fst (sendCoins (Ext := DemoStrict.ext) [Demo.standard Demo.addrA "x" 85] None
         (Demo.start [1000] [] 1))
  = SendCoinsReturn1 Aborted
  /\ fst (sendCoins (Ext := DemoStrict.ext) [Demo.standard Demo.addrA "" 85] None
            (Demo.start [1000] [] 7))
     = SendCoinsReturn1 TransactionCommitFailed.
Proof.
  split.
  - assert (Hr : reachesBuild (Ext := DemoStrict.ext) [Demo.standard Demo.addrA "x" 85]
                   None (wallet (Demo.start [1000] [] 1)))
      by (apply strict_reaches; vm_compute; reflexivity || discriminate).
    pose proof (declined_or_failed (Ext := DemoStrict.ext)
                  [Demo.standard Demo.addrA "x" 85] None (Demo.start [1000] [] 1)
                  _ _ _ Hr eq_refl) as H.
    cbv zeta in H. destruct (H eq_refl) as [Hdecl _].
    rewrite (Hdecl eq_refl). reflexivity.
  - assert (Hr : reachesBuild (Ext := DemoStrict.ext) [Demo.standard Demo.addrA "" 85]
                   None (wallet (Demo.start [1000] [] 7)))
      by (apply strict_reaches; vm_compute; reflexivity || discriminate).
    pose proof (declined_or_failed (Ext := DemoStrict.ext)
                  [Demo.standard Demo.addrA "" 85] None (Demo.start [1000] [] 7)
                  _ _ _ Hr eq_refl) as H.
    cbv zeta in H. destruct (H eq_refl) as [_ Hfail].
    rewrite (Hfail eq_refl eq_refl). reflexivity.
Defined.

(** X6 on two recipients, the second a stealth payment with a narration. *)
Lemma outputs_carry_amounts_witness :
  exists v m s',
    buildOutputs [Demo.standard Demo.addrA "" 100; Demo.stealth Demo.addrStealth "hello" 500]
      ([], []) (Demo.start [1000] [] 1) = (Continue (v, m), s')
    /\ sumValues v = 600 /\ (2 <= length v <= 4)%nat.
Proof.
  destruct (buildOutputs
              [Demo.standard Demo.addrA "" 100; Demo.stealth Demo.addrStealth "hello" 500]
              ([], []) (Demo.start [1000] [] 1)) as [[[v m]|r] s'] eqn:Hb;
    [|vm_compute in Hb; discriminate].
  exists v, m, s'. split; [reflexivity|].
  exact (outputs_carry_amounts _ _ _ _ _ _ _ Hb).
Defined.

(** X7 on the same two recipients: one secret is drawn. *)
Lemma one_draw_per_stealth_witness :
  exists b' s',
    buildOutputs [Demo.standard Demo.addrA "" 100; Demo.stealth Demo.addrStealth "hello" 500]
      ([], []) (Demo.start [1000] [] 1) = (Continue b', s')
    /\ draws s' = 1%nat.
Proof.
  destruct (buildOutputs
              [Demo.standard Demo.addrA "" 100; Demo.stealth Demo.addrStealth "hello" 500]
              ([], []) (Demo.start [1000] [] 1)) as [[b'|r] s'] eqn:Hb;
    [|vm_compute in Hb; discriminate].
  exists b', s'. split; [reflexivity|].
  exact (one_draw_per_stealth _ _ _ _ _ Hb).
Defined.

(** X8 on amounts 100 and 500. *)
Lemma total_is_exact_witness :
  exists setAddress,
    precheck [Demo.standard Demo.addrA "" 100; Demo.standard Demo.addrB "" 500] ∅ 0
    = inl (setAddress, 600).
Proof.
  destruct (precheck [Demo.standard Demo.addrA "" 100; Demo.standard Demo.addrB "" 500] ∅ 0)
    as [[setAddress total]|err] eqn:Hp; [|vm_compute in Hp; discriminate].
  exists setAddress.
  rewrite (total_is_exact _ _ _ Hp); [reflexivity|vm_compute; reflexivity].
Defined.

(** X9 on the same two recipients: the record at position 1 names the
    payment of 500 and its data carrier. *)
Lemma records_point_at_stealth_payments_witness :
  exists v m s',
    buildOutputs [Demo.standard Demo.addrA "" 100; Demo.stealth Demo.addrStealth "hello" 500]
      ([], []) (Demo.start [1000] [] 1) = (Continue (v, m), s')
    /\ In (1, "hello") m
    /\ exists script extra,
         v !! 1%nat = Some (script, 500) /\ v !! 2%nat = Some (OP_RETURN :: extra, 0).
Proof.
  destruct (buildOutputs
              [Demo.standard Demo.addrA "" 100; Demo.stealth Demo.addrStealth "hello" 500]
              ([], []) (Demo.start [1000] [] 1)) as [[[v m]|r] s'] eqn:Hb;
    [|vm_compute in Hb; discriminate].
  pose proof Hb as Hb2. vm_compute in Hb2.
  injection Hb2 as Hv Hm Hs.
  assert (Hlen : Z.of_nat (length v) <= 2 ^ 31)
    by (rewrite <- Hv; vm_compute; discriminate).
  exists v, m, s'. split; [reflexivity|].
  assert (Hin : In (1, "hello") m) by (rewrite <- Hm; left; reflexivity).
  split; [exact Hin|].
  destruct (records_point_at_stealth_payments _ _ _ _ _ _ _ Hb Hlen Hin)
    as (rcp & script & extra & Hrcp & Hn & _ & _ & _ & Hp & Hc).
  change (Z.to_nat 1) with 1%nat in Hp, Hc.
  exists script, extra. split; [|exact Hc].
  rewrite Hp. f_equal. f_equal.
  destruct Hrcp as [<-|[<-|[]]]; [vm_compute in Hn; discriminate|reflexivity].
Defined.

(** X10: a comment stored by the wallet survives two narrations. *)
Lemma other_metadata_kept_witness :
  attachNarrations 0 [(0, "hi"); (1, "there")] {["comment" := "rent"]} !! "comment"
  = Some "rent".
Proof.
  rewrite (other_metadata_kept 0 [(0, "hi"); (1, "there")] {["comment" := "rent"]}
             "comment"); [|vm_compute; reflexivity].
  vm_compute. reflexivity.
Defined.

(** X13: a poll that gets only one of the two locks, and a second poll at
    the height of the first. *)
Lemma pollBalanceChanged_skips_witness :
  pollBalanceChanged true false 5 (DemoView.wallet0 false false) DemoView.model0
  = (DemoView.model0, [])
  /\ snd (pollBalanceChanged true true 5 (DemoView.wallet0 true true)
            (fst (pollBalanceChanged true true 5 (DemoView.wallet0 false false)
                    DemoView.model0)))
     = [].
Proof.
  destruct (pollBalanceChanged_skips true false 5 (DemoView.wallet0 false false)
              (DemoView.wallet0 false false) DemoView.model0) as [Hskip _].
  destruct (pollBalanceChanged_skips true true 5 (DemoView.wallet0 false false)
              (DemoView.wallet0 true true) DemoView.model0) as [_ Hagain].
  split; [apply Hskip; reflexivity|].
  rewrite Hagain. reflexivity.
Defined.

(** X14 on a first poll at height 5. *)
Lemma pollBalanceChanged_fresh_witness :
  let m' := fst (pollBalanceChanged true true 5 (DemoView.wallet0 false false)
                   DemoView.model0) in
  cachedNumBlocks m' = 5 /\ cachedBalance m' = 100 /\ cachedStake m' = 5.
Proof.
  assert (Hne : 5 <> cachedNumBlocks DemoView.model0) by (vm_compute; discriminate).
  destruct (pollBalanceChanged_fresh 5 (DemoView.wallet0 false false) DemoView.model0 Hne)
    as (Hb & Hbal & Hst & _).
  cbv zeta. rewrite Hb, Hbal, Hst. repeat split; reflexivity.
Defined.

(** X15 on a model that has a transaction table. *)
Lemma updateTransaction_count_witness :
  exists sigs,
    snd (updateTransaction "ab" 1 (DemoView.wallet0 false false) DemoView.model0)
    = TransactionTableModel_updateTransaction "ab" 1 :: sigs.
Proof.
  destruct (updateTransaction_count "ab" 1 (DemoView.wallet0 false false) DemoView.model0)
    as (_ & _ & Hsig).
  apply Hsig. reflexivity.
Defined.

(** X17 on an encrypted wallet that is unlocked. *)
Lemma requestUnlock_not_locked_witness :
  requestUnlock false (DemoView.wallet0 true false)
  = (mkUnlockContext true false, DemoView.wallet0 true false, false, []).
Proof.
  assert (Hs : getEncryptionStatus (DemoView.wallet0 true false) <> Locked)
    by (vm_compute; discriminate).
  exact (proj1 (requestUnlock_not_locked (DemoView.wallet0 true false) Hs)).
Defined.

(** X18: a locked wallet that the user unlocks is locked again when the
    context goes; and so is a wallet unlocked for staking only, entered
    with the flag on, when the user unlocks it and clears the flag. *)
Lemma requestUnlock_relocks_witness :
  (let res := requestUnlock false (DemoView.wallet0 true true) in
   getEncryptionStatus (snd (fst (fst res))) = Unlocked
   /\ getEncryptionStatus
        (UnlockContext_destroy (fst (fst (fst res))) (snd (fst (fst res))))
      = Locked)
  /\ (let res := requestUnlock true (DemoView.wallet0 true false) in
      getEncryptionStatus (snd (fst (fst res))) = Unlocked
      /\ snd (fst res) = false
      /\ getEncryptionStatus
           (UnlockContext_destroy (fst (fst (fst res))) (snd (fst (fst res))))
         = Locked).
Proof.
  split.
  - destruct (requestUnlock_relocks false (DemoView.wallet0 true true)) as (_ & Hre & _).
    cbv zeta in Hre |- *.
    assert (Hvr : valid (fst (fst (fst (requestUnlock false (DemoView.wallet0 true true)))))
                  && relock (fst (fst (fst (requestUnlock false
                                              (DemoView.wallet0 true true)))))
                  = true) by (vm_compute; reflexivity).
    destruct (Hre Hvr) as (Hw & _ & Hd).
    rewrite Hd, Hw. split; vm_compute; reflexivity.
  - destruct (requestUnlock_relocks true (DemoView.wallet0 true false)) as (_ & Hre & _).
    cbv zeta in Hre |- *.
    assert (Hvr : valid (fst (fst (fst (requestUnlock true (DemoView.wallet0 true false)))))
                  && relock (fst (fst (fst (requestUnlock true
                                              (DemoView.wallet0 true false)))))
                  = true) by (vm_compute; reflexivity).
    destruct (Hre Hvr) as (Hw & Hf & Hd).
    rewrite Hd, Hw. split; [vm_compute; reflexivity|].
    split; [exact Hf|vm_compute; reflexivity].
Defined.

(** The wallet of four transactions is ranked by the transaction numbers. *)
Lemma demo_wallet_wf b1 b2 : wfWallet (DemoView.wallet0 b1 b2) N.to_nat.
Proof.
  intros h tx txin rest Hh Hvin _.
  apply elem_of_list_to_map_2 in Hh. cbn in Hh.
  repeat (apply elem_of_cons in Hh as [Hh|Hh]);
    try (injection Hh as -> ->; cbn in Hvin; try discriminate).
  - injection Hvin as <- <-. split.
    + eexists. vm_compute. reflexivity.
    + cbn. lia.
  - apply elem_of_nil in Hh. destruct Hh.
Qed.

(** Its available coins name existing outputs. *)
Lemma demo_coins_wf b1 b2 :
  Forall (fun out => wfCoin (DemoView.wallet0 b1 b2) out
                     /\ (N.to_nat (output_tx out) < 4)%nat)
    (AvailableCoinsOutputs (DemoView.wallet0 b1 b2)).
Proof.
  repeat constructor; try (eexists; vm_compute; reflexivity); cbn; lia.
Qed.

(** X24 on the wallet of four transactions, ranked by their numbers. *)
Lemma listCoins_defined_witness :
  exists mapCoins', listCoins 4 (DemoView.wallet0 false false) ∅ = Listing mapCoins'.
Proof.
  exact (listCoins_defined 4 (DemoView.wallet0 false false) N.to_nat ∅
           (demo_wallet_wf false false) (demo_coins_wf false false)).
Defined.

(** X22 on that wallet: the change of transaction 2 is listed under the
    address that funded it, and the coin that is not spendable is not listed. *)
Lemma listCoins_groups_witness :
  exists mapCoins',
    listCoins 4 (DemoView.wallet0 false false) ∅ = Listing mapCoins'
    /\ default [] (mapCoins' !! "A") = [DemoView.coinChange]
    /\ default [] (mapCoins' !! "B") = [].
Proof.
  destruct (listCoins 4 (DemoView.wallet0 false false) ∅) as [mapCoins'| |] eqn:Hl;
    [|vm_compute in Hl; discriminate..].
  exists mapCoins'. split; [reflexivity|].
  rewrite !(listCoins_groups 4 (DemoView.wallet0 false false) ∅ mapCoins' Hl).
  split; vm_compute; reflexivity.
Defined.

(** X23 on the coin of transaction 3. *)
Lemma listCoins_only_spendable_witness :
  exists mapCoins' l,
    listCoins 4 (DemoView.wallet0 false false) ∅ = Listing mapCoins'
    /\ mapCoins' !! "C" = Some l /\ In DemoView.coinC l
    /\ output_fSpendable DemoView.coinC = true
    /\ forall key' l', mapCoins' !! key' = Some l' -> In DemoView.coinC l' -> key' = "C".
Proof.
  destruct (listCoins 4 (DemoView.wallet0 false false) ∅) as [mapCoins'| |] eqn:Hl;
    [|vm_compute in Hl; discriminate..].
  pose proof Hl as Hl2. vm_compute in Hl2. injection Hl2 as Hm.
  exists mapCoins', [DemoView.coinC].
  assert (Hk : mapCoins' !! "C" = Some [DemoView.coinC])
    by (rewrite <- Hm; vm_compute; reflexivity).
  assert (Hin : In DemoView.coinC [DemoView.coinC]) by (left; reflexivity).
  split; [reflexivity|]. split; [exact Hk|]. split; [exact Hin|].
  exact (proj2 (listCoins_only_spendable 4 (DemoView.wallet0 false false) mapCoins' "C"
                  [DemoView.coinC] DemoView.coinC Hl Hk Hin)).
Defined.
